(** * cx-cli: the configuration store and the output normalisation pipeline

    A shallow embedding of the JavaScript sources
      - src/utils/config.js      (loadConfig, saveConfig, addDomain)
      - src/commands/delete.js   (deleteDomain)
      - src/commands/display.js  (display)
      - src/commands/get.js      (formatYaml, getDomain)
      - src/commands/call.js     (formatSessionYaml, getCallInfo)
    and of the parts of the JavaScript run time these functions rely on:
    truthiness, property lookup and assignment on plain objects (with the
    names every plain object inherits from [Object.prototype] and the
    enumeration order of own keys), [Array.prototype.sort], and [Date].

    Modelling conventions
      - a JavaScript string is a [string]; its length is the number of
        characters of the [string];
      - a JSON number is an integer [Z] (time values are integers);
      - [undefined] is the slot [Undefined]; it never occurs inside a value,
        as in a document that came out of a JSON or YAML parser;
      - the file system is reliable: creating the directory, reading an
        existing file and writing a file succeed;
      - the YAML library, the terminal colouring library and the remote API
        are interfaces ([Yaml], [Chalk], [Remote]). *)

From Stdlib Require Import ZArith NArith List String Ascii Bool Lia.
From Stdlib Require Import Permutation Sorted.
Import ListNotations.
Set Warnings "-register-all".
Local Open Scope list_scope.
Local Open Scope string_scope.

(* ================================================================== *)
(** ** JavaScript values *)

Inductive value : Type :=
| VNull
| VBool (b : bool)
| VNum (n : Z)
| VStr (s : string)
| VArr (items : list value)
| VObj (props : list (string * value)).

(** What a property read evaluates to: [undefined], a member of
    [Object.prototype] (a function, or the prototype itself for
    [__proto__]), or a value of the document. *)
Inductive slot : Type :=
| Undefined
| Builtin
| Val (v : value).

(** [!!v] *)
Definition truthy (v : value) : bool :=
  match v with
  | VNull => false
  | VBool b => b
  | VNum n => negb (n =? 0)%Z
  | VStr s => negb (s =? "")
  | VArr _ => true
  | VObj _ => true
  end.

Definition slot_truthy (x : slot) : bool :=
  match x with
  | Undefined => false
  | Builtin => true
  | Val v => truthy v
  end.

(** The own property names of [Object.prototype]: every plain object
    answers a read of one of these names with a truthy value. *)
Definition object_prototype_names : list string :=
  [ "constructor"; "__defineGetter__"; "__defineSetter__"; "hasOwnProperty";
    "__lookupGetter__"; "__lookupSetter__"; "isPrototypeOf";
    "propertyIsEnumerable"; "toString"; "valueOf"; "__proto__";
    "toLocaleString" ].

Definition inherited (k : string) : bool :=
  existsb (String.eqb k) object_prototype_names.

(* ------------------------------------------------------------------ *)
(** *** Decimal numerals *)

Definition digit_of (c : ascii) : option N :=
  let n := N_of_ascii c in
  if ((48 <=? n) && (n <=? 57))%N then Some (n - 48)%N else None.

Definition is_digit (c : ascii) : bool :=
  match digit_of c with Some _ => true | None => false end.

Fixpoint digits_value (s : string) (acc : N) : option N :=
  match s with
  | EmptyString => Some acc
  | String c r =>
      match digit_of c with
      | Some d => digits_value r (10 * acc + d)%N
      | None => None
      end
  end.

Definition digit_char (d : N) : ascii := ascii_of_N (48 + d).

Fixpoint digits_of_fuel (fuel : nat) (n : N) (acc : string) : string :=
  match fuel with
  | O => acc
  | S f =>
      let acc' := String (digit_char (n mod 10)) acc in
      if (n <? 10)%N then acc' else digits_of_fuel f (n / 10)%N acc'
  end.

(** [String(n)] for a natural number. *)
Definition N_to_string (n : N) : string :=
  digits_of_fuel (S (N.to_nat (N.log2 n))) n EmptyString.

(** An array index is a canonical numeral below 2^32 - 1: own keys of this
    form are enumerated first, in ascending numeric order. *)
Definition array_index (k : string) : option N :=
  match k with
  | EmptyString => None
  | String c r =>
      if (c =? "0")%char
      then (match r with EmptyString => Some 0%N | _ => None end)
      else match digits_value k 0 with
           | Some n => if (n <=? 4294967294)%N then Some n else None
           | None => None
           end
  end.

(* ------------------------------------------------------------------ *)
(** *** Plain objects: own properties in enumeration order *)

Definition object := list (string * value).

Fixpoint own_get (o : object) (k : string) : option value :=
  match o with
  | [] => None
  | (k', v) :: r => if k' =? k then Some v else own_get r k
  end.

Definition has_own (o : object) (k : string) : bool :=
  match own_get o k with Some _ => true | None => false end.

(** [Object.keys(o)] *)
Definition keys (o : object) : list string := map fst o.

Fixpoint own_replace (o : object) (k : string) (v : value) : object :=
  match o with
  | [] => []
  | (k', v') :: r =>
      if k' =? k then (k', v) :: r else (k', v') :: own_replace r k v
  end.

(** A new integer-like key goes before the first own key that is not
    integer-like or that is a greater integer. *)
Fixpoint insert_index (o : object) (n : N) (k : string) (v : value) : object :=
  match o with
  | [] => [(k, v)]
  | (k', v') :: r =>
      match array_index k' with
      | Some m =>
          if (m <? n)%N then (k', v') :: insert_index r n k v
          else (k, v) :: o
      | None => (k, v) :: o
      end
  end.

(** [o[k] = v] on a plain object.  An existing own property keeps its
    place; [__proto__] that is not an own property is the accessor of
    [Object.prototype], which creates no own property; a new integer-like
    key is placed among the integer-like keys; any other new key goes
    last. *)
Definition obj_set (o : object) (k : string) (v : value) : object :=
  if has_own o k then own_replace o k v
  else if k =? "__proto__" then o
  else match array_index k with
       | Some n => insert_index o n k v
       | None => (o ++ [(k, v)])%list
       end.

(** [delete o[k]] on a plain object. *)
Fixpoint obj_delete (o : object) (k : string) : object :=
  match o with
  | [] => []
  | (k', v) :: r =>
      if k' =? k then obj_delete r k else (k', v) :: obj_delete r k
  end.

(* ------------------------------------------------------------------ *)
(** *** Results of a computation *)

(** A JavaScript computation returns, throws an [Error] with a message,
    or ends the process with [process.exit(code)]. *)
Inductive res (A : Type) : Type :=
| Ret (a : A)
| Throw (message : string)
| Exit (code : Z).

Arguments Ret {A} a.
Arguments Throw {A} message.
Arguments Exit {A} code.

Definition rbind {A B : Type} (r : res A) (k : A -> res B) : res B :=
  match r with
  | Ret a => k a
  | Throw m => Throw m
  | Exit c => Exit c
  end.

(** The message of the [TypeError] for a property access through
    [undefined] or [null]; its wording is the engine's. *)
Definition type_error (what k : string) : string :=
  "Cannot " ++ what ++ " properties of undefined or null (" ++ k ++ ")".

Definition string_at (s : string) (n : nat) : slot :=
  match String.get n s with
  | Some c => Val (VStr (String c EmptyString))
  | None => Undefined
  end.

(** [v[k]].  Own properties and the members of [Object.prototype] are
    modelled; the methods that arrays and strings inherit from their own
    prototypes are not. *)
Definition js_get (v : value) (k : string) : res slot :=
  let deflt := if inherited k then Builtin else Undefined in
  match v with
  | VNull => Throw (type_error "read" k)
  | VObj o =>
      Ret (match own_get o k with Some x => Val x | None => deflt end)
  | VArr l =>
      Ret (match array_index k with
           | Some n => match nth_error l (N.to_nat n) with
                       | Some x => Val x
                       | None => Undefined
                       end
           | None => if k =? "length"
                     then Val (VNum (Z.of_nat (List.length l)))
                     else deflt
           end)
  | VStr s =>
      Ret (match array_index k with
           | Some n => string_at s (N.to_nat n)
           | None => if k =? "length"
                     then Val (VNum (Z.of_nat (String.length s)))
                     else deflt
           end)
  | VBool _ => Ret deflt
  | VNum _ => Ret deflt
  end.

(** [x[k]] where [x] is itself the result of a read. *)
Definition slot_get (x : slot) (k : string) : res slot :=
  match x with
  | Undefined => Throw (type_error "read" k)
  | Builtin => Ret (if inherited k then Builtin else Undefined)
  | Val v => js_get v k
  end.

(** [x[k] = v], giving the updated receiver.  Assigning through
    [undefined] or [null] throws; the modules are not in strict mode, so
    assigning to a property of a primitive is ignored.  An array or a
    string written through a name is left as it is: a named property of an
    array is not serialised, and (outside the modelled fragment) writing an
    array element is not represented. *)
Definition js_assign (v : value) (k : string) (x : value) : res value :=
  match v with
  | VNull => Throw (type_error "set" k)
  | VObj o => Ret (VObj (obj_set o k x))
  | _ => Ret v
  end.

(** [delete v[k]] (never throws outside strict mode). *)
Definition js_delete (v : value) (k : string) : value :=
  match v with
  | VObj o => VObj (obj_delete o k)
  | _ => v
  end.

(* ================================================================== *)
(** ** The process: console, file system, network *)

Inductive event : Type :=
| EnsureDir                                  (* fs.ensureDir(CONFIG_DIR) *)
| PathExists                                 (* fs.pathExists(CONFIG_FILE) *)
| ReadFile                                   (* fs.readFile(CONFIG_FILE) *)
| WriteFile (text : string)                  (* fs.writeFile(CONFIG_FILE, text) *)
| HttpGet (url : string) (apiKey : slot)     (* client.get(url) *)
| ConsoleLog (line : string)
| ConsoleError (line : string)
| DebugLog (message : string).               (* debug(message, data), when enabled *)

(** The state a command runs in: the configuration directory, the
    configuration file (absent, or its text), and the debug flag of
    utils/debug.js. *)
Record world : Type := World {
  config_dir : bool;
  config_file : option string;
  isDebugEnabled : bool
}.

(** A command: from a state to the events it caused (in order), the state
    it left, and how it ended. *)
Definition M (A : Type) : Type := world -> list event * world * res A.

Definition ret {A : Type} (a : A) : M A := fun w => ([], w, Ret a).

Definition bind {A B : Type} (m : M A) (k : A -> M B) : M B :=
  fun w =>
    match m w with
    | (t, w', Ret a) =>
        match k a w' with (t', w'', r) => ((t ++ t')%list, w'', r) end
    | (t, w', Throw e) => (t, w', Throw e)
    | (t, w', Exit c) => (t, w', Exit c)
    end.

Notation "x <- m ;; k" := (bind m (fun x => k))
  (at level 61, m at next level, right associativity).
Notation "m ;;; k" := (bind m (fun _ => k))
  (at level 61, right associativity).

Definition lift {A : Type} (r : res A) : M A := fun w => ([], w, r).
Definition emit (e : event) : M unit := fun w => ([e], w, Ret tt).
Definition throw {A : Type} (message : string) : M A := lift (Throw message).

(** [process.exit(code)]: the process ends there; no [catch] sees it. *)
Definition process_exit {A : Type} (code : Z) : M A := lift (Exit code).

(** [try { m } catch (error) { handler(error.message) }] *)
Definition try_catch {A : Type} (m : M A) (handler : string -> M A) : M A :=
  fun w =>
    match m w with
    | (t, w', Throw e) =>
        match handler e w' with (t', w'', r) => ((t ++ t')%list, w'', r) end
    | other => other
    end.

Definition console_log (s : string) : M unit := emit (ConsoleLog s).
Definition console_error (s : string) : M unit := emit (ConsoleError s).

(** utils/debug.js, [debug]: silent unless debug mode is enabled.  The
    dump of [data] is folded into the one event. *)
Definition debug (message : string) : M unit :=
  fun w => if isDebugEnabled w then ([DebugLog message], w, Ret tt)
           else ([], w, Ret tt).

(* ------------------------------------------------------------------ *)
(** *** The YAML library *)

Inductive yaml_result : Type :=
| YamlError (message : string)      (* yaml.parse throws *)
| YamlDoc (v : value).              (* yaml.parse returns; null for no document *)

(** The two functions of the [yaml] package the program calls, with the
    two facts about them that the store relies on: a text with no
    document parses to [null], and [parse] reads back what [stringify]
    wrote. *)
Class Yaml : Type := {
  yaml_parse : string -> yaml_result;
  yaml_stringify : value -> string;
  yaml_parse_empty : yaml_parse EmptyString = YamlDoc VNull;
  yaml_parse_stringify : forall v, yaml_parse (yaml_stringify v) = YamlDoc v
}.

(* ================================================================== *)
(** ** src/utils/config.js *)

Section Config.
Context {Y : Yaml}.

(** [{ domains: {} }] *)
Definition empty_config : value := VObj [("domains", VObj [])].

(** The state once the configuration directory is there. *)
Definition ensured (w : world) : world :=
  {| config_dir := true;
     config_file := config_file w;
     isDebugEnabled := isDebugEnabled w |}.

(** The state once the configuration file holds [text]. *)
Definition written (text : string) (w : world) : world :=
  {| config_dir := config_dir w;
     config_file := Some text;
     isDebugEnabled := isDebugEnabled w |}.

(** config.js, [ensureConfigDir] *)
Definition ensureConfigDir : M unit :=
  fun w => ([EnsureDir], ensured w, Ret tt).

(** [fs.pathExists(CONFIG_FILE)] *)
Definition pathExists : M bool :=
  fun w => ([PathExists],
            w,
            Ret (match config_file w with Some _ => true | None => false end)).

(** [fs.readFile(CONFIG_FILE, 'utf8')] *)
Definition readFile : M string :=
  fun w => match config_file w with
           | Some text => ([ReadFile], w, Ret text)
           | None => ([ReadFile], w, Throw "ENOENT: no such file or directory")
           end.

(** [fs.writeFile(CONFIG_FILE, text, 'utf8')] *)
Definition writeFile (text : string) : M unit :=
  fun w => ([WriteFile text], written text w, Ret tt).

(** [yaml.parse(fileContent)] as a computation: a syntax error is thrown. *)
Definition yaml_parse_text (text : string) : M value :=
  match yaml_parse text with
  | YamlDoc v => ret v
  | YamlError m => throw m
  end.

(** config.js, [loadConfig] (lines 20-33) *)
Definition loadConfig : M value :=
  ensureConfigDir ;;;
  r <- try_catch
         (present <- pathExists ;;
          if present
          then fileContent <- readFile ;;
               v <- yaml_parse_text fileContent ;;
               ret (Some (if truthy v then v else empty_config))
          else ret None)
         (fun message =>
            console_error ("Error loading configuration: " ++ message) ;;;
            ret None) ;;
  match r with
  | Some config => ret config
  | None => ret empty_config
  end.

(** config.js, [saveConfig] (lines 39-49) *)
Definition saveConfig (config : value) : M unit :=
  ensureConfigDir ;;;
  try_catch
    (writeFile (yaml_stringify config))
    (fun message =>
       console_error ("Error saving configuration: " ++ message) ;;;
       throw message).

(** [{ apiKey }] *)
Definition domain_record (apiKey : string) : value :=
  VObj [("apiKey", VStr apiKey)].

(** [if (!config.domains) { config.domains = {}; }] followed by the read
    of [config.domains]: the configuration after the statement, and what
    [config.domains] then refers to.  A plain object gets the own property;
    an array gets a named property, which the serialiser does not write;
    a primitive ignores the assignment. *)
Definition ensure_domains (config : value) : res (value * slot) :=
  rbind (js_get config "domains") (fun d =>
  if slot_truthy d then Ret (config, d)
  else match config with
       | VNull => Throw (type_error "set" "domains")
       | VObj o => Ret (VObj (obj_set o "domains" (VObj [])), Val (VObj []))
       | VArr _ => Ret (config, Val (VObj []))
       | _ => Ret (config, Undefined)
       end).

(** [config.domains[domain] = { apiKey }]: the write goes to the object
    that [config.domains] refers to, so a plain [config] sees it. *)
Definition set_domain (config : value) (domains : slot) (domain : string)
  (record : value) : res value :=
  match domains with
  | Undefined => Throw (type_error "set" domain)
  | Builtin => Ret config
  | Val dv =>
      rbind (js_assign dv domain record) (fun dv' =>
      match config with
      | VObj o => Ret (VObj (own_replace o "domains" dv'))
      | _ => Ret config
      end)
  end.

(** config.js, [addDomain] (lines 56-66) *)
Definition addDomain (domain apiKey : string) : M unit :=
  config <- loadConfig ;;
  cd <- lift (ensure_domains config) ;;
  config' <- lift (set_domain (fst cd) (snd cd) domain (domain_record apiKey)) ;;
  saveConfig config'.

End Config.

(* ================================================================== *)
(** ** A reference serialiser

    An instance of [Yaml] over real strings: a self-delimiting prefix
    code (lengths in unary), whose decoder is proved to invert the
    encoder.  It shows that the interface is inhabited and lets the
    commands be run on concrete states. *)

(** Two facts on the append of strings. *)
Lemma append_assoc (a b c : string) : (a ++ b) ++ c = a ++ (b ++ c).
Proof. induction a as [ | x a IHa ]; simpl; [ reflexivity | now rewrite IHa ]. Qed.

Lemma length_append (a b : string) :
  String.length (a ++ b) = String.length a + String.length b.
Proof. induction a as [ | c a IHa ]; simpl; [ reflexivity | now rewrite IHa ]. Qed.

Module RefYaml.

Fixpoint unary (n : nat) : string :=
  match n with
  | O => "0"
  | S m => String "1" (unary m)
  end.

Fixpoint enc (v : value) : string :=
  match v with
  | VNull => "n"
  | VBool true => "t"
  | VBool false => "f"
  | VNum z => "i" ++ (if (z <? 0)%Z then "-" else "+") ++ unary (Z.abs_nat z)
  | VStr s => "s" ++ unary (String.length s) ++ s
  | VArr l =>
      "a" ++ unary (List.length l)
          ++ (fix items (l : list value) : string :=
                match l with
                | [] => EmptyString
                | x :: r => enc x ++ items r
                end) l
  | VObj o =>
      "o" ++ unary (List.length o)
          ++ (fix fields (o : list (string * value)) : string :=
                match o with
                | [] => EmptyString
                | (k, x) :: r =>
                    unary (String.length k) ++ k ++ enc x ++ fields r
                end) o
  end.

Fixpoint enc_items (l : list value) : string :=
  match l with
  | [] => EmptyString
  | x :: r => enc x ++ enc_items r
  end.

Fixpoint enc_fields (o : list (string * value)) : string :=
  match o with
  | [] => EmptyString
  | (k, x) :: r => unary (String.length k) ++ k ++ enc x ++ enc_fields r
  end.

Fixpoint dec_unary (s : string) : option (nat * string) :=
  match s with
  | String "0" r => Some (O, r)
  | String "1" r =>
      match dec_unary r with
      | Some (n, r') => Some (S n, r')
      | None => None
      end
  | _ => None
  end.

Fixpoint take (n : nat) (s : string) : option (string * string) :=
  match n with
  | O => Some (EmptyString, s)
  | S m =>
      match s with
      | EmptyString => None
      | String c r =>
          match take m r with
          | Some (a, b) => Some (String c a, b)
          | None => None
          end
      end
  end.

Definition dec_string (s : string) : option (string * string) :=
  match dec_unary s with
  | Some (n, r) => take n r
  | None => None
  end.

Fixpoint dec (fuel : nat) (s : string) : option (value * string) :=
  match fuel with
  | O => None
  | S f =>
      match s with
      | String "n" r => Some (VNull, r)
      | String "t" r => Some (VBool true, r)
      | String "f" r => Some (VBool false, r)
      | String "i" (String sg r) =>
          match dec_unary r with
          | Some (n, r') =>
              if (sg =? "-")%char then Some (VNum (- Z.of_nat n), r')
              else if (sg =? "+")%char then Some (VNum (Z.of_nat n), r')
              else None
          | None => None
          end
      | String "s" r =>
          match dec_string r with
          | Some (x, r') => Some (VStr x, r')
          | None => None
          end
      | String "a" r =>
          match dec_unary r with
          | Some (n, r') =>
              match (fix items (n : nat) (s : string)
                       : option (list value * string) :=
                       match n with
                       | O => Some ([], s)
                       | S m =>
                           match dec f s with
                           | Some (x, s') =>
                               match items m s' with
                               | Some (xs, s'') => Some (x :: xs, s'')
                               | None => None
                               end
                           | None => None
                           end
                       end) n r' with
              | Some (xs, r'') => Some (VArr xs, r'')
              | None => None
              end
          | None => None
          end
      | String "o" r =>
          match dec_unary r with
          | Some (n, r') =>
              match (fix fields (n : nat) (s : string)
                       : option (list (string * value) * string) :=
                       match n with
                       | O => Some ([], s)
                       | S m =>
                           match dec_string s with
                           | Some (k, s1) =>
                               match dec f s1 with
                               | Some (x, s') =>
                                   match fields m s' with
                                   | Some (xs, s'') => Some ((k, x) :: xs, s'')
                                   | None => None
                                   end
                               | None => None
                               end
                           | None => None
                           end
                       end) n r' with
              | Some (xs, r'') => Some (VObj xs, r'')
              | None => None
              end
          | None => None
          end
      | _ => None
      end
  end.

Fixpoint depth (v : value) : nat :=
  match v with
  | VArr l => S (fold_right (fun x d => Nat.max (depth x) d) O l)
  | VObj o => S (fold_right (fun kx d => Nat.max (depth (snd kx)) d) O o)
  | _ => 1
  end.

Definition parse (s : string) : yaml_result :=
  match s with
  | EmptyString => YamlDoc VNull
  | _ =>
      match dec (String.length s) s with
      | Some (v, EmptyString) => YamlDoc v
      | _ => YamlError "unexpected input"
      end
  end.

(** Induction on values through the lists nested in them. *)
Lemma value_nested_ind (P : value -> Prop) :
  P VNull ->
  (forall b, P (VBool b)) ->
  (forall n, P (VNum n)) ->
  (forall s, P (VStr s)) ->
  (forall l, Forall P l -> P (VArr l)) ->
  (forall o, Forall (fun kx => P (snd kx)) o -> P (VObj o)) ->
  forall v, P v.
Proof.
  intros Hnull Hbool Hnum Hstr Harr Hobj.
  fix IH 1.
  intros [ | b | n | s | l | o ].
  - exact Hnull.
  - apply Hbool.
  - apply Hnum.
  - apply Hstr.
  - apply Harr. induction l as [ | x r IHr ]; constructor; [ apply IH | exact IHr ].
  - apply Hobj. induction o as [ | [k x] r IHr ]; constructor; [ apply IH | exact IHr ].
Qed.

Lemma enc_arr (l : list value) :
  enc (VArr l) = "a" ++ unary (List.length l) ++ enc_items l.
Proof.
  simpl. f_equal.
Qed.

Lemma enc_obj (o : list (string * value)) :
  enc (VObj o) = "o" ++ unary (List.length o) ++ enc_fields o.
Proof.
  simpl. f_equal.
Qed.

Lemma dec_unary_unary (n : nat) (r : string) :
  dec_unary (unary n ++ r) = Some (n, r).
Proof. induction n as [ | n IHn ]; simpl; [ reflexivity | now rewrite IHn ]. Qed.

Lemma take_append (s r : string) : take (String.length s) (s ++ r) = Some (s, r).
Proof. induction s as [ | c s IHs ]; simpl; [ reflexivity | now rewrite IHs ]. Qed.

Lemma dec_string_enc (k r : string) :
  dec_string (unary (String.length k) ++ k ++ r) = Some (k, r).
Proof. unfold dec_string. rewrite dec_unary_unary. apply take_append. Qed.

Lemma dec_enc (v : value) :
  forall fuel r, depth v <= fuel -> dec fuel (enc v ++ r) = Some (v, r).
Proof.
  induction v as [ | b | n | s | l IHl | o IHo ] using value_nested_ind;
    intros [ | f ] r Hf; simpl in Hf; try lia.
  - reflexivity.
  - destruct b; reflexivity.
  - cbn [enc]. rewrite !append_assoc. cbn [append dec].
    destruct (n <? 0)%Z eqn:Hn; cbn [append]; rewrite dec_unary_unary; cbn.
    + f_equal. f_equal. f_equal. apply Z.ltb_lt in Hn. lia.
    + f_equal. f_equal. f_equal. apply Z.ltb_ge in Hn. lia.
  - cbn [enc]. rewrite !append_assoc. cbn [append dec].
    now rewrite dec_string_enc.
  - rewrite enc_arr, !append_assoc. cbn [append dec].
    rewrite dec_unary_unary.
    apply le_S_n in Hf.
    assert (H : forall r0,
      (fix items (n : nat) (s : string) : option (list value * string) :=
         match n with
         | O => Some ([], s)
         | S m =>
             match dec f s with
             | Some (x, s') =>
                 match items m s' with
                 | Some (xs, s'') => Some (x :: xs, s'')
                 | None => None
                 end
             | None => None
             end
         end) (List.length l) (enc_items l ++ r0) = Some (l, r0)).
    { induction IHl as [ | x l Hx Hl IH ]; intros r0.
      - reflexivity.
      - simpl in Hf. cbn [List.length enc_items]. rewrite append_assoc.
        rewrite Hx by lia. rewrite IH by lia. reflexivity. }
    now rewrite H.
  - rewrite enc_obj, !append_assoc. cbn [append dec].
    rewrite dec_unary_unary.
    apply le_S_n in Hf.
    assert (H : forall r0,
      (fix fields (n : nat) (s : string)
         : option (list (string * value) * string) :=
         match n with
         | O => Some ([], s)
         | S m =>
             match dec_string s with
             | Some (k, s1) =>
                 match dec f s1 with
                 | Some (x, s') =>
                     match fields m s' with
                     | Some (xs, s'') => Some ((k, x) :: xs, s'')
                     | None => None
                     end
                 | None => None
                 end
             | None => None
             end
         end) (List.length o) (enc_fields o ++ r0) = Some (o, r0)).
    { induction IHo as [ | [k x] o Hx Ho IH ]; intros r0.
      - reflexivity.
      - simpl in Hf, Hx. cbn [List.length enc_fields]. rewrite !append_assoc.
        rewrite dec_string_enc. rewrite Hx by lia. rewrite IH by lia.
        reflexivity. }
    now rewrite H.
Qed.

Lemma depth_le_length (v : value) : depth v <= String.length (enc v).
Proof.
  induction v as [ | b | n | s | l IHl | o IHo ] using value_nested_ind.
  - simpl. lia.
  - destruct b; simpl; lia.
  - cbn [enc depth]. rewrite !length_append. simpl. lia.
  - cbn [enc depth]. rewrite !length_append. simpl. lia.
  - rewrite enc_arr. cbn [depth]. rewrite !length_append. cbn [String.length].
    enough (fold_right (fun x d => Nat.max (depth x) d) 0 l
            <= String.length (enc_items l)) by lia.
    induction IHl as [ | x l Hx Hl IH ]; simpl; [ lia | ].
    rewrite length_append. lia.
  - rewrite enc_obj. cbn [depth]. rewrite !length_append. cbn [String.length].
    enough (fold_right (fun kx d => Nat.max (depth (snd kx)) d) 0 o
            <= String.length (enc_fields o)) by lia.
    induction IHo as [ | [k x] o Hx Ho IH ]; simpl; [ lia | ].
    rewrite !length_append. simpl in Hx. lia.
Qed.

Lemma enc_nonempty (v : value) : exists c r, enc v = String c r.
Proof.
  destruct v as [ | [ | ] | n | s | l | o ]; simpl; eauto.
Qed.

Lemma parse_enc (v : value) : parse (enc v) = YamlDoc v.
Proof.
  unfold parse. destruct (enc_nonempty v) as (c & r & E).
  pose proof (dec_enc v (String.length (enc v)) EmptyString (depth_le_length v)) as H.
  assert (A : enc v ++ EmptyString = enc v).
  { generalize (enc v). intros s. induction s as [ | x s IHs ]; simpl;
      [ reflexivity | now rewrite IHs ]. }
  rewrite A in H. rewrite E in *. now rewrite H.
Qed.

End RefYaml.

#[local] Instance ref_yaml : Yaml := {|
  yaml_parse := RefYaml.parse;
  yaml_stringify := RefYaml.enc;
  yaml_parse_empty := eq_refl;
  yaml_parse_stringify := RefYaml.parse_enc
|}.

(* ================================================================== *)
(** ** src/commands/delete.js *)

Section Delete.
Context {Y : Yaml}.

(** [delete config.domains[domain]]: the property is removed from the
    object that [config.domains] refers to. *)
Definition delete_domain (config : value) (domains : slot) (domain : string)
  : value :=
  match config, domains with
  | VObj o, Val dv => VObj (own_replace o "domains" (js_delete dv domain))
  | _, _ => config
  end.

(** delete.js, [deleteDomain] (lines 9-42).  [options.domain] is [None]
    when the flag was not given. *)
Definition deleteDomain (option_domain : option string) : M unit :=
  match option_domain with
  | None =>
      console_error "The --domain option is required" ;;; process_exit 1
  | Some domain =>
      if domain =? ""
      then console_error "The --domain option is required" ;;; process_exit 1
      else
        try_catch
          (debug ("Attempting to delete domain '" ++ domain
                    ++ "' from configuration") ;;;
           config <- loadConfig ;;
           domains <- lift (js_get config "domains") ;;
           entry <- (if slot_truthy domains
                     then lift (slot_get domains domain)
                     else ret Undefined) ;;
           if negb (slot_truthy domains) || negb (slot_truthy entry)
           then console_error ("Domain '" ++ domain
                                 ++ "' not found in configuration") ;;;
                process_exit 1
           else
             debug ("Domain '" ++ domain ++ "' found in configuration") ;;;
             saveConfig (delete_domain config domains domain) ;;;
             console_log ("Domain '" ++ domain
                            ++ "' has been removed from configuration"))
          (fun message =>
             console_error ("Error deleting domain: " ++ message) ;;;
             process_exit 1)
  end.

End Delete.

(* ================================================================== *)
(** ** src/commands/display.js (listed after get.js) *)

Section Display.
Context {Y : Yaml}.

Fixpoint indexed (i : N) (l : list value) : list (string * value) :=
  match l with
  | [] => []
  | x :: r => (N_to_string i, x) :: indexed (N.succ i) r
  end.

Fixpoint chars (s : string) : list value :=
  match s with
  | EmptyString => []
  | String c r => VStr (String c EmptyString) :: chars r
  end.

(** [Object.entries(v)] *)
Definition js_entries (v : value) : list (string * value) :=
  match v with
  | VObj o => o
  | VArr l => indexed 0 l
  | VStr s => indexed 0 (chars s)
  | _ => []
  end.

Definition slot_entries (x : slot) : list (string * value) :=
  match x with
  | Val v => js_entries v
  | _ => []
  end.

Fixpoint spaces (n : nat) : string :=
  match n with
  | O => EmptyString
  | S m => String " " (spaces m)
  end.

(** [s.padEnd(n)] *)
Definition padEnd (s : string) (n : nat) : string :=
  s ++ spaces (n - String.length s).

(** The masking expression of display.js (lines 284-286 of the listing
    that follows get.js) on a string:
    [apiKey.length > 8
       ? `${apiKey.substring(0, 4)}...${apiKey.substring(apiKey.length - 4)}`
       : '********'] *)
Definition maskedKey (apiKey : string) : string :=
  if (8 <? String.length apiKey)%nat
  then substring 0 4 apiKey ++ "..."
         ++ substring (String.length apiKey - 4) 4 apiKey
  else "********".

(** [x > 8] for what [apiKey.length] evaluates to.  A numeral string is
    compared by its value; other strings that denote numbers are outside
    the modelled fragment. *)
Definition gt8 (x : slot) : bool :=
  match x with
  | Val (VNum n) => (8 <? n)%Z
  | Val (VStr s) =>
      match s with
      | EmptyString => false
      | _ => match digits_value s 0 with
             | Some n => (8 <? n)%N
             | None => false
             end
      end
  | _ => false
  end.

(** The mask of one entry: [details.apiKey || ''] and the masking
    expression.  Anything but a string with a length above 8 has no
    [substring] method. *)
Definition mask_entry (details : value) : res string :=
  rbind (js_get details "apiKey") (fun a =>
  match a with
  | Val (VStr s) => Ret (maskedKey s)
  | Val v =>
      if truthy v
      then rbind (js_get v "length") (fun len =>
           if gt8 len then Throw "apiKey.substring is not a function"
           else Ret "********")
      else Ret "********"
  | _ => Ret "********"
  end).

Fixpoint display_rows (entries : list (string * value)) : M unit :=
  match entries with
  | [] => ret tt
  | (domain, details) :: r =>
      m <- lift (mask_entry details) ;;
      console_log (padEnd domain 30 ++ " " ++ m) ;;;
      display_rows r
  end.

Definition rule : string :=
  "--------------------------------------------------------".

(** A line feed. *)
Definition LF : string := String (ascii_of_nat 10) EmptyString.

(** display.js, [display] (lines 259-301 of that listing) *)
Definition display : M unit :=
  try_catch
    (debug "Loading configuration for display" ;;;
     config <- loadConfig ;;
     domains <- lift (js_get config "domains") ;;
     if negb (slot_truthy domains)
        || (List.length (slot_entries domains) =? 0)%nat
     then console_log "No domains are currently configured"
     else
       debug "Domains found in configuration" ;;;
       console_log (LF ++ "Configured Domains:" ++ LF) ;;;
       console_log rule ;;;
       console_log "Domain                          API Key" ;;;
       console_log rule ;;;
       display_rows (slot_entries domains) ;;;
       console_log rule ;;;
       console_log ("Total domains: "
                      ++ N_to_string (N.of_nat (List.length (slot_entries domains)))))
    (fun message =>
       console_error ("Error displaying configuration: " ++ message) ;;;
       process_exit 1).

End Display.

(* ================================================================== *)
(** ** Dates

    Time values are milliseconds since 1970-01-01T00:00:00Z in the
    proleptic Gregorian calendar; an invalid date ([NaN]) is [None]. *)

Module JsDate.
Local Open Scope Z_scope.

Definition msPerDay : Z := 86400000.

(** Calendar arithmetic by eras of 400 years (146097 days), each
    starting on 1 March of a year divisible by 400.  An era is four
    centuries of 36524 days and one more day; a century is 25 groups of
    four years (1461 days), the last group one day short; a year starts
    with March, so that the leap day comes last. *)

(** The day of the era of day [d] of month [m] in year [yoe] of the era
    (January and February count with the year before). *)
Definition doe_of_civil (yoe m d : Z) : Z :=
  let mp := if m <=? 2 then m + 9 else m - 3 in
  let doy := (153 * mp + 2) / 5 + d - 1 in
  yoe * 365 + yoe / 4 - yoe / 100 + doy.

(** Number of days from 1970-01-01 to the civil date [y]-[m]-[d]. *)
Definition days_from_civil (y m d : Z) : Z :=
  let y' := if m <=? 2 then y - 1 else y in
  let era := y' / 400 in
  era * 146097 + doe_of_civil (y' - era * 400) m d - 719468.

(** Where a day of the era falls: its century, its group of four years
    in the century, its year in the group, and its month counted from
    March. *)
Definition civil_parts (doe : Z) : Z * Z * Z * Z :=
  let c := Z.min (doe / 36524) 3 in
  let r1 := doe - c * 36524 in
  let f := r1 / 1461 in
  let r2 := r1 - f * 1461 in
  let y1 := Z.min (r2 / 365) 3 in
  let doy := r2 - y1 * 365 in
  (c, f, y1, (5 * doy + 2) / 153).

(** The year of the era, the month and the day of a day of the era. *)
Definition civil_of_doe (doe : Z) : Z * Z * Z :=
  match civil_parts doe with
  | (c, f, y1, mp) =>
      let doy := doe - c * 36524 - f * 1461 - y1 * 365 in
      let d := doy - (153 * mp + 2) / 5 + 1 in
      let m := if mp <? 10 then mp + 3 else mp - 9 in
      (c * 100 + f * 4 + y1, m, d)
  end.

(** The civil date of a day number. *)
Definition civil_from_days (n : Z) : Z * Z * Z :=
  let z := n + 719468 in
  let era := z / 146097 in
  match civil_of_doe (z - era * 146097) with
  | (yoe, m, d) =>
      (if m <=? 2 then yoe + era * 400 + 1 else yoe + era * 400, m, d)
  end.

Definition leap (y : Z) : bool :=
  ((y mod 4 =? 0) && negb (y mod 100 =? 0)) || (y mod 400 =? 0).

Definition days_in_month (y m : Z) : Z :=
  if m =? 2 then (if leap y then 29 else 28)
  else if (m =? 4) || (m =? 6) || (m =? 9) || (m =? 11) then 30
  else 31.

(** The fields of a date and time of day, all in range. *)
Definition valid_fields (y mo d h mi s ms : Z) : bool :=
  (0 <=? y) && (y <=? 9999) && (1 <=? mo) && (mo <=? 12)
  && (1 <=? d) && (d <=? days_in_month y mo)
  && (0 <=? h) && (h <=? 23) && (0 <=? mi) && (mi <=? 59)
  && (0 <=? s) && (s <=? 59) && (0 <=? ms) && (ms <=? 999).

Definition time_value (y mo d h mi s ms : Z) : Z :=
  days_from_civil y mo d * msPerDay
  + h * 3600000 + mi * 60000 + s * 1000 + ms.

(** [TimeClip] *)
Definition time_clip (t : Z) : option Z :=
  if (-8640000000000000 <=? t) && (t <=? 8640000000000000)
  then Some t else None.

End JsDate.

(** The decimal numeral of [n] on exactly [width] digits. *)
Fixpoint pad_digits (width : nat) (n : N) (acc : string) : string :=
  match width with
  | O => acc
  | S w => pad_digits w (n / 10)%N (String (digit_char (n mod 10)) acc)
  end.

Definition pad (width : nat) (n : Z) : string :=
  pad_digits width (Z.to_N n) EmptyString.

(** [date.toISOString()] for the time value [t]. *)
Definition toISOString (t : Z) : string :=
  let day := (t / JsDate.msPerDay)%Z in
  let r := (t mod JsDate.msPerDay)%Z in
  match JsDate.civil_from_days day with
  | (y, mo, d) =>
      (if (0 <=? y)%Z && (y <=? 9999)%Z then pad 4 y
       else (if (y <? 0)%Z then "-" else "+") ++ pad 6 (Z.abs y))
      ++ "-" ++ pad 2 mo ++ "-" ++ pad 2 d
      ++ "T" ++ pad 2 (r / 3600000)%Z
      ++ ":" ++ pad 2 ((r / 60000) mod 60)%Z
      ++ ":" ++ pad 2 ((r / 1000) mod 60)%Z
      ++ "." ++ pad 3 (r mod 1000)%Z ++ "Z"
  end.

(* ------------------------------------------------------------------ *)
(** *** Reading the date-time format *)

Fixpoint read_digits (n : nat) (s : string) (acc : N) : option (Z * string) :=
  match n with
  | O => Some (Z.of_N acc, s)
  | S m =>
      match s with
      | EmptyString => None
      | String c r =>
          match digit_of c with
          | Some d => read_digits m r (10 * acc + d)%N
          | None => None
          end
      end
  end.

Definition expect (c : ascii) (s : string) : option string :=
  match s with
  | String c' r => if (c' =? c)%char then Some r else None
  | EmptyString => None
  end.

Definition obind {A B : Type} (x : option A) (k : A -> option B) : option B :=
  match x with Some a => k a | None => None end.

(** The seconds and milliseconds that may follow [HH:mm], up to the final
    [Z]: nothing, [:ss], or [:ss.sss]. *)
Definition read_seconds (s : string) : option (Z * Z) :=
  match s with
  | "Z" => Some (0, 0)%Z
  | String ":" r =>
      obind (read_digits 2 r 0) (fun '(sec, r1) =>
      match r1 with
      | "Z" => Some (sec, 0%Z)
      | String "." r2 =>
          obind (read_digits 3 r2 0) (fun '(ms, r3) =>
          match r3 with
          | "Z" => Some (sec, ms)
          | _ => None
          end)
      | _ => None
      end)
  | _ => None
  end.

(** The date-time strings [YYYY-MM-DDTHH:mm(:ss(.sss))Z] with every field
    in range: the time value they denote. *)
Definition iso_utc (s : string) : option Z :=
  obind (read_digits 4 s 0) (fun '(y, s1) =>
  obind (expect "-" s1) (fun s2 =>
  obind (read_digits 2 s2 0) (fun '(mo, s3) =>
  obind (expect "-" s3) (fun s4 =>
  obind (read_digits 2 s4 0) (fun '(d, s5) =>
  obind (expect "T" s5) (fun s6 =>
  obind (read_digits 2 s6 0) (fun '(h, s7) =>
  obind (expect ":" s7) (fun s8 =>
  obind (read_digits 2 s8 0) (fun '(mi, s9) =>
  obind (read_seconds s9) (fun '(sec, ms) =>
  if JsDate.valid_fields y mo d h mi sec ms
  then Some (JsDate.time_value y mo d h mi sec ms)
  else None)))))))))).

Fixpoint has_digit (s : string) : bool :=
  match s with
  | EmptyString => false
  | String c r => is_digit c || has_digit r
  end.

(** What the engine's date parser does outside the strings [iso_utc]
    reads (other ISO forms, local times, day or hour overflow, the
    legacy formats).  A date needs at least one number, so a string
    with no digit is never a date. *)
Class DateHost : Type := {
  host_date_parse : string -> option Z;
  host_date_parse_no_digit :
    forall s, has_digit s = false -> host_date_parse s = None
}.

(** An engine that knows only the [iso_utc] strings. *)
#[local] Instance strict_host : DateHost := {|
  host_date_parse := fun _ => None;
  host_date_parse_no_digit := fun _ _ => eq_refl
|}.

(* ================================================================== *)
(** ** src/commands/call.js: the timestamp normaliser and the reorganiser *)

Section Normalise.
Context {H : DateHost}.

(** [new Date(s).getTime()] for a string. *)
Definition Date_parse (s : string) : option Z :=
  match iso_utc s with
  | Some t => Some t
  | None => host_date_parse s
  end.

Definition Z_to_string (n : Z) : string :=
  if (n <? 0)%Z then "-" ++ N_to_string (Z.to_N (- n))
  else N_to_string (Z.to_N n).

Fixpoint join (sep : string) (l : list string) : string :=
  match l with
  | [] => EmptyString
  | [x] => x
  | x :: r => x ++ sep ++ join sep r
  end.

(** [String(v)] *)
Fixpoint js_to_string (v : value) : string :=
  match v with
  | VNull => "null"
  | VBool true => "true"
  | VBool false => "false"
  | VNum n => Z_to_string n
  | VStr s => s
  | VArr l =>
      join "," (map (fun x => match x with
                              | VNull => EmptyString
                              | _ => js_to_string x
                              end) l)
  | VObj _ => "[object Object]"
  end.

(** [new Date(x).getTime()] *)
Definition date_of (x : slot) : option Z :=
  match x with
  | Undefined => None
  | Builtin => None
  | Val VNull => Some 0%Z
  | Val (VBool b) => Some (if b then 1 else 0)%Z
  | Val (VNum n) => JsDate.time_clip n
  | Val (VStr s) => Date_parse s
  | Val v => Date_parse (js_to_string v)
  end.

(* ------------------------------------------------------------------ *)
(** *** The three patterns of truncated timestamps *)

Inductive pat : Type :=
| D                 (* \d *)
| L (c : ascii).    (* a literal character *)

(** [/^pattern$/.test(s)] *)
Fixpoint matches (p : list pat) (s : string) : bool :=
  match p, s with
  | [], EmptyString => true
  | D :: p', String c r => is_digit c && matches p' r
  | L c' :: p', String c r => (c =? c')%char && matches p' r
  | _, _ => false
  end.

(** [\d{4}-\d{2}-\d{2}T\d{2}] *)
Definition hour_pattern : list pat :=
  [D; D; D; D; L "-"; D; D; L "-"; D; D; L "T"; D; D].

(** [\d{4}-\d{2}-\d{2}T\d{2}:\d{2}] *)
Definition minute_pattern : list pat := hour_pattern ++ [L ":"; D; D].

(** [\d{4}-\d{2}-\d{2}T\d{2}:\d{2}:\d{2}] *)
Definition second_pattern : list pat := minute_pattern ++ [L ":"; D; D].

(** call.js lines 35-44: the missing parts are appended. *)
Definition dateString (value : string) : string :=
  if matches hour_pattern value then value ++ ":00:00.000Z"
  else if matches minute_pattern value then value ++ ":00.000Z"
  else if matches second_pattern value then value ++ ".000Z"
  else value.

(** call.js lines 33-52: the body of the [try] for a string [value]. *)
Definition normalizeTimestamp (value : string) : string :=
  match Date_parse (dateString value) with
  | Some t => toISOString t
  | None => value
  end.

(** call.js lines 29-55: the replacer passed to [JSON.stringify]. *)
Definition replacer (key : string) (v : value) : value :=
  match v with
  | VStr s =>
      if (key =? "timestamp") || (key =? "time")
      then VStr (normalizeTimestamp s)
      else v
  | _ => v
  end.

(** [JSON.parse(JSON.stringify(v, replacer))] for the value held under
    [key]: the replacer sees every property, keyed by its name, and every
    array element, keyed by its index.  It returns arrays and objects as
    they are, so they are traversed directly. *)
Fixpoint clone (key : string) (v : value) : value :=
  match v with
  | VArr l =>
      VArr ((fix items (i : N) (l : list value) : list value :=
               match l with
               | [] => []
               | x :: r => clone (N_to_string i) x :: items (N.succ i) r
               end) 0%N l)
  | VObj o =>
      VObj ((fix fields (o : list (string * value)) : list (string * value) :=
               match o with
               | [] => []
               | (k, x) :: r => (k, clone k x) :: fields r
               end) o)
  | _ => replacer key v
  end.

(* ------------------------------------------------------------------ *)
(** *** Sorting *)

(** [array.sort(compare)].  The language fixes the outcome for a
    consistent comparator: the stable arrangement into ascending order.
    The model is the insertion sort that produces it; a comparison that
    yields [NaN] counts as 0, and a comparator that throws ends the
    sort. *)
Section Sort.
Variable compare : value -> value -> res (option Z).

Fixpoint sort_insert (x : value) (sorted : list value) : res (list value) :=
  match sorted with
  | [] => Ret [x]
  | y :: r =>
      rbind (compare x y) (fun c =>
      match c with
      | Some z =>
          if (0 <? z)%Z
          then rbind (sort_insert x r) (fun r' => Ret (y :: r'))
          else Ret (x :: sorted)
      | None => Ret (x :: sorted)
      end)
  end.

Fixpoint js_sort (l : list value) : res (list value) :=
  match l with
  | [] => Ret []
  | x :: r => rbind (js_sort r) (sort_insert x)
  end.

End Sort.

(** [a.timestamp || 0] *)
Definition event_time (a : value) : res slot :=
  rbind (js_get a "timestamp") (fun t =>
  Ret (if slot_truthy t then t else Val (VNum 0))).

(** [a.timestamp || a.time || 0] *)
Definition log_time (a : value) : res slot :=
  rbind (js_get a "timestamp") (fun t =>
  if slot_truthy t then Ret t
  else rbind (js_get a "time") (fun t' =>
       Ret (if slot_truthy t' then t' else Val (VNum 0)))).

(** [new Date(x) - new Date(y)] *)
Definition date_diff (x y : slot) : option Z :=
  match date_of x, date_of y with
  | Some a, Some b => Some (a - b)%Z
  | _, _ => None
  end.

(** call.js lines 81-83 *)
Definition compare_events (a b : value) : res (option Z) :=
  rbind (event_time a) (fun ta =>
  rbind (event_time b) (fun tb =>
  Ret (date_diff ta tb))).

(** call.js lines 88-92 *)
Definition compare_log (a b : value) : res (option Z) :=
  rbind (log_time a) (fun aTime =>
  rbind (log_time b) (fun bTime =>
  Ret (date_diff aTime bTime))).

(* ------------------------------------------------------------------ *)
(** *** The reorganiser (call.js lines 57-94) *)

(** call.js lines 66-67: an array, or an object with properties. *)
Definition is_complex (v : value) : bool :=
  match v with
  | VArr _ => true
  | VObj (_ :: _) => true
  | _ => false
  end.

(** First pass (lines 62-73): simple values go into [reorganized], the
    keys of the others are collected. *)
Fixpoint first_pass (entries : list (string * value))
  (reorganized : object) (complexKeys : list string)
  : object * list string :=
  match entries with
  | [] => (reorganized, complexKeys)
  | (key, v) :: r =>
      if is_complex v
      then first_pass r reorganized (complexKeys ++ [key])%list
      else first_pass r (obj_set reorganized key v) complexKeys
  end.

(** One step of the second pass (lines 77-93). *)
Definition place_complex (source : object) (reorganized : object)
  (key : string) : res object :=
  match own_get source key with
  | None => Ret reorganized
  | Some v =>
      let reorganized' := obj_set reorganized key v in
      match v with
      | VArr l =>
          if key =? "events"
          then rbind (js_sort compare_events l) (fun l' =>
               Ret (own_replace reorganized' key (VArr l')))
          else if key =? "log"
          then rbind (js_sort compare_log l) (fun l' =>
               Ret (own_replace reorganized' key (VArr l')))
          else Ret reorganized'
      | _ => Ret reorganized'
      end
  end.

(** Second pass (lines 76-94). *)
Fixpoint second_pass (source : object) (complexKeys : list string)
  (reorganized : object) : res object :=
  match complexKeys with
  | [] => Ret reorganized
  | key :: r =>
      rbind (place_complex source reorganized key) (second_pass source r)
  end.

(** Lines 57-94 on the cloned document. *)
Definition reorganize (sessionForYaml : value) : res object :=
  let source := js_entries sessionForYaml in
  match first_pass source [] [] with
  | (reorganized, complexKeys) => second_pass source complexKeys reorganized
  end.

End Normalise.

(* ================================================================== *)
(** ** The renderer (call.js lines 96-153, get.js lines 62-127) *)

(** The [chalk] styles the program uses.  A style applied to a one-line
    text puts its opening code before it and its closing code after it
    (both empty when colours are off); the title has line feeds in it, and
    what [chalk.bold.blue] does with them is left to the library. *)
Class Chalk : Type := {
  bold_blue : string -> string;
  cyan_codes : string * string;
  yellow_codes : string * string;
  green_codes : string * string
}.

(** Colours off: every style returns its text. *)
#[local] Instance plain_chalk : Chalk := {|
  bold_blue := fun s => s;
  cyan_codes := (EmptyString, EmptyString);
  yellow_codes := (EmptyString, EmptyString);
  green_codes := (EmptyString, EmptyString)
|}.

Section Render.
Context {Y : Yaml} {C : Chalk} {H : DateHost}.

Definition paint (codes : string * string) (s : string) : string :=
  fst codes ++ s ++ snd codes.

Definition cyan := paint cyan_codes.
Definition yellow := paint yellow_codes.
Definition green := paint green_codes.

(** White space as [trim] sees it, among the characters of a [string]. *)
Definition is_space (c : ascii) : bool :=
  let n := nat_of_ascii c in
  ((9 <=? n) && (n <=? 13) || (n =? 32) || (n =? 160))%nat.

Fixpoint trim_start (s : string) : string :=
  match s with
  | String c r => if is_space c then trim_start r else s
  | EmptyString => EmptyString
  end.

(** The trailing white space of [s] removed. *)
Fixpoint trim_end (s : string) : string :=
  match s with
  | EmptyString => EmptyString
  | String c r =>
      match trim_end r with
      | EmptyString => if is_space c then EmptyString else String c EmptyString
      | r' => String c r'
      end
  end.

(** [s.trim()] *)
Definition trim (s : string) : string := trim_end (trim_start s).

(** The white space [trim] removes in front of [s]. *)
Fixpoint leading (s : string) : string :=
  match s with
  | String c r => if is_space c then String c (leading r) else EmptyString
  | EmptyString => EmptyString
  end.

(** The white space [trim] removes at the end of [s]. *)
Definition trailing (s : string) : string :=
  let body := trim_start s in
  substring (String.length (trim_end body))
            (String.length body - String.length (trim_end body)) body.

(** [value.replace(re, style('$1'))] when [re] matches exactly the
    trimmed text: [re] cannot match inside the leading white space, and
    from the first character of the trimmed text its longest match is the
    whole of it. *)
Definition paint_trimmed (codes : string * string) (value : string) : string :=
  leading value ++ paint codes (trim value) ++ trailing value.

Fixpoint all_digits (s : string) : bool :=
  match s with
  | EmptyString => true
  | String c r => is_digit c && all_digits r
  end.

(** [s] is [\d+] followed by [rest] being empty or [\.\d+]. *)
Fixpoint digits_then_fraction (s : string) (seen : bool) : bool :=
  match s with
  | EmptyString => seen
  | String c r =>
      if is_digit c then digits_then_fraction r true
      else (c =? ".")%char && seen
           && match r with
              | EmptyString => false
              | _ => all_digits r
              end
  end.

(** [/^-?\d+(\.\d+)?$/] *)
Definition is_number (s : string) : bool :=
  match s with
  | String "-" r => digits_then_fraction r false
  | _ => digits_then_fraction s false
  end.

(** [\d{4}-\d{2}-\d{2}T] at the head of [s]: what follows it. *)
Fixpoint after_prefix (p : list pat) (s : string) : option string :=
  match p with
  | [] => Some s
  | D :: p' =>
      match s with
      | String c r => if is_digit c then after_prefix p' r else None
      | EmptyString => None
      end
  | L c' :: p' =>
      match s with
      | String c r => if (c =? c')%char then after_prefix p' r else None
      | EmptyString => None
      end
  end.

Definition date_head : list pat :=
  [D; D; D; D; L "-"; D; D; L "-"; D; D; L "T"].

(** [[\d:.Z+-]] *)
Definition date_tail_char (c : ascii) : bool :=
  is_digit c || (c =? ":")%char || (c =? ".")%char || (c =? "Z")%char
  || (c =? "+")%char || (c =? "-")%char.

Fixpoint span (f : ascii -> bool) (s : string) : string * string :=
  match s with
  | String c r =>
      if f c then (let '(a, b) := span f r in (String c a, b))
      else (EmptyString, s)
  | EmptyString => (EmptyString, EmptyString)
  end.

(** [/\d{4}-\d{2}-\d{2}T/] matches somewhere in [s]. *)
Fixpoint has_date_head (s : string) : bool :=
  match after_prefix date_head s with
  | Some _ => true
  | None =>
      match s with
      | String _ r => has_date_head r
      | EmptyString => false
      end
  end.

(** [value.replace(/(\d{4}-\d{2}-\d{2}T[\d:.Z+-]+)/, style('$1'))] *)
Fixpoint paint_date (codes : string * string) (s : string) : string :=
  let skip := match s with
              | String c r => String c (paint_date codes r)
              | EmptyString => EmptyString
              end in
  match after_prefix date_head s with
  | Some rest =>
      match span date_tail_char rest with
      | (EmptyString, _) => skip
      | (tail, rest') =>
          paint codes (substring 0 11 s ++ tail) ++ rest'
      end
  | None => skip
  end.

Definition DQ : ascii := ascii_of_nat 34.
Definition SQ : ascii := ascii_of_nat 39.
Definition CR : ascii := ascii_of_nat 13.

Fixpoint no_line_break (s : string) : bool :=
  match s with
  | EmptyString => true
  | String c r =>
      negb (c =? CR)%char && negb (c =? ascii_of_nat 10)%char
      && no_line_break r
  end.

Definition last_char (s : string) : option ascii :=
  String.get (String.length s - 1) s.

(** [/^q.*q$/] for the quote character [q]. *)
Definition quoted_by (q : ascii) (s : string) : bool :=
  match s with
  | String c r =>
      (c =? q)%char
      && match last_char r with
         | Some c' => (c' =? q)%char
         | None => false
         end
      && no_line_break r
  | EmptyString => false
  end.

(** call.js, [processValue] (lines 126-153).  When the trimmed text is a
    quoted string, the first quote in [value] is its first character,
    and the longest match of the quote pattern from there (a quote, any
    characters, the same quote again) is the whole of it. *)
Definition processValue (value : string) : string :=
  let t := trim value in
  if (t =? "") || (t =? "null") then value
  else if is_number t then paint_trimmed yellow_codes value
  else if (t =? "true") || (t =? "false") then paint_trimmed yellow_codes value
  else if has_date_head t then paint_date green_codes value
  else if quoted_by DQ t || quoted_by SQ t then paint_trimmed green_codes value
  else value.

(** The text before the first [c] and the text after it. *)
Fixpoint cut_at (c : ascii) (s : string) : option (string * string) :=
  match s with
  | EmptyString => None
  | String c' r =>
      if (c' =? c)%char then Some (EmptyString, r)
      else match cut_at c r with
           | Some (a, b) => Some (String c' a, b)
           | None => None
           end
  end.

(** The function mapped over the lines (call.js lines 100-116). *)
Definition colorLine (line : string) : string :=
  match cut_at ":" line with
  | Some (key, value) => cyan (key ++ ":") ++ processValue value
  | None =>
      match trim line with
      | String "-" _ =>
          match cut_at "-" line with
          | Some (a, b) => a ++ yellow "-" ++ b
          | None => line
          end
      | _ => line
      end
  end.

(** [s.split('\n')] *)
Fixpoint split_lines (s : string) : list string :=
  match s with
  | EmptyString => [EmptyString]
  | String c r =>
      if (c =? ascii_of_nat 10)%char then EmptyString :: split_lines r
      else match split_lines r with
           | x :: xs => String c x :: xs
           | [] => [String c EmptyString]
           end
  end.

(** [yamlString.split('\n').map(...).join('\n')] *)
Definition highlight (yamlString : string) : string :=
  join LF (map colorLine (split_lines yamlString)).

(** get.js, [formatYaml] (lines 62-93); [None] is [undefined]. *)
Definition formatYaml (data : option value) (title : string) : string :=
  match data with
  | None => "No data available"
  | Some v =>
      if truthy v
      then bold_blue (LF ++ "=== " ++ title ++ " ===" ++ LF ++ LF)
             ++ highlight (yaml_stringify v)
      else "No data available"
  end.

(** call.js lines 18-23 *)
Definition titleText (sessionInfo : value) : res string :=
  rbind (js_get sessionInfo "log") (fun log =>
  Ret (if (List.length (js_entries sessionInfo) =? 1)%nat && slot_truthy log
       then LF ++ "=== Call Session Log ===" ++ LF ++ LF
       else LF ++ "=== Call Session Information ===" ++ LF ++ LF)).

(** call.js, [formatSessionYaml] (lines 12-119); [None] is [undefined]. *)
Definition formatSessionYaml (sessionInfo : option value) : res string :=
  match sessionInfo with
  | None => Ret "No session information available"
  | Some v =>
      if truthy v
      then
        rbind (titleText v) (fun title =>
        let output := bold_blue title in
        let sessionForYaml := clone "" v in
        rbind (reorganize sessionForYaml) (fun reorganized =>
        let yamlString := yaml_stringify (VObj reorganized) in
        Ret (output ++ highlight yamlString)))
      else Ret "No session information available"
  end.

End Render.

(* ================================================================== *)
(** ** The remote API (src/utils/api.js) *)

(** What an accessor of utils/api.js gives its caller: the [data] of the
    response ([None] when the body is [undefined]), or the message of the
    [Error] it throws (API error, network error, request set-up error). *)
Inductive fetched : Type :=
| Data (data : option value)
| Failed (message : string).

(** The platform behind [client.get(url)], with the key it was called
    with.  The response interceptor of [createApiClient] (lines 30-74),
    which rewrites the timestamps of the log entries before the accessor
    sees the response, is on the platform's side of this interface. *)
Class Remote : Type := {
  client_get : string -> slot -> fetched
}.

(** A platform that cannot be reached. *)
#[local] Instance unreachable : Remote := {|
  client_get := fun _ _ => Failed "Network Error: Unable to reach Cloudonix API"
|}.

Section Commands.
Context {Y : Yaml} {C : Chalk} {H : DateHost} {R : Remote}.

(** One request: the event, then the data or the thrown error. *)
Definition request (url : string) (apiKey : slot) : M (option value) :=
  emit (HttpGet url apiKey) ;;;
  match client_get url apiKey with
  | Data d => ret d
  | Failed message => throw message
  end.

(** api.js, [getDomainInfo] (lines 123-138) *)
Definition getDomainInfo (domain : string) (apiKey : slot) : M (option value) :=
  debug ("Fetching information for domain '" ++ domain ++ "'") ;;;
  request ("/customers/self/domains/" ++ domain) apiKey.

(** api.js, [getSessionInfo] (lines 147-162) *)
Definition getSessionInfo (domain sessionId : string) (apiKey : slot)
  : M (option value) :=
  debug ("Fetching information for session '" ++ sessionId
           ++ "' in domain '" ++ domain ++ "'") ;;;
  request ("/customers/self/domains/" ++ domain ++ "/sessions/" ++ sessionId)
          apiKey.

(** [id ? one : all] for an identifier that is [null] ([None]) or a string. *)
Definition if_id {A : Type} (id : option string) (one : string -> A) (all : A)
  : A :=
  match id with
  | Some i => if i =? "" then all else one i
  | None => all
  end.

(** api.js, [getSubscriberInfo], [getApplicationInfo], [getTrunkInfo] and
    [getDnidInfo] (lines 171-282) differ in the names of the resource
    only: in the messages ([what], [plural]) and in the URL ([path]). *)
Definition getResourceInfo (what plural path : string)
  (domain : string) (apiKey : slot) (id : option string) : M (option value) :=
  debug ("Fetching " ++ what ++ " information for domain '" ++ domain ++ "'"
           ++ if_id id (fun i => " and " ++ what ++ " '" ++ i ++ "'")
                       (" (all " ++ plural ++ ")")) ;;;
  request (if_id id
             (fun i => "/customers/self/domains/" ++ domain ++ "/" ++ path
                         ++ "/" ++ i)
             ("/customers/self/domains/" ++ domain ++ "/" ++ path))
          apiKey.

Definition getSubscriberInfo :=
  getResourceInfo "subscriber" "subscribers" "subscribers".
Definition getApplicationInfo :=
  getResourceInfo "application" "applications" "applications".
Definition getTrunkInfo := getResourceInfo "trunk" "trunks" "trunks".
Definition getDnidInfo := getResourceInfo "DNID" "DNIDs" "dnids".

(** The look-up both commands start with (call.js lines 180-189, get.js
    lines 149-158): the configuration is loaded, the domain must be in
    it, and its key is read. *)
Definition lookup_key (domain : string) : M slot :=
  config <- loadConfig ;;
  domains <- lift (js_get config "domains") ;;
  entry <- (if slot_truthy domains
            then lift (slot_get domains domain)
            else ret Undefined) ;;
  if negb (slot_truthy domains) || negb (slot_truthy entry)
  then console_error ("Domain '" ++ domain
                        ++ "' not found in configuration. "
                        ++ "Use 'cx-cli configure' to add it.") ;;;
       process_exit 1
  else lift (slot_get entry "apiKey").

(* ------------------------------------------------------------------ *)
(** *** src/commands/call.js, [getCallInfo] *)

Record call_options : Type := {
  call_domain : option string;     (* --domain <domain> *)
  call_session : option string;    (* --session <session-id> *)
  call_log : bool                  (* --log *)
}.

(** [!x] for an option of the command line. *)
Definition missing (x : option string) : bool :=
  match x with
  | None => true
  | Some s => s =? ""
  end.

Definition text_of (x : option string) : string :=
  match x with
  | None => "undefined"
  | Some s => s
  end.

(** call.js lines 195-206: what is displayed. *)
Definition dataToDisplay (showLogOnly : bool) (sessionInfo : option value)
  : M (option value) :=
  if showLogOnly
  then
    match sessionInfo with
    | None => throw (type_error "read" "log")
    | Some info =>
        log <- lift (js_get info "log") ;;
        if slot_truthy log
        then debug "Filtering output to show only the log object" ;;;
             ret (match log with
                  | Val l => Some (VObj [("log", l)])
                  | _ => Some (VObj [])
                  end)
        else console_log
               (yellow "Warning: No log object found in the session data") ;;;
             ret sessionInfo
    end
  else ret sessionInfo.

(** call.js, [getCallInfo] (lines 162-216) *)
Definition getCallInfo (options : call_options) : M unit :=
  if missing (call_domain options)
  then console_error "The --domain option is required" ;;; process_exit 1
  else if missing (call_session options)
  then console_error "The --session option is required" ;;; process_exit 1
  else
    let domain := text_of (call_domain options) in
    let session := text_of (call_session options) in
    debug ("Log only mode: "
             ++ (if call_log options then "enabled" else "disabled")) ;;;
    try_catch
      (debug ("Getting information for session '" ++ session
                ++ "' in domain '" ++ domain ++ "'") ;;;
       apiKey <- lookup_key domain ;;
       sessionInfo <- getSessionInfo domain session apiKey ;;
       shown <- dataToDisplay (call_log options) sessionInfo ;;
       yamlOutput <- lift (formatSessionYaml shown) ;;
       console_log yamlOutput)
      (fun message =>
         console_error ("Error getting session information: " ++ message) ;;;
         process_exit 1).

(* ------------------------------------------------------------------ *)
(** *** src/commands/get.js, [getDomain] *)

(** An option with an optional value: not given ([undefined]), given
    bare ([true]), or given with a value. *)
Inductive flag : Type :=
| Absent
| Bare
| Given (id : string).

Record get_options : Type := {
  get_domain : option string;      (* --domain <domain> *)
  subscriber : flag;               (* --subscriber [subscriber-id] *)
  application : flag;              (* --application [application-id] *)
  trunk : flag;                    (* --trunk [trunk-id] *)
  dnid : flag                      (* --dnid [dnid-id] *)
}.

Definition supplied (f : flag) : bool :=
  match f with
  | Absent => false
  | _ => true
  end.

(** [[subscriber, application, trunk, dnid]
       .filter(option => option !== undefined).length] *)
Definition resourceOptionsCount (options : get_options) : nat :=
  List.length (filter supplied
    [subscriber options; application options; trunk options; dnid options]).

(** [x === true ? null : x] *)
Definition flag_id (f : flag) : option string :=
  match f with
  | Given id => Some id
  | _ => None
  end.

Definition multiple_resources : string :=
  "Error: Cannot specify multiple resource options "
  ++ "(--subscriber, --application, --trunk, --dnid) simultaneously".

(** One branch of get.js lines 168-235: the identifier, the debug line,
    the request, the title and the display. *)
Definition show_resource (what plural Title Titles : string)
  (fetch : string -> slot -> option string -> M (option value))
  (domain : string) (apiKey : slot) (f : flag) : M unit :=
  let id := flag_id f in
  debug ("Retrieving " ++ what ++ " information"
           ++ if_id id (fun i => " for " ++ what ++ " '" ++ i ++ "'")
                       (" (all " ++ plural ++ ")")) ;;;
  info <- fetch domain apiKey id ;;
  console_log (formatYaml info
    (if_id id (fun i => Title ++ " Information for " ++ i)
              ("All " ++ Titles ++ " for Domain " ++ domain))).

(** get.js, [getDomain] (lines 138-248) *)
Definition getDomain (options : get_options) : M unit :=
  if missing (get_domain options)
  then console_error "The --domain option is required" ;;; process_exit 1
  else
    let domain := text_of (get_domain options) in
    try_catch
      (debug ("Getting information for domain '" ++ domain ++ "'") ;;;
       apiKey <- lookup_key domain ;;
       if (1 <? resourceOptionsCount options)%nat
       then console_error multiple_resources ;;; process_exit 1
       else if supplied (subscriber options)
       then show_resource "subscriber" "subscribers" "Subscriber" "Subscribers"
              getSubscriberInfo domain apiKey (subscriber options)
       else if supplied (application options)
       then show_resource "application" "applications"
              "Application" "Applications"
              getApplicationInfo domain apiKey (application options)
       else if supplied (trunk options)
       then show_resource "trunk" "trunks" "Trunk" "Trunks"
              getTrunkInfo domain apiKey (trunk options)
       else if supplied (dnid options)
       then show_resource "DNID" "DNIDs" "DNID" "DNIDs"
              getDnidInfo domain apiKey (dnid options)
       else
         info <- getDomainInfo domain apiKey ;;
         console_log (formatYaml info ("Domain Information for " ++ domain)))
      (fun message =>
         console_error ("Error getting information: " ++ message) ;;;
         process_exit 1).

End Commands.

(* ================================================================== *)
(** * Properties *)

(** ** Own properties *)

Lemma own_get_replace_same (o : object) (k : string) (v x : value) :
  own_get o k = Some x -> own_get (own_replace o k v) k = Some v.
Proof.
  induction o as [ | [k' v'] r IH ]; simpl; [ discriminate | ].
  destruct (k' =? k) eqn:E; simpl; rewrite E; auto.
Qed.

Lemma own_get_replace_other (o : object) (k k' : string) (v : value) :
  k' <> k -> own_get (own_replace o k v) k' = own_get o k'.
Proof.
  intros Hne. induction o as [ | [k0 v0] r IH ]; simpl; [ reflexivity | ].
  destruct (k0 =? k) eqn:E; simpl.
  - apply String.eqb_eq in E. subst k0.
    destruct (k =? k') eqn:E'; [ apply String.eqb_eq in E'; congruence | reflexivity ].
  - now rewrite IH.
Qed.

Lemma own_get_app (o : object) (k k' : string) (v : value) :
  own_get (o ++ [(k, v)])%list k' =
  match own_get o k' with
  | Some x => Some x
  | None => if k =? k' then Some v else None
  end.
Proof.
  induction o as [ | [k0 v0] r IH ]; simpl; [ reflexivity | ].
  destruct (k0 =? k'); [ reflexivity | exact IH ].
Qed.

Lemma own_get_insert_index_other (o : object) (n : N) (k k' : string) (v : value) :
  k' <> k -> own_get (insert_index o n k v) k' = own_get o k'.
Proof.
  intros Hne.
  assert (E : (k =? k') = false) by (apply String.eqb_neq; congruence).
  induction o as [ | [k0 v0] r IH ]; simpl.
  - now rewrite E.
  - destruct (array_index k0) as [ m | ].
    + destruct (m <? n)%N; simpl.
      * now rewrite IH.
      * now rewrite E.
    + simpl. now rewrite E.
Qed.

Lemma own_get_insert_index_same (o : object) (n : N) (k : string) (v : value) :
  own_get o k = None -> own_get (insert_index o n k v) k = Some v.
Proof.
  induction o as [ | [k0 v0] r IH ]; simpl; intros Hn.
  - now rewrite String.eqb_refl.
  - destruct (k0 =? k) eqn:E; [ discriminate | ].
    destruct (array_index k0) as [ m | ].
    + destruct (m <? n)%N; simpl.
      * rewrite E. auto.
      * now rewrite String.eqb_refl.
    + simpl. now rewrite String.eqb_refl.
Qed.

Lemma own_get_obj_set_same (o : object) (k : string) (v : value) :
  k <> "__proto__" -> own_get (obj_set o k v) k = Some v.
Proof.
  intros Hk. unfold obj_set, has_own.
  destruct (own_get o k) as [ x | ] eqn:E.
  - eapply own_get_replace_same; eauto.
  - destruct (k =? "__proto__") eqn:P; [ apply String.eqb_eq in P; congruence | ].
    destruct (array_index k) as [ n | ].
    + now apply own_get_insert_index_same.
    + rewrite own_get_app, E. now rewrite String.eqb_refl.
Qed.

Lemma own_get_obj_set_other (o : object) (k k' : string) (v : value) :
  k' <> k -> own_get (obj_set o k v) k' = own_get o k'.
Proof.
  intros Hne. unfold obj_set.
  destruct (has_own o k).
  - now apply own_get_replace_other.
  - destruct (k =? "__proto__"); [ reflexivity | ].
    destruct (array_index k) as [ n | ].
    + now apply own_get_insert_index_other.
    + rewrite own_get_app.
      destruct (own_get o k'); [ reflexivity | ].
      destruct (k =? k') eqn:E; [ apply String.eqb_eq in E; congruence | reflexivity ].
Qed.

Lemma own_get_delete_same (o : object) (k : string) :
  own_get (obj_delete o k) k = None.
Proof.
  induction o as [ | [k0 v0] r IH ]; simpl; [ reflexivity | ].
  destruct (k0 =? k) eqn:E; simpl; [ exact IH | now rewrite E ].
Qed.

Lemma own_get_delete_other (o : object) (k k' : string) :
  k' <> k -> own_get (obj_delete o k) k' = own_get o k'.
Proof.
  intros Hne. induction o as [ | [k0 v0] r IH ]; simpl; [ reflexivity | ].
  destruct (k0 =? k) eqn:E; simpl.
  - apply String.eqb_eq in E. subst k0.
    destruct (k =? k') eqn:E'; [ apply String.eqb_eq in E'; congruence | exact IH ].
  - now rewrite IH.
Qed.

(** ** The configuration store *)

Section StoreFacts.
Context {Y : Yaml}.

(** The configuration [loadConfig] returns in a state, and the events of
    the call. *)
Definition loaded (w : world) : value :=
  match config_file w with
  | None => empty_config
  | Some text =>
      match yaml_parse text with
      | YamlDoc v => if truthy v then v else empty_config
      | YamlError _ => empty_config
      end
  end.

Definition load_trace (w : world) : list event :=
  match config_file w with
  | None => [EnsureDir; PathExists]
  | Some text =>
      match yaml_parse text with
      | YamlDoc _ => [EnsureDir; PathExists; ReadFile]
      | YamlError m =>
          [EnsureDir; PathExists; ReadFile;
           ConsoleError ("Error loading configuration: " ++ m)]
      end
  end.

Lemma loadConfig_eq (w : world) :
  loadConfig w = (load_trace w, ensured w, Ret (loaded w)).
Proof.
  unfold loadConfig, load_trace, loaded, bind, try_catch, ensureConfigDir,
    pathExists, readFile, yaml_parse_text, ret, throw, lift, console_error, emit,
    ensured.
  cbn.
  destruct (config_file w) as [ text | ]; cbn; [ | reflexivity ].
  destruct (yaml_parse text) as [ m | v ]; cbn; reflexivity.
Qed.

Definition is_object (v : value) : bool :=
  match v with VObj _ => true | _ => false end.

(** The domains mapping of a configuration. *)
Definition domains_of (config : value) : object :=
  match config with
  | VObj o =>
      match own_get o "domains" with
      | Some (VObj ds) => ds
      | _ => []
      end
  | _ => []
  end.

(** A configuration of the shape the data model gives it: a mapping
    whose [domains], when set, maps names to records. *)
Definition wf_config (config : value) : bool :=
  match config with
  | VObj o =>
      match own_get o "domains" with
      | None => true
      | Some (VObj ds) => forallb (fun kx => is_object (snd kx)) ds
      | Some v => negb (truthy v)
      end
  | _ => false
  end.

(** The file is absent, unreadable as YAML, empty, or holds such a
    configuration. *)
Definition wf_store (w : world) : Prop := wf_config (loaded w) = true.

(** The configuration [addDomain] saves. *)
Definition with_domain (config : value) (domain : string) (record : value)
  : value :=
  match config with
  | VObj o =>
      let o1 := match own_get o "domains" with
                | Some (VObj _) => o
                | _ => obj_set o "domains" (VObj [])
                end in
      VObj (own_replace o1 "domains"
              (VObj (obj_set (domains_of config) domain record)))
  | _ => config
  end.

Lemma ensured_idem (w : world) : ensured (ensured w) = ensured w.
Proof. reflexivity. Qed.

Lemma saveConfig_eq (config : value) (w : world) :
  saveConfig config w =
  ([EnsureDir; WriteFile (yaml_stringify config)],
   written (yaml_stringify config) (ensured w), Ret tt).
Proof. reflexivity. Qed.

Lemma addDomain_eq (w : world) (domain apiKey : string) :
  wf_store w ->
  addDomain domain apiKey w =
  let config := with_domain (loaded w) domain (domain_record apiKey) in
  ((load_trace w ++ [EnsureDir; WriteFile (yaml_stringify config)])%list,
   written (yaml_stringify config) (ensured w), Ret tt).
Proof.
  unfold wf_store, addDomain. intros Hwf.
  unfold bind at 1. rewrite loadConfig_eq.
  destruct (loaded w) as [ | | | | | o ]; try discriminate.
  unfold bind, lift, ensure_domains, set_domain, with_domain, domains_of,
    js_get, rbind, wf_config in *.
  destruct (own_get o "domains") as [ [ | b | n | s | l | ds ] | ] eqn:E;
    unfold slot_truthy, truthy in *.
  - reflexivity.
  - destruct b; [ discriminate | reflexivity ].
  - apply negb_true_iff in Hwf. rewrite Hwf. reflexivity.
  - apply negb_true_iff in Hwf. rewrite Hwf. reflexivity.
  - discriminate.
  - reflexivity.
  - cbn [inherited existsb object_prototype_names String.eqb Ascii.eqb Bool.eqb orb].
    reflexivity.
Qed.

Lemma own_get_domains_with_domain (config : value) (domain : string) (record : value) :
  wf_config config = true ->
  domains_of (with_domain config domain record)
  = obj_set (domains_of config) domain record.
Proof.
  unfold wf_config, with_domain, domains_of.
  destruct config as [ | | | | | o ]; try discriminate.
  intros Hwf.
  assert (P : "domains" <> "__proto__") by discriminate.
  destruct (own_get o "domains") as [ v | ] eqn:E.
  - assert (R : forall x o1, own_get o1 "domains" <> None ->
              own_get (own_replace o1 "domains" x) "domains" = Some x).
    { intros x o1 Hn. destruct (own_get o1 "domains") eqn:E1; [ | congruence ].
      eapply own_get_replace_same; eauto. }
    destruct v; rewrite R; try reflexivity;
      try (rewrite own_get_obj_set_same; [ discriminate | exact P ]).
    rewrite E. discriminate.
  - erewrite own_get_replace_same; [ reflexivity | ].
    apply own_get_obj_set_same; exact P.
Qed.

Lemma loaded_written (config : value) (w : world) :
  truthy config = true ->
  loaded (written (yaml_stringify config) w) = config.
Proof.
  intros Ht. unfold loaded, written. cbn [config_file].
  now rewrite yaml_parse_stringify, Ht.
Qed.

Lemma forallb_snd_replace (f : value -> bool) (o : object) (k : string) (v : value) :
  forallb (fun kx => f (snd kx)) o = true -> f v = true ->
  forallb (fun kx => f (snd kx)) (own_replace o k v) = true.
Proof.
  intros Ho Hv. induction o as [ | [k0 v0] r IH ]; simpl in *; [ reflexivity | ].
  apply andb_true_iff in Ho as [H1 H2].
  destruct (k0 =? k); simpl; rewrite ?Hv, ?H1, ?H2, ?IH; auto.
Qed.

Lemma forallb_snd_insert (f : value -> bool) (o : object) (n : N) (k : string)
  (v : value) :
  forallb (fun kx => f (snd kx)) o = true -> f v = true ->
  forallb (fun kx => f (snd kx)) (insert_index o n k v) = true.
Proof.
  intros Ho Hv. induction o as [ | [k0 v0] r IH ]; simpl in *.
  - now rewrite Hv.
  - apply andb_true_iff in Ho as [H1 H2]. simpl in H1.
    destruct (array_index k0) as [ m | ]; [ destruct (m <? n)%N | ]; simpl;
      rewrite ?Hv, ?H1, ?H2, ?IH; auto.
Qed.

Lemma forallb_snd_obj_set (f : value -> bool) (o : object) (k : string) (v : value) :
  forallb (fun kx => f (snd kx)) o = true -> f v = true ->
  forallb (fun kx => f (snd kx)) (obj_set o k v) = true.
Proof.
  intros Ho Hv. unfold obj_set.
  destruct (has_own o k); [ now apply forallb_snd_replace | ].
  destruct (k =? "__proto__"); [ exact Ho | ].
  destruct (array_index k) as [ n | ]; [ now apply forallb_snd_insert | ].
  rewrite forallb_app, Ho. simpl. now rewrite Hv.
Qed.

Lemma forallb_snd_delete (f : value -> bool) (o : object) (k : string) :
  forallb (fun kx => f (snd kx)) o = true ->
  forallb (fun kx => f (snd kx)) (obj_delete o k) = true.
Proof.
  intros Ho. induction o as [ | [k0 v0] r IH ]; simpl in *; [ reflexivity | ].
  apply andb_true_iff in Ho as [H1 H2].
  destruct (k0 =? k); simpl; rewrite ?H1, ?IH; auto.
Qed.

Lemma own_get_replace_domains (o : object) (x : value) :
  own_get o "domains" <> None ->
  own_get (own_replace o "domains" x) "domains" = Some x.
Proof.
  intros Hn. destruct (own_get o "domains") eqn:E; [ | congruence ].
  eapply own_get_replace_same; eauto.
Qed.

Lemma wf_config_with_domain (config : value) (domain : string) (record : value) :
  wf_config config = true -> is_object record = true ->
  wf_config (with_domain config domain record) = true.
Proof.
  intros Hwf Hr.
  pose proof (own_get_domains_with_domain config domain record Hwf) as D.
  unfold wf_config, with_domain, domains_of in *.
  destruct config as [ | | | | | o ]; try discriminate.
  assert (P : "domains" <> "__proto__") by discriminate.
  destruct (own_get o "domains") as [ v | ] eqn:E.
  - destruct v; rewrite own_get_replace_domains;
      try (rewrite own_get_obj_set_same; [ discriminate | exact P ]);
      try (rewrite E; discriminate);
      apply forallb_snd_obj_set; auto.
  - rewrite own_get_replace_domains.
    + apply forallb_snd_obj_set; auto.
    + rewrite own_get_obj_set_same; [ discriminate | exact P ].
Qed.

Lemma with_domain_truthy (config : value) (domain : string) (record : value) :
  wf_config config = true -> truthy (with_domain config domain record) = true.
Proof.
  destruct config; try discriminate. reflexivity.
Qed.

(** [addDomain] followed by [loadConfig]: the record is under the name,
    and every other name holds what it held.  (Holds for every name but
    [__proto__].) *)
Lemma addDomain_then_load (w : world) (domain apiKey : string) :
  wf_store w -> domain <> "__proto__" ->
  exists t w1 t' w2 config,
    addDomain domain apiKey w = (t, w1, Ret tt)
    /\ loadConfig w1 = (t', w2, Ret config)
    /\ wf_store w1
    /\ own_get (domains_of config) domain = Some (domain_record apiKey)
    /\ forall other, other <> domain ->
         own_get (domains_of config) other
         = own_get (domains_of (loaded w)) other.
Proof.
  intros Hwf Hd.
  rewrite (addDomain_eq w domain apiKey Hwf). cbv zeta.
  set (config := with_domain (loaded w) domain (domain_record apiKey)).
  set (w1 := written (yaml_stringify config) (ensured w)).
  assert (L : loaded w1 = config).
  { apply loaded_written. now apply with_domain_truthy. }
  exists (load_trace w ++ [EnsureDir; WriteFile (yaml_stringify config)])%list,
         w1, (load_trace w1), (ensured w1), config.
  repeat split.
  - rewrite loadConfig_eq. now rewrite L.
  - unfold wf_store. rewrite L. now apply wf_config_with_domain.
  - unfold config. rewrite own_get_domains_with_domain by exact Hwf.
    now apply own_get_obj_set_same.
  - intros other Ho. unfold config.
    rewrite own_get_domains_with_domain by exact Hwf.
    now apply own_get_obj_set_other.
Qed.

End StoreFacts.

Section DeleteFacts.
Context {Y : Yaml}.

(** A name that designates a domain: not empty (an empty [--domain] is a
    missing one), and not a name that every mapping inherits. *)
Definition domain_name (d : string) : bool :=
  negb (d =? "") && negb (inherited d).

(** The events of [debug] calls. *)
Definition debug_events (w : world) (messages : list string) : list event :=
  if isDebugEnabled w then map DebugLog messages else [].

(** The configuration [deleteDomain] saves. *)
Definition without_domain (config : value) (domain : string) : value :=
  match config with
  | VObj o =>
      VObj (own_replace o "domains" (VObj (obj_delete (domains_of config) domain)))
  | _ => config
  end.


Definition attempting (domain : string) : string :=
  "Attempting to delete domain '" ++ domain ++ "' from configuration".

Definition found (domain : string) : string :=
  "Domain '" ++ domain ++ "' found in configuration".

Definition removed (domain : string) : string :=
  "Domain '" ++ domain ++ "' has been removed from configuration".


Lemma deleteDomain_present_eq (w : world) (domain : string) (record : value) :
  wf_store w -> domain_name domain = true ->
  own_get (domains_of (loaded w)) domain = Some record ->
  deleteDomain (Some domain) w =
  let text := yaml_stringify (without_domain (loaded w) domain) in
  ((debug_events w [attempting domain]
    ++ load_trace w
    ++ debug_events w [found domain]
    ++ [EnsureDir; WriteFile text; ConsoleLog (removed domain)])%list,
   written text (ensured w), Ret tt).
Proof.
  unfold wf_store, domain_name, deleteDomain. intros Hwf Hd Hpres.
  apply andb_true_iff in Hd as [Hd1 Hd2].
  apply negb_true_iff in Hd1, Hd2. rewrite Hd1.
  assert (T : truthy record = true /\ exists o ds, loaded w = VObj o
             /\ own_get o "domains" = Some (VObj ds)
             /\ own_get ds domain = Some record).
  { destruct (loaded w) as [ | | | | | o ]; try discriminate.
    unfold wf_config, domains_of in *.
    destruct (own_get o "domains") as [ [ | b | n | s | l | ds ] | ] eqn:E;
      try discriminate.
    split; [ | eauto ].
    rewrite forallb_forall in Hwf.
    assert (I : In (domain, record) ds).
    { clear - Hpres. induction ds as [ | [k v] r IH ]; simpl in *; [ discriminate | ].
      destruct (k =? domain) eqn:Ek.
      - apply String.eqb_eq in Ek. left. congruence.
      - right. auto. }
    specialize (Hwf _ I). destruct record; try discriminate; reflexivity. }
  destruct T as (T & o & ds & Lo & Eo & Ed).
  unfold try_catch, bind, debug, debug_events.
  destruct (isDebugEnabled w) eqn:Dbg; cbv beta iota;
    rewrite loadConfig_eq; cbv beta iota; rewrite Lo;
    unfold lift, js_get, slot_get, js_get, rbind, slot_truthy, without_domain,
      delete_domain, domains_of;
    rewrite Eo; cbv beta iota; rewrite Ed; cbn [truthy negb orb]; cbv beta iota;
    unfold ret; cbv beta iota; rewrite T;
    cbn [negb orb ensured isDebugEnabled]; cbv beta iota;
    rewrite ?Dbg; reflexivity.
Qed.

End DeleteFacts.

(** ** Claims on the configuration store *)

(** The store of a state holds [config]: that is what [loadConfig]
    returns there. *)
Definition holds {Y : Yaml} (w : world) (config : value) : Prop :=
  exists t w', loadConfig w = (t, w', Ret config).

Lemma holds_loaded {Y : Yaml} (w : world) (config : value) :
  holds w config <-> config = loaded w.
Proof.
  unfold holds. split.
  - intros (t & w' & E). rewrite loadConfig_eq in E. congruence.
  - intros ->. rewrite loadConfig_eq. eauto.
Qed.

(** States used to run the commands: no file yet; a store with two
    domains; an empty file; a file that is not YAML. *)
Definition fresh : world := World false None false.

Definition two_domains : value :=
  VObj [("domains",
         VObj [("example.com", domain_record "abcdefghijkl");
               ("voice.example.org", domain_record "0123456789")])].

Definition stocked : world :=
  World true (Some (RefYaml.enc two_domains)) false.


Definition garbled : world := World true (Some "{{{") false.


(** [loadConfig] returns in every state. *)
Lemma loadConfig_returns {Y : Yaml} (w : world) :
  exists t w' config, loadConfig w = (t, w', Ret config).
Proof. rewrite loadConfig_eq. eauto. Qed.


(** C1, at the name [__proto__].  On a store with no file yet,
    [addDomain "__proto__" apiKey] succeeds and saves, and the
    configuration loaded afterwards has an empty domains mapping: the
    record is not in the store. *)
Theorem addDomain_proto_stores_nothing {Y : Yaml} (apiKey : string) :
  exists t w1,
    addDomain "__proto__" apiKey fresh = (t, w1, Ret tt)
    /\ In (WriteFile (yaml_stringify empty_config)) t
    /\ holds w1 empty_config
    /\ own_get (domains_of empty_config) "__proto__" = None.
Proof.
  rewrite addDomain_eq by reflexivity. cbv zeta.
  change (with_domain (loaded fresh) "__proto__" (domain_record apiKey))
    with empty_config.
  do 2 eexists. split; [ reflexivity | ].
  split; [ cbn; auto | ].
  split; [ | reflexivity ].
  apply holds_loaded. symmetry. now apply loaded_written.
Qed.




(** ** Claims on the display of keys *)


(** The events that write the configuration file, that read or write
    the store, and that go to the network. *)
Definition is_write (e : event) : bool :=
  match e with WriteFile _ => true | _ => false end.

Definition is_store_access (e : event) : bool :=
  match e with
  | EnsureDir | PathExists | ReadFile | WriteFile _ => true
  | _ => false
  end.

Definition is_request (e : event) : bool :=
  match e with HttpGet _ _ => true | _ => false end.

Lemma load_trace_no_write {Y : Yaml} (w : world) :
  existsb is_write (load_trace w) = false.
Proof.
  unfold load_trace.
  destruct (config_file w) as [ f | ]; [ destruct (yaml_parse f) | ];
    reflexivity.
Qed.

Lemma load_trace_no_request {Y : Yaml} (w : world) :
  existsb is_request (load_trace w) = false.
Proof.
  unfold load_trace.
  destruct (config_file w) as [ f | ]; [ destruct (yaml_parse f) | ];
    reflexivity.
Qed.


Lemma display_rows_no_write (entries : list (string * value)) (w : world) :
  exists t r,
    display_rows entries w = (t, w, r) /\ existsb is_write t = false.
Proof.
  revert w. induction entries as [ | [domain details] rest IH ]; intros w.
  - exists [], (Ret tt). split; reflexivity.
  - cbn [display_rows]. unfold bind, lift, console_log, emit.
    destruct (mask_entry details) as [ m | e | c ].
    + destruct (IH w) as (t & r & E & N). rewrite E.
      exists (ConsoleLog (padEnd domain 30 ++ " " ++ m) :: t), r.
      split; [ reflexivity | exact N ].
    + exists [], (Throw e). split; reflexivity.
    + exists [], (Exit c). split; reflexivity.
Qed.



(** ** Claims on the renderer *)

(** An input the renderers take to be nothing: [undefined], or a value
    that is not truthy ([null], [false], 0, the empty string). *)
Definition nothing (data : option value) : bool :=
  match data with
  | None => true
  | Some v => negb (truthy v)
  end.

Definition session_title : string :=
  LF ++ "=== Call Session Information ===" ++ LF ++ LF.

(** C8, as amended.  For an input that is absent or not truthy, both
    renderers return their fixed sentence and do not throw.  The empty
    mapping is not such an input: it is rendered, under the title, as
    what the YAML library writes for an empty mapping. *)
Theorem render_nothing {Y : Yaml} {C : Chalk} {H : DateHost}
  (data : option value) (title : string) :
  nothing data = true ->
  formatSessionYaml data = Ret "No session information available"
  /\ formatYaml data title = "No data available"
  /\ formatSessionYaml (Some (VObj []))
     = Ret (bold_blue session_title ++ highlight (yaml_stringify (VObj [])))
  /\ formatYaml (Some (VObj [])) title
     = bold_blue (LF ++ "=== " ++ title ++ " ===" ++ LF ++ LF)
         ++ highlight (yaml_stringify (VObj [])).
Proof.
  intros Hn. unfold nothing, formatSessionYaml, formatYaml in *.
  destruct data as [ v | ].
  - apply negb_true_iff in Hn. rewrite Hn. repeat split.
  - repeat split.
Qed.

Lemma render_nothing_witness :
  formatSessionYaml (Some VNull) = Ret "No session information available"
  /\ formatYaml (Some VNull) "Domain Information for example.com"
     = "No data available"
  /\ formatSessionYaml (Some (VObj []))
     = Ret (bold_blue session_title ++ highlight (yaml_stringify (VObj [])))
  /\ formatYaml (Some (VObj [])) "Domain Information for example.com"
     = bold_blue (LF ++ "=== " ++ "Domain Information for example.com"
                     ++ " ===" ++ LF ++ LF)
         ++ highlight (yaml_stringify (VObj [])).
Proof.
  apply (render_nothing (Some VNull) "Domain Information for example.com").
  reflexivity.
Defined.

(** C8 as stated fails on the empty document: with colours off, the
    empty mapping is rendered as the title followed by the YAML text of
    an empty mapping, not as the sentence for missing information. *)
Lemma render_empty_counterexample :
  formatSessionYaml (Some (VObj []))
  = Ret (LF ++ "=== Call Session Information ===" ++ LF ++ LF
            ++ RefYaml.enc (VObj []))
  /\ formatYaml (Some (VObj [])) "Subscribers"
     = LF ++ "=== Subscribers ===" ++ LF ++ LF ++ RefYaml.enc (VObj [])
  /\ (LF ++ "=== Call Session Information ===" ++ LF ++ LF
         ++ RefYaml.enc (VObj [])
      =? "No session information available") = false.
Proof. vm_compute. repeat split. Qed.

(** ** Claims on the commands [get] and [call] *)

Section CommandFacts.
Context {Y : Yaml} {C : Chalk} {H : DateHost} {R : Remote}.

(** What [config.domains[domain]] evaluates to ([Undefined] when
    [config.domains] is not truthy), and the key read from it. *)
Definition entry_of (config : value) (domain : string) : slot :=
  match js_get config "domains" with
  | Ret domains =>
      if slot_truthy domains
      then match slot_get domains domain with
           | Ret e => e
           | _ => Undefined
           end
      else Undefined
  | _ => Undefined
  end.

Definition key_of (entry : slot) : slot :=
  match slot_get entry "apiKey" with
  | Ret k => k
  | _ => Undefined
  end.

Definition not_configured (domain : string) : string :=
  "Domain '" ++ domain ++ "' not found in configuration. "
  ++ "Use 'cx-cli configure' to add it.".

Lemma loaded_truthy (w : world) : truthy (loaded w) = true.
Proof.
  unfold loaded.
  destruct (config_file w) as [ f | ]; [ | reflexivity ].
  destruct (yaml_parse f) as [ m | v ]; [ reflexivity | ].
  destruct (truthy v) eqn:E; [ exact E | reflexivity ].
Qed.

Lemma js_get_returns (v : value) (k : string) :
  truthy v = true -> exists x, js_get v k = Ret x.
Proof. destruct v; try discriminate; intros _; cbn; eauto. Qed.

Lemma slot_get_returns (x : slot) (k : string) :
  slot_truthy x = true -> exists y, slot_get x k = Ret y.
Proof.
  destruct x as [ | | v ]; try discriminate; cbn; eauto.
  apply js_get_returns.
Qed.

Lemma lookup_key_eq (w : world) (domain : string) :
  lookup_key domain w =
  if slot_truthy (entry_of (loaded w) domain)
  then (load_trace w, ensured w, Ret (key_of (entry_of (loaded w) domain)))
  else ((load_trace w ++ [ConsoleError (not_configured domain)])%list,
        ensured w, Exit 1%Z).
Proof.
  unfold lookup_key, bind. rewrite loadConfig_eq. cbv beta iota.
  unfold entry_of, key_of, lift.
  destruct (js_get_returns (loaded w) "domains" (loaded_truthy w)) as (ds & E).
  rewrite E. cbv beta iota.
  destruct (slot_truthy ds) eqn:T; cbv beta iota.
  - destruct (slot_get_returns ds domain T) as (e & E'). rewrite E'.
    cbn [negb orb]. cbv beta iota.
    destruct (slot_truthy e) eqn:Te; cbn [negb]; cbv beta iota.
    + destruct (slot_get_returns e "apiKey" Te) as (k & Ek). rewrite Ek.
      now rewrite !app_nil_r.
    + reflexivity.
  - reflexivity.
Qed.

Definition getting (domain : string) : string :=
  "Getting information for domain '" ++ domain ++ "'".


End CommandFacts.




(** Running a command symbolically: reduce the matches that have become
    decidable and replace the debug flag by its value. *)
Ltac run Dbg :=
  repeat first
    [ progress cbv beta iota
    | progress cbn [ensured written isDebugEnabled config_file config_dir]
    | rewrite Dbg ].

Section CallFacts.
Context {Y : Yaml} {C : Chalk} {H : DateHost} {R : Remote}.

Definition session_url (domain session : string) : string :=
  "/customers/self/domains/" ++ domain ++ "/sessions/" ++ session.

Definition warning : string :=
  "Warning: No log object found in the session data".

(** How [call] ends once it knows what to display: the rendering is
    printed, or the error of the renderer is reported and the command
    exits with status 1. *)
Definition shows (data : option value) : list event * res unit :=
  match formatSessionYaml data with
  | Ret yamlOutput => ([ConsoleLog yamlOutput], Ret tt)
  | Throw message =>
      ([ConsoleError ("Error getting session information: " ++ message)],
       Exit 1%Z)
  | Exit code => ([], Exit code)
  end.

Definition log_mode (log : bool) : string :=
  "Log only mode: " ++ (if log then "enabled" else "disabled").

Definition getting_session (domain session : string) : string :=
  "Getting information for session '" ++ session
    ++ "' in domain '" ++ domain ++ "'".

Definition fetching_session (domain session : string) : string :=
  "Fetching information for session '" ++ session
    ++ "' in domain '" ++ domain ++ "'".

(** The events of [call] up to the answer of the platform. *)
Definition call_prefix (w : world) (domain session : string) (log : bool)
  : list event :=
  (debug_events w [log_mode log; getting_session domain session]
   ++ load_trace w
   ++ debug_events w [fetching_session domain session]
   ++ [HttpGet (session_url domain session)
               (key_of (entry_of (loaded w) domain))])%list.

Definition call_with (domain session : string) (log : bool) : call_options :=
  {| call_domain := Some domain; call_session := Some session;
     call_log := log |}.

Lemma getCallInfo_eq (w : world) (domain session : string) (log : bool)
  (doc : object) :
  (domain =? "") = false ->
  (session =? "") = false ->
  slot_truthy (entry_of (loaded w) domain) = true ->
  client_get (session_url domain session)
             (key_of (entry_of (loaded w) domain)) = Data (Some (VObj doc)) ->
  getCallInfo (call_with domain session log) w =
  let filtered :=
    match own_get doc "log" with
    | Some l => if truthy l then Some l else None
    | None => None
    end in
  match log, filtered with
  | true, Some l =>
      ((call_prefix w domain session log
        ++ debug_events w ["Filtering output to show only the log object"]
        ++ fst (shows (Some (VObj [("log", l)]))))%list,
       ensured w, snd (shows (Some (VObj [("log", l)]))))
  | true, None =>
      ((call_prefix w domain session log
        ++ [ConsoleLog (yellow warning)]
        ++ fst (shows (Some (VObj doc))))%list,
       ensured w, snd (shows (Some (VObj doc))))
  | false, _ =>
      ((call_prefix w domain session log
        ++ fst (shows (Some (VObj doc))))%list,
       ensured w, snd (shows (Some (VObj doc))))
  end.
Proof.
  intros Hd Hs Hc Hr.
  unfold getCallInfo, call_with, missing, text_of.
  cbn [call_domain call_session call_log]. rewrite Hd, Hs.
  unfold try_catch, bind, debug, call_prefix, debug_events, getSessionInfo,
    request, emit, log_mode, getting_session, fetching_session.
  fold (session_url domain session).
  destruct (isDebugEnabled w) eqn:Dbg; run Dbg;
    rewrite lookup_key_eq, Hc; run Dbg; rewrite Hr; unfold ret; run Dbg;
    unfold dataToDisplay, shows, bind, lift, js_get, console_log, emit, debug,
      ret;
    (destruct log; run Dbg;
     [ destruct (own_get doc "log") as [ l | ];
       cbn [inherited existsb object_prototype_names String.eqb Ascii.eqb
            Bool.eqb orb slot_truthy];
       [ destruct (truthy l) | ] | ];
     run Dbg;
     match goal with
     | |- context [formatSessionYaml ?d] =>
         destruct (formatSessionYaml d); run Dbg
     end;
     unfold console_error, process_exit, emit, lift; run Dbg;
     cbn [fst snd app map]; rewrite ?app_nil_r, <- ?app_assoc; cbn [app];
     rewrite <- ?app_assoc; cbn [app];
     reflexivity).
Qed.

(** C10, as amended.  [call --log] on a configured domain, when the
    platform answers with a session document (a mapping):
    - if the document has no [log] field, or has one whose value is not
      truthy ([null], [false], 0, the empty string), the warning is
      printed and the command goes on as it does without [--log]: the
      full document is given to the renderer;
    - if the [log] field has a truthy value, the renderer is given the
      document whose single key is [log].
    Whatever is given to the renderer, its result is printed and the
    command returns; if the renderer throws, the error is reported and
    the command exits with status 1. *)
Theorem getCallInfo_log_only (w : world) (domain session : string)
  (doc : object) :
  (domain =? "") = false ->
  (session =? "") = false ->
  slot_truthy (entry_of (loaded w) domain) = true ->
  client_get (session_url domain session)
             (key_of (entry_of (loaded w) domain)) = Data (Some (VObj doc)) ->
  getCallInfo (call_with domain session false) w
  = ((call_prefix w domain session false
      ++ fst (shows (Some (VObj doc))))%list,
     ensured w, snd (shows (Some (VObj doc))))
  /\ getCallInfo (call_with domain session true) w
     = match own_get doc "log" with
       | Some l =>
           if truthy l
           then ((call_prefix w domain session true
                  ++ debug_events w
                       ["Filtering output to show only the log object"]
                  ++ fst (shows (Some (VObj [("log", l)]))))%list,
                 ensured w, snd (shows (Some (VObj [("log", l)]))))
           else ((call_prefix w domain session true
                  ++ [ConsoleLog (yellow warning)]
                  ++ fst (shows (Some (VObj doc))))%list,
                 ensured w, snd (shows (Some (VObj doc))))
       | None =>
           ((call_prefix w domain session true
             ++ [ConsoleLog (yellow warning)]
             ++ fst (shows (Some (VObj doc))))%list,
            ensured w, snd (shows (Some (VObj doc))))
       end
  /\ (forall l yamlOutput,
        formatSessionYaml (Some l) = Ret yamlOutput ->
        shows (Some l) = ([ConsoleLog yamlOutput], Ret tt)).
Proof.
  intros Hd Hs Hc Hr. split; [ | split ].
  - rewrite (getCallInfo_eq w domain session false doc Hd Hs Hc Hr).
    reflexivity.
  - rewrite (getCallInfo_eq w domain session true doc Hd Hs Hc Hr). cbv zeta.
    destruct (own_get doc "log") as [ l | ]; [ destruct (truthy l) | ];
      reflexivity.
  - intros l out E. unfold shows. now rewrite E.
Qed.

End CallFacts.

(** A platform that answers every request with [doc]. *)
Definition answering (doc : value) : Remote :=
  {| client_get := fun _ _ => Data (Some doc) |}.

Definition no_log : object := [("id", VStr "s-1"); ("status", VStr "ended")].

Definition null_log : object := [("id", VStr "s-1"); ("log", VNull)].

Lemma getCallInfo_log_only_witness :
  @getCallInfo _ _ _ (answering (VObj no_log))
    (call_with "example.com" "s-1" false) stocked
  = ((@call_prefix _ stocked "example.com" "s-1" false
      ++ fst (shows (Some (VObj no_log))))%list,
     ensured stocked, snd (shows (Some (VObj no_log))))
  /\ @getCallInfo _ _ _ (answering (VObj no_log))
       (call_with "example.com" "s-1" true) stocked
     = ((@call_prefix _ stocked "example.com" "s-1" true
         ++ [ConsoleLog (yellow warning)]
         ++ fst (shows (Some (VObj no_log))))%list,
        ensured stocked, snd (shows (Some (VObj no_log))))
  /\ (forall l yamlOutput,
        formatSessionYaml (Some l) = Ret yamlOutput ->
        shows (Some l) = ([ConsoleLog yamlOutput], Ret tt)).
Proof.
  apply (@getCallInfo_log_only _ _ _ (answering (VObj no_log))
           stocked "example.com" "s-1" no_log); reflexivity.
Defined.

(** C10 as stated fails when the [log] field is present with a value
    that is not truthy: the warning is printed and the document handed to
    the renderer is the full one, with its two keys. *)
Lemma getCallInfo_counterexample :
  own_get null_log "log" = Some VNull
  /\ keys null_log = ["id"; "log"]
  /\ dataToDisplay true (Some (VObj null_log)) stocked
     = ([ConsoleLog warning], stocked, Ret (Some (VObj null_log)))
  /\ exists yamlOutput,
       formatSessionYaml (Some (VObj null_log)) = Ret yamlOutput
       /\ @getCallInfo _ _ _ (answering (VObj null_log))
            (call_with "example.com" "s-1" true) stocked
          = ([EnsureDir; PathExists; ReadFile;
              HttpGet (session_url "example.com" "s-1")
                      (Val (VStr "abcdefghijkl"));
              ConsoleLog warning;
              ConsoleLog yamlOutput],
             stocked, Ret tt).
Proof.
  split; [ reflexivity | ]. split; [ reflexivity | ].
  split; [ reflexivity | ].
  eexists. split; vm_compute; reflexivity.
Qed.

(** ** Sorting by time *)

Section SortFacts.

(** A comparator that subtracts the times of its arguments, for the
    entries that have one. *)
Variable compare : value -> value -> res (option Z).
Variable time : value -> option Z.

Hypothesis compare_times :
  forall a b ta tb,
    time a = Some ta -> time b = Some tb ->
    compare a b = Ret (Some (ta - tb)%Z).

Definition timed (a : value) : Prop := exists t, time a = Some t.

(** The time of an entry that has one (0 otherwise). *)
Definition time_of (a : value) : Z :=
  match time a with Some t => t | None => 0%Z end.

Definition earlier (a b : value) : Prop := (time_of a <= time_of b)%Z.

Lemma sort_insert_sorted (x : value) (sorted : list value) :
  timed x -> Forall timed sorted ->
  exists out,
    sort_insert compare x sorted = Ret out
    /\ Permutation (x :: sorted) out
    /\ Forall timed out
    /\ (StronglySorted earlier sorted -> StronglySorted earlier out).
Proof.
  intros [tx Hx] Hs. induction Hs as [ | y r [ty Hy] Hr IH ].
  - exists [x]. cbn. repeat split; auto.
    + constructor; [ exists tx; exact Hx | constructor ].
    + intros _. constructor; constructor.
  - cbn [sort_insert]. rewrite (compare_times x y tx ty Hx Hy). cbn [rbind].
    destruct (0 <? tx - ty)%Z eqn:E.
    + destruct IH as (out & Eo & Po & Fo & So). rewrite Eo. cbn [rbind].
      exists (y :: out). split; [ reflexivity | ].
      split; [ | split ].
      * rewrite perm_swap. now constructor.
      * constructor; [ exists ty; exact Hy | exact Fo ].
      * intros Hsorted. inversion Hsorted as [ | ? ? Hsr Hall ]; subst.
        constructor; [ auto | ].
        apply Z.ltb_lt in E.
        eapply Permutation_Forall; [ exact Po | ].
        constructor; [ | exact Hall ].
        unfold earlier, time_of. rewrite Hx, Hy. lia.
    + exists (x :: y :: r). split; [ reflexivity | ].
      split; [ reflexivity | ]. split.
      * constructor; [ exists tx; exact Hx | ].
        constructor; [ exists ty; exact Hy | exact Hr ].
      * intros Hsorted. constructor; [ exact Hsorted | ].
        apply Z.ltb_ge in E.
        inversion Hsorted as [ | ? ? Hsr Hall ]; subst.
        assert (Exy : earlier x y).
        { unfold earlier, time_of. rewrite Hx, Hy. lia. }
        constructor; [ exact Exy | ].
        eapply Forall_impl; [ | exact Hall ].
        intros z Hz. unfold earlier in *. lia.
Qed.

Lemma js_sort_sorted_aux (l : list value) :
  Forall timed l ->
  exists out, js_sort compare l = Ret out /\ Forall timed out.
Proof.
  intros Hl. induction Hl as [ | x r Hx Hr IH ].
  - exists []. split; [ reflexivity | constructor ].
  - destruct IH as (s & Es & Fs). cbn [js_sort]. rewrite Es. cbn [rbind].
    destruct (sort_insert_sorted x s Hx Fs) as (out & Eo & _ & Fo & _).
    eauto.
Qed.

Definition at_time (t : Z) (a : value) : bool := (time_of a =? t)%Z.

(** Entries with the same time keep their order. *)
Lemma sort_insert_stable (x : value) (sorted out : list value) (t : Z) :
  timed x -> Forall timed sorted ->
  sort_insert compare x sorted = Ret out ->
  filter (at_time t) out = filter (at_time t) (x :: sorted).
Proof.
  intros [tx Hx] Hs. revert out.
  induction Hs as [ | y r [ty Hy] Hr IH ]; intros out.
  - cbn. intros [= <-]. reflexivity.
  - cbn [sort_insert]. rewrite (compare_times x y tx ty Hx Hy). cbn [rbind].
    destruct (0 <? tx - ty)%Z eqn:E.
    + destruct (sort_insert compare x r) as [ o | | ]; cbn [rbind];
        try discriminate.
      intros [= <-]. specialize (IH o eq_refl).
      apply Z.ltb_lt in E.
      cbn [filter] in *. rewrite IH. unfold at_time, time_of.
      rewrite Hx, Hy.
      destruct (tx =? t)%Z eqn:E1; destruct (ty =? t)%Z eqn:E2;
        try reflexivity.
      apply Z.eqb_eq in E1, E2. lia.
    + intros [= <-]. reflexivity.
Qed.

Lemma js_sort_stable (l out : list value) (t : Z) :
  Forall timed l ->
  js_sort compare l = Ret out ->
  filter (at_time t) out = filter (at_time t) l.
Proof.
  intros Hl. revert out. induction Hl as [ | x r Hx Hr IH ]; intros out.
  - cbn. intros [= <-]. reflexivity.
  - cbn [js_sort].
    destruct (js_sort_sorted_aux r Hr) as (s & Es & Fs). rewrite Es.
    cbn [rbind]. intros Eo.
    rewrite (sort_insert_stable x s out t Hx Fs Eo).
    cbn [filter]. now rewrite (IH s Es).
Qed.

Lemma js_sort_sorted (l : list value) :
  Forall timed l ->
  exists out,
    js_sort compare l = Ret out
    /\ Permutation l out
    /\ Forall timed out
    /\ StronglySorted earlier out.
Proof.
  intros Hl. induction Hl as [ | x r Hx Hr IH ].
  - exists []. cbn. repeat split; constructor.
  - destruct IH as (s & Es & Ps & Fs & Ss).
    cbn [js_sort]. rewrite Es. cbn [rbind].
    destruct (sort_insert_sorted x s Hx Fs) as (out & Eo & Po & Fo & So).
    exists out. split; [ exact Eo | ]. split; [ | split; auto ].
    etransitivity; [ | exact Po ]. now constructor.
Qed.

End SortFacts.

(** ** The reorganiser as a sequence of assignments *)

Section ReorganizeFacts.
Context {H : DateHost}.

(** [reorganized[k] = v] for each entry in turn. *)
Definition assign_all (r : object) (entries : list (string * value)) : object :=
  fold_left (fun r kv => obj_set r (fst kv) (snd kv)) entries r.

Definition simple_entries (entries : list (string * value))
  : list (string * value) :=
  filter (fun kv => negb (is_complex (snd kv))) entries.

Definition complex_entries (entries : list (string * value))
  : list (string * value) :=
  filter (fun kv => is_complex (snd kv)) entries.

(** The value the second pass leaves under [key]: the [events] and [log]
    arrays are sorted, anything else is as it was. *)
Definition final_value (key : string) (v : value) : res value :=
  match v with
  | VArr l =>
      if key =? "events"
      then rbind (js_sort compare_events l) (fun l' => Ret (VArr l'))
      else if key =? "log"
      then rbind (js_sort compare_log l) (fun l' => Ret (VArr l'))
      else Ret v
  | _ => Ret v
  end.

Definition final_entry (kv : string * value) : string * value :=
  (fst kv, match final_value (fst kv) (snd kv) with
           | Ret v' => v'
           | _ => snd kv
           end).

Lemma first_pass_eq (entries : list (string * value)) (r : object)
  (ck : list string) :
  first_pass entries r ck
  = (assign_all r (simple_entries entries),
     (ck ++ map fst (complex_entries entries))%list).
Proof.
  revert r ck. induction entries as [ | [k v] es IH ]; intros r ck.
  - cbn. now rewrite app_nil_r.
  - cbn [first_pass simple_entries complex_entries filter snd].
    destruct (is_complex v); cbn [negb].
    + rewrite IH. cbn [map fst]. now rewrite <- app_assoc.
    + rewrite IH. reflexivity.
Qed.

Lemma own_replace_replace (o : object) (k : string) (v v' : value) :
  own_replace (own_replace o k v) k v' = own_replace o k v'.
Proof.
  induction o as [ | [k0 v0] r IH ]; cbn; [ reflexivity | ].
  destruct (k0 =? k) eqn:E; cbn; rewrite E; [ reflexivity | now rewrite IH ].
Qed.

Lemma own_replace_absent (o : object) (k : string) (v : value) :
  own_get o k = None -> own_replace o k v = o.
Proof.
  induction o as [ | [k0 v0] r IH ]; cbn; [ reflexivity | ].
  destruct (k0 =? k); [ discriminate | ]. intros E. now rewrite IH.
Qed.

Lemma own_replace_app_new (o : object) (k : string) (v v' : value) :
  own_get o k = None ->
  own_replace (o ++ [(k, v)])%list k v' = (o ++ [(k, v')])%list.
Proof.
  induction o as [ | [k0 v0] r IH ]; cbn.
  - now rewrite String.eqb_refl.
  - destruct (k0 =? k); [ discriminate | ]. intros E. now rewrite IH.
Qed.

Lemma own_replace_insert_new (o : object) (n : N) (k : string) (v v' : value) :
  own_get o k = None ->
  own_replace (insert_index o n k v) k v' = insert_index o n k v'.
Proof.
  induction o as [ | [k0 v0] r IH ]; cbn.
  - now rewrite String.eqb_refl.
  - destruct (k0 =? k) eqn:E; [ discriminate | ]. intros Hn.
    destruct (array_index k0) as [ m | ]; [ destruct (m <? n)%N | ]; cbn;
      rewrite ?E, ?String.eqb_refl, ?IH; auto.
Qed.

(** Writing a property again replaces the value written before. *)
Lemma own_replace_obj_set (o : object) (k : string) (v v' : value) :
  own_replace (obj_set o k v) k v' = obj_set o k v'.
Proof.
  unfold obj_set, has_own. destruct (own_get o k) eqn:E.
  - apply own_replace_replace.
  - destruct (k =? "__proto__"); [ now apply own_replace_absent | ].
    destruct (array_index k).
    + now apply own_replace_insert_new.
    + now apply own_replace_app_new.
Qed.

Lemma place_complex_eq (source reorganized : object) (key : string) (v : value) :
  own_get source key = Some v ->
  place_complex source reorganized key
  = rbind (final_value key v) (fun v' => Ret (obj_set reorganized key v')).
Proof.
  intros E. unfold place_complex, final_value. rewrite E.
  destruct v as [ | | | | l | ]; try reflexivity.
  destruct (key =? "events").
  - destruct (js_sort compare_events l); cbn [rbind]; try reflexivity.
    now rewrite own_replace_obj_set.
  - destruct (key =? "log"); [ | reflexivity ].
    destruct (js_sort compare_log l); cbn [rbind]; try reflexivity.
    now rewrite own_replace_obj_set.
Qed.

Lemma own_get_In (o : object) (k : string) (v : value) :
  NoDup (keys o) -> In (k, v) o -> own_get o k = Some v.
Proof.
  unfold keys. induction o as [ | [k0 v0] r IH ]; cbn; [ intros _ [] | ].
  intros Hnd [ [= -> ->] | Hin ].
  - now rewrite String.eqb_refl.
  - inversion Hnd as [ | ? ? Hnot Hnd' ]; subst.
    destruct (k0 =? k) eqn:E.
    + apply String.eqb_eq in E. subst k0. exfalso. apply Hnot.
      change k with (fst (k, v)). now apply in_map.
    + auto.
Qed.

(** When every sort succeeds, the second pass assigns the final values in
    the order of the keys. *)
Lemma second_pass_eq (source : object) (entries : list (string * value))
  (r : object) :
  (forall k v, In (k, v) entries -> own_get source k = Some v) ->
  (forall k v, In (k, v) entries -> exists v', final_value k v = Ret v') ->
  second_pass source (map fst entries) r
  = Ret (assign_all r (map final_entry entries)).
Proof.
  revert r. induction entries as [ | [k v] es IH ]; intros r Hs Hf.
  - reflexivity.
  - cbn [map fst second_pass].
    rewrite (place_complex_eq source r k v) by (apply Hs; now left).
    destruct (Hf k v (or_introl eq_refl)) as (v' & Ev).
    rewrite Ev. cbn [rbind].
    rewrite IH.
    + unfold final_entry at 2. cbn [fst snd]. rewrite Ev. reflexivity.
    + intros k0 v0 Hin. apply Hs. now right.
    + intros k0 v0 Hin. apply Hf. now right.
Qed.

(** The reorganiser, when every sort succeeds: the simple entries are
    assigned first, then the complex entries with their final values. *)
Lemma reorganize_eq (d : object) :
  NoDup (keys d) ->
  (forall k v, In (k, v) (complex_entries d) ->
     exists v', final_value k v = Ret v') ->
  reorganize (VObj d)
  = Ret (assign_all [] (simple_entries d
                         ++ map final_entry (complex_entries d))%list).
Proof.
  intros Hnd Hf. unfold reorganize. cbn [js_entries].
  rewrite first_pass_eq. cbn [app].
  rewrite second_pass_eq.
  - unfold assign_all. now rewrite fold_left_app.
  - intros k v Hin. apply own_get_In; [ exact Hnd | ].
    unfold complex_entries in Hin. now apply filter_In in Hin.
  - exact Hf.
Qed.

End ReorganizeFacts.

(** Documents used to run the reorganiser. *)
Definition stamped (t : string) : value := VObj [("timestamp", VStr t)].

Definition two_events : object :=
  [("id", VStr "s-1");
   ("events", VArr [stamped "2025-01-02T00:00:00Z";
                    stamped "2025-01-01T00:00:00Z"])].

Definition null_events : object := [("events", VArr [VNull; VNull])].

Definition unreadable_event : object :=
  [("events", VArr [stamped "2025-01-02T00:00:00Z";
                    stamped "soon";
                    stamped "2025-01-01T00:00:00Z"])].

Definition mixed : object :=
  [("b", VArr [VNum 1; VNum 2]); ("a", VNum 5); ("c", VObj [("x", VNum 1)])].

Definition numbered : object := [("1", VArr [VNum 1]); ("a", VNum 5)].

Definition proto_keyed : object :=
  [("__proto__", VObj [("x", VNum 1)]); ("a", VNum 5)].

Section ReorganizeClaims.
Context {H : DateHost}.

Lemma own_get_In_inv (o : object) (k : string) (v : value) :
  own_get o k = Some v -> In (k, v) o.
Proof.
  induction o as [ | [k0 v0] r IH ]; cbn; [ discriminate | ].
  destruct (k0 =? k) eqn:E.
  - apply String.eqb_eq in E. intros [= ->]. left. now subst.
  - intros Hg. right. auto.
Qed.

Lemma own_get_assign_all_notin (r : object) (entries : list (string * value))
  (k : string) :
  ~ In k (map fst entries) ->
  own_get (assign_all r entries) k = own_get r k.
Proof.
  revert r. induction entries as [ | [k0 v0] es IH ]; intros r Hn.
  - reflexivity.
  - cbn [assign_all fold_left fst snd]. fold (assign_all (obj_set r k0 v0) es).
    rewrite IH by (intros Hin; apply Hn; now right).
    apply own_get_obj_set_other. intros ->. apply Hn. now left.
Qed.

Lemma own_get_assign_all_in (r : object) (entries : list (string * value))
  (k : string) (v : value) :
  NoDup (map fst entries) -> In (k, v) entries -> k <> "__proto__" ->
  own_get (assign_all r entries) k = Some v.
Proof.
  revert r. induction entries as [ | [k0 v0] es IH ]; intros r Hnd Hin Hk.
  - destruct Hin.
  - cbn [assign_all fold_left fst snd]. fold (assign_all (obj_set r k0 v0) es).
    inversion Hnd as [ | ? ? Hnot Hnd' ]; subst.
    destruct Hin as [ [= -> ->] | Hin ].
    + rewrite own_get_assign_all_notin by exact Hnot.
      now apply own_get_obj_set_same.
    + now apply IH.
Qed.

Lemma filter_split_perm {A : Type} (p : A -> bool) (l : list A) :
  Permutation l (filter (fun x => negb (p x)) l ++ filter p l).
Proof.
  induction l as [ | x r IH ]; cbn; [ constructor | ].
  destruct (p x); cbn.
  - now apply Permutation_cons_app.
  - now constructor.
Qed.

Lemma map_fst_final (entries : list (string * value)) :
  map fst (map final_entry entries) = map fst entries.
Proof. rewrite map_map. reflexivity. Qed.

Lemma reorganized_keys_nodup (d : object) :
  NoDup (keys d) ->
  NoDup (map fst (simple_entries d ++ map final_entry (complex_entries d))).
Proof.
  intros Hnd. rewrite map_app, map_fst_final, <- map_app.
  eapply Permutation_NoDup; [ | exact Hnd ].
  apply Permutation_map. apply (filter_split_perm (fun kv => is_complex (snd kv))).
Qed.

(** The time an entry of [events] is sorted by, and the time an entry of
    [log] is sorted by. *)
Definition event_key (a : value) : option Z :=
  match event_time a with
  | Ret x => date_of x
  | _ => None
  end.

Definition log_key (a : value) : option Z :=
  match log_time a with
  | Ret x => date_of x
  | _ => None
  end.

Lemma compare_events_times (a b : value) (ta tb : Z) :
  event_key a = Some ta -> event_key b = Some tb ->
  compare_events a b = Ret (Some (ta - tb)%Z).
Proof.
  unfold event_key, compare_events, date_diff.
  destruct (event_time a) as [ xa | | ]; try discriminate.
  destruct (event_time b) as [ xb | | ]; try discriminate.
  cbn [rbind]. now intros -> ->.
Qed.

Lemma compare_log_times (a b : value) (ta tb : Z) :
  log_key a = Some ta -> log_key b = Some tb ->
  compare_log a b = Ret (Some (ta - tb)%Z).
Proof.
  unfold log_key, compare_log, date_diff.
  destruct (log_time a) as [ xa | | ]; try discriminate.
  destruct (log_time b) as [ xb | | ]; try discriminate.
  cbn [rbind]. now intros -> ->.
Qed.

(** A document the sorts of the second pass succeed on: every entry of
    an [events] array, and every entry of a [log] array, has a time. *)
Definition sortable (d : object) : Prop :=
  (forall l, own_get d "events" = Some (VArr l) -> Forall (timed event_key) l)
  /\ (forall l, own_get d "log" = Some (VArr l) -> Forall (timed log_key) l).

Lemma sortable_final (d : object) :
  NoDup (keys d) -> sortable d ->
  forall k v, In (k, v) (complex_entries d) ->
    exists v', final_value k v = Ret v'.
Proof.
  intros Hnd [He Hl] k v Hin.
  apply filter_In in Hin as [Hin _].
  apply (own_get_In d k v Hnd) in Hin.
  unfold final_value. destruct v as [ | | | | l | ]; eauto.
  destruct (k =? "events") eqn:Ee.
  - apply String.eqb_eq in Ee. subst k.
    destruct (js_sort_sorted compare_events event_key compare_events_times l
                (He l Hin)) as (out & E & _).
    rewrite E. cbn. eauto.
  - destruct (k =? "log") eqn:El; eauto.
    apply String.eqb_eq in El. subst k.
    destruct (js_sort_sorted compare_log log_key compare_log_times l
                (Hl l Hin)) as (out & E & _).
    rewrite E. cbn. eauto.
Qed.

(** What the claim on sorting says of an array [l] held under [key] and
    of the document [out]: under [key] is an arrangement of [l] into
    ascending order of time in which entries of equal time keep their
    order. *)
Definition sorted_under (time : value -> option Z) (key : string)
  (l : list value) (out : object) : Prop :=
  exists l',
    own_get out key = Some (VArr l')
    /\ Permutation l l'
    /\ StronglySorted (earlier time) l'
    /\ forall t, filter (at_time time t) l' = filter (at_time time t) l.

Lemma final_sorted (d : object) (key : string) (l : list value)
  (compare : value -> value -> res (option Z)) (time : value -> option Z) :
  (forall a b ta tb, time a = Some ta -> time b = Some tb ->
     compare a b = Ret (Some (ta - tb)%Z)) ->
  (forall l, final_value key (VArr l)
             = rbind (js_sort compare l) (fun l' => Ret (VArr l'))) ->
  key <> "__proto__" ->
  NoDup (keys d) ->
  own_get d key = Some (VArr l) ->
  Forall (timed time) l ->
  sorted_under time key l
    (assign_all [] (simple_entries d ++ map final_entry (complex_entries d))).
Proof.
  intros Hc Hfin Hk Hnd Hg Ht.
  destruct (js_sort_sorted compare time Hc l Ht) as (l' & E & P & F & S).
  exists l'. split; [ | split; [ exact P | split; [ exact S | ] ] ].
  - apply own_get_assign_all_in; [ now apply reorganized_keys_nodup | | exact Hk ].
    apply in_or_app. right.
    assert (Fe : final_entry (key, VArr l) = (key, VArr l')).
    { unfold final_entry. cbn [fst snd]. rewrite Hfin, E. reflexivity. }
    rewrite <- Fe.
    apply (in_map final_entry (complex_entries d) (key, VArr l)).
    apply filter_In. split; [ now apply own_get_In_inv | reflexivity ].
  - intros t. exact (js_sort_stable compare time Hc l l' t Ht E).
Qed.

(** C7, as amended.  For every document (with distinct keys) in which
    every entry of an [events] array and every entry of a [log] array is
    an entry with a time -- it is not [null], and its [timestamp] (for
    [log]: its [timestamp], or else its [time]) is missing, not truthy, or
    a date the engine reads -- the reorganiser returns a document in which
    [events] is arranged in ascending order of [timestamp] and [log] in
    ascending order of [timestamp]-or-else-[time], entries of equal time
    in their original order; an entry with neither has time 0. *)
Theorem reorganize_sorts (d : object) :
  NoDup (keys d) ->
  sortable d ->
  exists out,
    reorganize (VObj d) = Ret out
    /\ (forall l, own_get d "events" = Some (VArr l) ->
          sorted_under event_key "events" l out)
    /\ (forall l, own_get d "log" = Some (VArr l) ->
          sorted_under log_key "log" l out)
    /\ event_key (VObj []) = Some 0%Z
    /\ log_key (VObj []) = Some 0%Z
    /\ reorganize (VObj two_events)
       = Ret [("id", VStr "s-1");
              ("events", VArr [stamped "2025-01-01T00:00:00Z";
                               stamped "2025-01-02T00:00:00Z"])].
Proof.
  intros Hnd Hs. eexists. split.
  - apply reorganize_eq; [ exact Hnd | now apply sortable_final ].
  - destruct Hs as [He Hl].
    split; [ | split; [ | split; [ | split ]; reflexivity ] ].
    + intros l Hg.
      apply (final_sorted d "events" l compare_events event_key);
        auto using compare_events_times; discriminate.
    + intros l Hg.
      apply (final_sorted d "log" l compare_log log_key);
        auto using compare_log_times; discriminate.
Qed.

(** The keys that an assignment appends: neither integer-like nor
    [__proto__]. *)
Definition plain_key (k : string) : bool :=
  match array_index k with
  | Some _ => false
  | None => negb (k =? "__proto__")
  end.

Lemma obj_set_new (r : object) (k : string) (v : value) :
  own_get r k = None -> plain_key k = true ->
  obj_set r k v = (r ++ [(k, v)])%list.
Proof.
  unfold obj_set, has_own, plain_key. intros -> Hp.
  destruct (array_index k); [ discriminate | ].
  apply negb_true_iff in Hp. now rewrite Hp.
Qed.

Lemma own_get_absent (r : object) (k : string) :
  ~ In k (keys r) -> own_get r k = None.
Proof.
  unfold keys. induction r as [ | [k0 v0] r IH ]; cbn; [ reflexivity | ].
  intros Hn. destruct (k0 =? k) eqn:E.
  - apply String.eqb_eq in E. exfalso. apply Hn. now left.
  - apply IH. intros Hin. apply Hn. now right.
Qed.

Lemma assign_all_plain (r : object) (entries : list (string * value)) :
  NoDup (keys r ++ map fst entries) ->
  forallb plain_key (map fst entries) = true ->
  assign_all r entries = (r ++ entries)%list.
Proof.
  revert r. induction entries as [ | [k v] es IH ]; intros r Hnd Hp.
  - cbn. now rewrite app_nil_r.
  - cbn [assign_all fold_left fst snd]. fold (assign_all (obj_set r k v) es).
    cbn [map fst forallb] in Hp. apply andb_true_iff in Hp as [Hk Hp].
    cbn [map fst] in Hnd.
    rewrite obj_set_new; [ | | exact Hk ].
    + rewrite IH; [ now rewrite <- app_assoc | | exact Hp ].
      unfold keys. rewrite map_app. cbn [map fst]. rewrite <- app_assoc.
      exact Hnd.
    + apply own_get_absent. apply NoDup_remove_2 in Hnd.
      intros Hin. apply Hnd. apply in_or_app. now left.
Qed.

(** For a document whose keys are distinct and plain, and on which the
    sorts succeed, the reorganiser returns the simple entries followed by
    the complex entries, each group in its original order. *)
Lemma reorganize_plain_keys (d : object) :
  NoDup (keys d) ->
  forallb plain_key (keys d) = true ->
  sortable d ->
  reorganize (VObj d)
  = Ret (simple_entries d ++ map final_entry (complex_entries d))%list
  /\ keys (simple_entries d ++ map final_entry (complex_entries d))%list
     = (keys (simple_entries d) ++ keys (complex_entries d))%list.
Proof.
  intros Hnd Hp Hs. split.
  - rewrite reorganize_eq; [ | exact Hnd | now apply sortable_final ].
    rewrite assign_all_plain; [ reflexivity | | ].
    + cbn [keys map app]. now apply reorganized_keys_nodup.
    + rewrite map_app, map_fst_final, <- map_app.
      apply forallb_forall. intros k Hin.
      rewrite forallb_forall in Hp. apply Hp.
      eapply Permutation_in; [ | exact Hin ].
      symmetry. apply Permutation_map.
      apply (filter_split_perm (fun kv => is_complex (snd kv))).
  - unfold keys. now rewrite map_app, map_fst_final.
Qed.

(** C6, on the example of the claim and at a document with an
    integer-like key.  [{ b: [1,2], a: 5, c: {x:1} }] comes out in the
    key order a, b, c.  The keys of [{ 1: [1], a: 5 }] are enumerated
    1, a; the value under 1 is complex and the value under a is simple,
    yet the keys of the result are again 1, a: the complex entry precedes
    the simple one.  And a document with an own [__proto__] key loses
    that key. *)
Theorem reorganize_integer_key :
  reorganize (VObj mixed)
  = Ret [("a", VNum 5); ("b", VArr [VNum 1; VNum 2]);
         ("c", VObj [("x", VNum 1)])]
  /\ keys (simple_entries numbered) = ["a"]
  /\ keys (complex_entries numbered) = ["1"]
  /\ reorganize (VObj numbered) = Ret [("1", VArr [VNum 1]); ("a", VNum 5)]
  /\ reorganize (VObj proto_keyed) = Ret [("a", VNum 5)].
Proof. repeat split. Qed.

End ReorganizeClaims.

Lemma reorganize_sorts_witness :
  exists out,
    reorganize (VObj two_events) = Ret out
    /\ (forall l, own_get two_events "events" = Some (VArr l) ->
          sorted_under event_key "events" l out)
    /\ (forall l, own_get two_events "log" = Some (VArr l) ->
          sorted_under log_key "log" l out)
    /\ event_key (VObj []) = Some 0%Z
    /\ log_key (VObj []) = Some 0%Z
    /\ reorganize (VObj two_events)
       = Ret [("id", VStr "s-1");
              ("events", VArr [stamped "2025-01-01T00:00:00Z";
                               stamped "2025-01-02T00:00:00Z"])].
Proof.
  apply (reorganize_sorts two_events).
  - repeat constructor; cbn; intuition discriminate.
  - split; intros l [= <-].
    repeat constructor; eexists; vm_compute; reflexivity.
Defined.

(** C7 as stated fails: an [events] array with [null] entries makes the
    reorganiser throw; and with a timestamp that is no date the array is
    left in an order in which a later time precedes an earlier one. *)
Lemma reorganize_sorts_counterexample :
  reorganize (VObj null_events) = Throw (type_error "read" "timestamp")
  /\ reorganize (VObj unreadable_event) = Ret unreadable_event
  /\ event_key (stamped "2025-01-02T00:00:00Z") = Some 1735776000000%Z
  /\ event_key (stamped "soon") = None
  /\ event_key (stamped "2025-01-01T00:00:00Z") = Some 1735689600000%Z.
Proof. vm_compute. repeat split. Qed.

(** ** Printing and reading a date *)

(** *** Numerals *)

Lemma digit_of_digit_char (d : N) :
  (d < 10)%N -> digit_of (digit_char d) = Some d.
Proof.
  intros Hd.
  assert (E : In d [0; 1; 2; 3; 4; 5; 6; 7; 8; 9]%N).
  { destruct d as [ | p ]; [ now left | ].
    do 10 (destruct p as [ p | p | ]; try lia; cbn; auto 12). }
  cbn in E.
  repeat (destruct E as [ <- | E ]; [ reflexivity | ]). destruct E.
Qed.

Lemma pad_digits_acc (w : nat) (n : N) (acc : string) :
  pad_digits w n acc = pad_digits w n EmptyString ++ acc.
Proof.
  revert n acc. induction w as [ | w IH ]; intros n acc; cbn [pad_digits].
  - reflexivity.
  - rewrite (IH _ (String _ acc)), (IH _ (String _ EmptyString)).
    rewrite append_assoc. reflexivity.
Qed.

(** Reading the [w] digits that [pad_digits] wrote continues with the
    number they denote. *)
Lemma read_pad_digits (w k : nat) (n a : N) (acc : string) :
  read_digits (w + k) (pad_digits w n acc) a
  = read_digits k acc (a * 10 ^ N.of_nat w + n mod 10 ^ N.of_nat w)%N.
Proof.
  revert k n a acc. induction w as [ | w IH ]; intros k n a acc.
  - cbn [pad_digits Nat.add N.of_nat]. f_equal.
    rewrite N.pow_0_r, N.mod_1_r. lia.
  - cbn [pad_digits]. replace (S w + k) with (w + S k) by lia.
    rewrite IH. cbn [read_digits].
    rewrite digit_of_digit_char by (apply N.mod_lt; lia).
    f_equal.
    rewrite Nat2N.inj_succ, N.pow_succ_r'.
    set (p := (10 ^ N.of_nat w)%N).
    assert (Hp : (0 < p)%N) by (apply N.neq_0_lt_0, N.pow_nonzero; lia).
    rewrite (N.Div0.mod_mul_r n 10 p). lia.
Qed.

Lemma read_pad (w : nat) (n : Z) (rest : string) :
  (0 <= n < 10 ^ Z.of_nat w)%Z ->
  read_digits w (pad w n ++ rest) 0 = Some (n, rest).
Proof.
  intros Hn. unfold pad. rewrite <- pad_digits_acc.
  replace w with (w + 0) at 1 by lia.
  rewrite read_pad_digits. cbn [read_digits]. f_equal. f_equal.
  rewrite N.mod_small.
  - lia.
  - apply N2Z.inj_lt. rewrite N2Z.inj_pow, Z2N.id by lia.
    rewrite nat_N_Z. cbn. lia.
Qed.

(** *** The calendar *)

Section Calendar.
Import JsDate.
Local Open Scope Z_scope.

(** Between two days of the era that fall in the same month, every day
    falls in that month. *)
Lemma civil_parts_between (lo hi x : Z) :
  lo <= x <= hi -> civil_parts lo = civil_parts hi ->
  civil_parts x = civil_parts lo.
Proof.
  intros Hx. unfold civil_parts. cbv zeta. intros E.
  pose proof (f_equal (fun p => fst (fst (fst p))) E) as Ec.
  pose proof (f_equal (fun p => snd (fst (fst p))) E) as Ef.
  pose proof (f_equal (fun p => snd (fst p)) E) as Ey.
  pose proof (f_equal (fun p => snd p) E) as Em.
  cbv beta in Ec, Ef, Ey, Em. cbn [fst snd] in Ec, Ef, Ey, Em. clear E.
  assert (Hc : Z.min (x / 36524) 3 = Z.min (lo / 36524) 3).
  { pose proof (Z.div_le_mono lo x 36524 ltac:(lia) ltac:(lia)).
    pose proof (Z.div_le_mono x hi 36524 ltac:(lia) ltac:(lia)). lia. }
  rewrite Hc. set (c := Z.min (lo / 36524) 3) in *. rewrite <- Ec in *.
  assert (Hf : (x - c * 36524) / 1461 = (lo - c * 36524) / 1461).
  { pose proof (Z.div_le_mono (lo - c * 36524) (x - c * 36524) 1461
                  ltac:(lia) ltac:(lia)).
    pose proof (Z.div_le_mono (x - c * 36524) (hi - c * 36524) 1461
                  ltac:(lia) ltac:(lia)). lia. }
  rewrite Hf. set (f := (lo - c * 36524) / 1461) in *. rewrite <- Ef in *.
  assert (Hy : Z.min ((x - c * 36524 - f * 1461) / 365) 3
               = Z.min ((lo - c * 36524 - f * 1461) / 365) 3).
  { pose proof (Z.div_le_mono (lo - c * 36524 - f * 1461)
                  (x - c * 36524 - f * 1461) 365 ltac:(lia) ltac:(lia)).
    pose proof (Z.div_le_mono (x - c * 36524 - f * 1461)
                  (hi - c * 36524 - f * 1461) 365 ltac:(lia) ltac:(lia)). lia. }
  rewrite Hy. set (y1 := Z.min ((lo - c * 36524 - f * 1461) / 365) 3) in *.
  rewrite <- Ey in *.
  f_equal.
  pose proof (Z.div_le_mono (5 * (lo - c * 36524 - f * 1461 - y1 * 365) + 2)
                (5 * (x - c * 36524 - f * 1461 - y1 * 365) + 2) 153
                ltac:(lia) ltac:(lia)).
  pose proof (Z.div_le_mono (5 * (x - c * 36524 - f * 1461 - y1 * 365) + 2)
                (5 * (hi - c * 36524 - f * 1461 - y1 * 365) + 2) 153
                ltac:(lia) ltac:(lia)).
  lia.
Qed.

(** In a month, the date advances with the day of the era. *)
Lemma civil_of_doe_between (lo hi x yoe m d : Z) :
  lo <= x <= hi -> civil_parts lo = civil_parts hi ->
  civil_of_doe lo = (yoe, m, d) ->
  civil_of_doe x = (yoe, m, d + (x - lo)).
Proof.
  intros Hx E. unfold civil_of_doe.
  rewrite (civil_parts_between lo hi x Hx E).
  destruct (civil_parts lo) as [[[c f] y1] mp]. cbv zeta.
  intros E0.
  pose proof (f_equal (fun p => fst (fst p)) E0) as E1.
  pose proof (f_equal (fun p => snd (fst p)) E0) as E2.
  pose proof (f_equal (fun p => snd p) E0) as E3.
  cbv beta in E1, E2, E3. cbn [fst snd] in E1, E2, E3.
  rewrite E1, E2. f_equal. lia.
Qed.

(** One month checked at its two ends: for year [yy] of a 400-year cycle
    and month [m], the first and the last day of the month are days of the
    era that fall in the same month, and the first gives back its date. *)
Definition month_check (yy m : Z) : bool :=
  let yoe := (if m <=? 2 then yy - 1 else yy) mod 400 in
  let lo := doe_of_civil yoe m 1 in
  let hi := doe_of_civil yoe m (days_in_month yy m) in
  (0 <=? lo) && (hi <? 146097)
  && match civil_of_doe lo with
     | (a, b, c) => (a =? yoe) && (b =? m) && (c =? 1)
     end
  && match civil_parts lo, civil_parts hi with
     | (c, f, y1, mp), (c', f', y1', mp') =>
         (c =? c') && (f =? f') && (y1 =? y1') && (mp =? mp')
     end.

Definition range (lo : Z) (n : nat) : list Z :=
  map (fun i => lo + Z.of_nat i) (seq 0 n).

(** The 4800 months of an era, checked by computation. *)
Lemma months_checked :
  forallb (fun yy => forallb (month_check yy) (range 1 12)) (range 0 400)
  = true.
Proof. vm_compute. reflexivity. Qed.

Lemma in_range (lo x : Z) (n : nat) :
  lo <= x < lo + Z.of_nat n -> In x (range lo n).
Proof.
  intros Hx. unfold range.
  replace x with ((fun i => lo + Z.of_nat i) (Z.to_nat (x - lo))) by (cbv beta; lia).
  apply (in_map (fun i => lo + Z.of_nat i)). apply in_seq. lia.
Qed.

Lemma days_in_month_pos (y m : Z) : 28 <= days_in_month y m <= 31.
Proof.
  unfold days_in_month.
  destruct (m =? 2); [ destruct (leap y); lia | ].
  destruct ((m =? 4) || (m =? 6) || (m =? 9) || (m =? 11))%bool; lia.
Qed.

Lemma doe_of_civil_day (yoe m d : Z) :
  doe_of_civil yoe m d = doe_of_civil yoe m 1 + (d - 1).
Proof. unfold doe_of_civil. cbv zeta. lia. Qed.

(** Every day of the era is in range and gives back its date. *)
Lemma civil_of_doe_of_civil (yy m d : Z) :
  0 <= yy < 400 -> 1 <= m <= 12 -> 1 <= d <= days_in_month yy m ->
  let yoe := (if m <=? 2 then yy - 1 else yy) mod 400 in
  0 <= doe_of_civil yoe m d < 146097
  /\ civil_of_doe (doe_of_civil yoe m d) = (yoe, m, d).
Proof.
  intros Hy Hm Hd yoe.
  pose proof months_checked as E.
  rewrite forallb_forall in E.
  specialize (E yy (in_range 0 yy 400 ltac:(lia))).
  rewrite forallb_forall in E.
  specialize (E m (in_range 1 m 12 ltac:(lia))).
  unfold month_check in E. cbv zeta in E. fold yoe in E.
  rewrite (doe_of_civil_day yoe m (days_in_month yy m)) in E.
  rewrite (doe_of_civil_day yoe m d).
  set (lo := doe_of_civil yoe m 1) in *.
  apply andb_true_iff in E as [E Ep].
  apply andb_true_iff in E as [E Ec].
  apply andb_true_iff in E as [Elo Ehi].
  apply Z.leb_le in Elo. apply Z.ltb_lt in Ehi.
  split; [ lia | ].
  assert (P : civil_parts lo = civil_parts (lo + (days_in_month yy m - 1))).
  { destruct (civil_parts lo) as [[[c f] y1] mp].
    destruct (civil_parts (lo + (days_in_month yy m - 1))) as [[[c' f'] y1'] mp'].
    apply andb_true_iff in Ep as [Ep E4].
    apply andb_true_iff in Ep as [Ep E3].
    apply andb_true_iff in Ep as [E1 E2].
    apply Z.eqb_eq in E1, E2, E3, E4. now subst. }
  assert (L : civil_of_doe lo = (yoe, m, 1)).
  { destruct (civil_of_doe lo) as [[a b] c].
    apply andb_true_iff in Ec as [Ec E3].
    apply andb_true_iff in Ec as [E1 E2].
    apply Z.eqb_eq in E1, E2, E3. now subst. }
  rewrite (civil_of_doe_between lo (lo + (days_in_month yy m - 1))
             (lo + (d - 1)) yoe m 1 ltac:(lia) P L).
  f_equal. lia.
Qed.

Lemma leap_mod (y : Z) : leap (y mod 400) = leap y.
Proof.
  unfold leap.
  rewrite (Z.mod_mod_divide y 400 4) by (now exists 100).
  rewrite (Z.mod_mod_divide y 400 100) by (now exists 4).
  now rewrite Z.mod_mod by lia.
Qed.

Lemma days_in_month_mod (y m : Z) :
  days_in_month (y mod 400) m = days_in_month y m.
Proof. unfold days_in_month. now rewrite leap_mod. Qed.

(** The civil date of the day number of a date is that date, in every
    year. *)
Lemma civil_from_days_from_civil (y m d : Z) :
  1 <= m <= 12 -> 1 <= d <= days_in_month y m ->
  civil_from_days (days_from_civil y m d) = (y, m, d).
Proof.
  intros Hm Hd.
  pose proof (civil_of_doe_of_civil (y mod 400) m d) as C.
  rewrite days_in_month_mod in C.
  specialize (C (Z.mod_pos_bound y 400 ltac:(lia)) Hm Hd).
  cbv zeta in C.
  unfold civil_from_days, days_from_civil.
  set (y' := if m <=? 2 then y - 1 else y).
  assert (Ey : (if m <=? 2 then y mod 400 - 1 else y mod 400) mod 400
               = y' - y' / 400 * 400).
  { unfold y'. destruct (m <=? 2).
    - rewrite Zminus_mod_idemp_l. rewrite Z.mod_eq by lia. lia.
    - rewrite Z.mod_mod by lia. rewrite Z.mod_eq by lia. lia. }
  rewrite Ey in C. cbv zeta.
  set (era := y' / 400) in *.
  set (doe := doe_of_civil (y' - era * 400) m d) in *.
  destruct C as [[C0 C1] C2].
  replace (era * 146097 + doe - 719468 + 719468) with (doe + era * 146097)
    by lia.
  rewrite Z.div_add by lia. rewrite (Z.div_small doe) by lia.
  replace (doe + era * 146097 - (0 + era) * 146097) with doe by lia.
  rewrite C2.
  f_equal. f_equal. unfold y'. destruct (m <=? 2); lia.
Qed.

End Calendar.

(** *** The complete form of an instant *)

(** [YYYY-MM-DDTHH:mm:ss.sssZ] *)
Definition iso_string (y mo d h mi s ms : Z) : string :=
  pad 4 y ++ "-" ++ pad 2 mo ++ "-" ++ pad 2 d
  ++ "T" ++ pad 2 h ++ ":" ++ pad 2 mi ++ ":" ++ pad 2 s
  ++ "." ++ pad 3 ms ++ "Z".

Section IsoFacts.
Variables y mo d h mi s ms : Z.
Hypothesis valid : JsDate.valid_fields y mo d h mi s ms = true.

Lemma valid_bounds :
  (0 <= y <= 9999 /\ 1 <= mo <= 12 /\ 1 <= d <= JsDate.days_in_month y mo
   /\ 0 <= h <= 23 /\ 0 <= mi <= 59 /\ 0 <= s <= 59 /\ 0 <= ms <= 999)%Z.
Proof.
  pose proof valid as V. unfold JsDate.valid_fields in V.
  repeat (apply andb_true_iff in V; destruct V as [V ?]).
  repeat match goal with
         | H : (_ <=? _)%Z = true |- _ => apply Z.leb_le in H
         end.
  lia.
Qed.

Lemma day_le_31 : (d <= 31)%Z.
Proof.
  pose proof valid_bounds. pose proof (days_in_month_pos y mo). lia.
Qed.

Lemma iso_utc_iso_string :
  iso_utc (iso_string y mo d h mi s ms)
  = Some (JsDate.time_value y mo d h mi s ms).
Proof.
  pose proof valid_bounds as B. pose proof day_le_31 as D31.
  unfold iso_utc, iso_string.
  rewrite read_pad by (cbn; lia). cbn [obind expect append Ascii.eqb Bool.eqb].
  rewrite read_pad by (cbn; lia). cbn [obind expect append Ascii.eqb Bool.eqb].
  rewrite read_pad by (cbn; lia). cbn [obind expect append Ascii.eqb Bool.eqb].
  rewrite read_pad by (cbn; lia). cbn [obind expect append Ascii.eqb Bool.eqb].
  rewrite read_pad by (cbn; lia). cbn [obind read_seconds append].
  rewrite read_pad by (cbn; lia). cbn [obind append].
  rewrite read_pad by (cbn; lia). cbn [obind].
  now rewrite valid.
Qed.

Lemma toISOString_time_value :
  toISOString (JsDate.time_value y mo d h mi s ms)
  = iso_string y mo d h mi s ms.
Proof.
  pose proof valid_bounds as B.
  unfold toISOString, iso_string, JsDate.time_value, JsDate.msPerDay.
  set (n := JsDate.days_from_civil y mo d).
  set (r := (h * 3600000 + mi * 60000 + s * 1000 + ms)%Z).
  replace (n * 86400000 + h * 3600000 + mi * 60000 + s * 1000 + ms)%Z
    with (r + n * 86400000)%Z by (unfold r; lia).
  assert (Hr : (0 <= r < 86400000)%Z) by (unfold r; lia).
  rewrite Z.div_add, Z.mod_add by lia.
  rewrite Z.div_small, Z.mod_small by lia. cbn [Z.add].
  unfold n. rewrite civil_from_days_from_civil by lia.
  assert (Eh : (r / 3600000 = h)%Z).
  { symmetry. apply (Z.div_unique r 3600000 h (mi * 60000 + s * 1000 + ms));
      unfold r; lia. }
  assert (Emi : ((r / 60000) mod 60 = mi)%Z).
  { replace (r / 60000)%Z with (h * 60 + mi)%Z.
    - rewrite Z.add_comm, Z.mod_add by lia. apply Z.mod_small. lia.
    - apply (Z.div_unique r 60000 (h * 60 + mi) (s * 1000 + ms));
        unfold r; lia. }
  assert (Es : ((r / 1000) mod 60 = s)%Z).
  { replace (r / 1000)%Z with ((h * 60 + mi) * 60 + s)%Z.
    - rewrite Z.add_comm, Z.mod_add by lia. apply Z.mod_small. lia.
    - apply (Z.div_unique r 1000 ((h * 60 + mi) * 60 + s) ms);
        unfold r; lia. }
  assert (Ems : (r mod 1000 = ms)%Z).
  { symmetry. apply (Z.mod_unique r 1000 ((h * 60 + mi) * 60 + s) ms);
      unfold r; lia. }
  rewrite Eh, Emi, Es, Ems.
  assert (Ey : ((0 <=? y) && (y <=? 9999))%Z = true).
  { apply andb_true_iff. split; apply Z.leb_le; lia. }
  now rewrite Ey.
Qed.

End IsoFacts.

Lemma matches_length (p : list pat) (s : string) :
  matches p s = true -> List.length p = String.length s.
Proof.
  revert s. induction p as [ | [ | c ] p IH ]; intros [ | c' s ]; cbn;
    try discriminate; try reflexivity.
  - intros E. apply andb_true_iff in E as [_ E]. f_equal. auto.
  - intros E. apply andb_true_iff in E as [_ E]. f_equal. auto.
Qed.

Lemma length_pad_digits (w : nat) (n : N) (acc : string) :
  String.length (pad_digits w n acc) = (w + String.length acc)%nat.
Proof.
  revert n acc. induction w as [ | w IH ]; intros n acc; cbn [pad_digits].
  - reflexivity.
  - rewrite IH. cbn [String.length]. lia.
Qed.

Lemma length_iso_string (y mo d h mi s ms : Z) :
  String.length (iso_string y mo d h mi s ms) = 24%nat.
Proof.
  unfold iso_string, pad.
  rewrite !length_append, !length_pad_digits. reflexivity.
Qed.

(** A complete instant matches none of the truncated patterns, whatever
    its digits. *)
Lemma dateString_iso_string (y mo d h mi s ms : Z) :
  dateString (iso_string y mo d h mi s ms) = iso_string y mo d h mi s ms.
Proof.
  unfold dateString.
  assert (E : forall p, List.length p <> 24%nat ->
            matches p (iso_string y mo d h mi s ms) = false).
  { intros p Hp. destruct (matches p _) eqn:M; [ | reflexivity ].
    apply matches_length in M. rewrite length_iso_string in M. congruence. }
  rewrite !E by (cbn; lia). reflexivity.
Qed.

Section Normalised.
Context {H : DateHost}.

(** Normalising a complete instant with fields in range gives it back. *)
Lemma normalizeTimestamp_iso_string (y mo d h mi s ms : Z) :
  JsDate.valid_fields y mo d h mi s ms = true ->
  normalizeTimestamp (iso_string y mo d h mi s ms)
  = iso_string y mo d h mi s ms.
Proof.
  intros V. unfold normalizeTimestamp, Date_parse.
  rewrite dateString_iso_string, (iso_utc_iso_string _ _ _ _ _ _ _ V).
  now apply toISOString_time_value.
Qed.


End Normalised.


(* ================================================================== *)
(** * More of the program: the store *)

Section StoreMore.
Context {Y : Yaml}.

(** Writing a property twice: the last value is the one that stays. *)
Lemma obj_set_obj_set (o : object) (k : string) (v v' : value) :
  obj_set (obj_set o k v) k v' = obj_set o k v'.
Proof.
  destruct (has_own o k) eqn:Ho.
  - unfold obj_set at 1 3. rewrite Ho.
    unfold obj_set, has_own in *.
    destruct (own_get o k) as [ x | ] eqn:E; [ | discriminate ].
    rewrite (own_get_replace_same o k v x E). apply own_replace_replace.
  - destruct (k =? "__proto__") eqn:P.
    + unfold obj_set. rewrite Ho, P. cbv iota. rewrite ?Ho, ?P. reflexivity.
    + assert (Hk : k <> "__proto__") by (now apply String.eqb_neq).
      unfold obj_set at 1. unfold has_own.
      rewrite (own_get_obj_set_same o k v Hk). apply own_replace_obj_set.
Qed.

Lemma with_domain_with_domain (config : value) (domain : string)
  (r r' : value) :
  wf_config config = true ->
  with_domain (with_domain config domain r) domain r'
  = with_domain config domain r'.
Proof.
  intros Hwf.
  destruct config as [ | | | | | o ]; try discriminate.
  pose (o1 := match own_get o "domains" with
              | Some (VObj _) => o
              | _ => obj_set o "domains" (VObj [])
              end).
  pose (ds := domains_of (VObj o)).
  change (with_domain (VObj o) domain r)
    with (VObj (own_replace o1 "domains" (VObj (obj_set ds domain r)))).
  change (with_domain (VObj o) domain r')
    with (VObj (own_replace o1 "domains" (VObj (obj_set ds domain r')))).
  assert (G : own_get (own_replace o1 "domains" (VObj (obj_set ds domain r)))
                      "domains"
              = Some (VObj (obj_set ds domain r))).
  { apply own_get_replace_domains. unfold o1.
    destruct (own_get o "domains") as [ [ | | | | | ds0 ] | ] eqn:E;
      try (rewrite own_get_obj_set_same; discriminate).
    rewrite E. discriminate. }
  unfold with_domain, domains_of. rewrite G.
  now rewrite own_replace_replace, obj_set_obj_set.
Qed.

(** What [saveConfig] wrote is what [loadConfig] returns, unless it is a
    value that is not truthy, which [loadConfig] replaces by the empty
    configuration. *)
Theorem saveConfig_then_loadConfig (config : value) (w : world) :
  saveConfig config w
  = ([EnsureDir; WriteFile (yaml_stringify config)],
     written (yaml_stringify config) (ensured w), Ret tt)
  /\ loadConfig (written (yaml_stringify config) (ensured w))
     = ([EnsureDir; PathExists; ReadFile],
        written (yaml_stringify config) (ensured w),
        Ret (if truthy config then config else empty_config)).
Proof.
  split; [ reflexivity | ].
  rewrite loadConfig_eq. unfold load_trace, loaded, written, ensured.
  cbn [config_file config_dir isDebugEnabled].
  rewrite yaml_parse_stringify. reflexivity.
Qed.

(** [loadConfig] only reads: it writes no file and sends no request, it
    leaves the file as it is, and loading again returns the same
    configuration. *)
Theorem loadConfig_repeatable (w : world) :
  exists t config,
    loadConfig w = (t, ensured w, Ret config)
    /\ existsb is_write t = false
    /\ existsb is_request t = false
    /\ config_file (ensured w) = config_file w
    /\ loadConfig (ensured w) = (t, ensured w, Ret config).
Proof.
  exists (load_trace w), (loaded w).
  rewrite !loadConfig_eq.
  split; [ reflexivity | ].
  split; [ apply load_trace_no_write | ].
  split; [ apply load_trace_no_request | ].
  split; reflexivity.
Qed.

(** Adding a domain twice: the file is the one that the second call
    alone would have written. *)
Theorem addDomain_last_wins (w : world) (domain apiKey apiKey' : string) :
  wf_store w ->
  exists t1 w1 t2 w2 t3 w3,
    addDomain domain apiKey w = (t1, w1, Ret tt)
    /\ addDomain domain apiKey' w1 = (t2, w2, Ret tt)
    /\ addDomain domain apiKey' w = (t3, w3, Ret tt)
    /\ config_file w2 = config_file w3.
Proof.
  intros Hwf.
  rewrite (addDomain_eq w domain apiKey Hwf).
  rewrite (addDomain_eq w domain apiKey' Hwf). cbv zeta.
  set (c1 := with_domain (loaded w) domain (domain_record apiKey)).
  set (w1 := written (yaml_stringify c1) (ensured w)).
  assert (L : loaded w1 = c1).
  { apply loaded_written. now apply with_domain_truthy. }
  assert (Hwf1 : wf_store w1).
  { unfold wf_store. rewrite L. now apply wf_config_with_domain. }
  do 2 eexists. do 4 eexists.
  split; [ reflexivity | ].
  fold c1. fold w1.
  rewrite (addDomain_eq w1 domain apiKey' Hwf1). cbv zeta. rewrite L.
  unfold c1. rewrite with_domain_with_domain by exact Hwf.
  split; [ reflexivity | ]. split; reflexivity.
Qed.

Definition is_scalar (v : value) : bool :=
  match v with
  | VBool _ | VNum _ | VStr _ => true
  | _ => false
  end.

(** When the file holds a scalar (a number, a string, a boolean) instead
    of a mapping, [addDomain] throws on the assignment through
    [config.domains], which is [undefined], and writes nothing. *)
Theorem addDomain_scalar_store (w : world) (domain apiKey : string) :
  is_scalar (loaded w) = true ->
  addDomain domain apiKey w
  = (load_trace w, ensured w, Throw (type_error "set" domain))
  /\ existsb is_write (load_trace w) = false.
Proof.
  intros Hs. split; [ | apply load_trace_no_write ].
  unfold addDomain. unfold bind at 1. rewrite loadConfig_eq.
  assert (E : ensure_domains (loaded w) = Ret (loaded w, Undefined)).
  { destruct (loaded w); try discriminate; reflexivity. }
  unfold bind, lift. rewrite E. cbn [fst snd set_domain].
  now rewrite !app_nil_r.
Qed.

Lemma without_domain_truthy (config : value) (domain : string) :
  wf_config config = true -> truthy (without_domain config domain) = true.
Proof. destruct config; try discriminate. reflexivity. Qed.

Lemma domains_of_without_domain (config : value) (domain : string) :
  wf_config config = true ->
  domains_of (without_domain config domain)
  = obj_delete (domains_of config) domain.
Proof.
  unfold without_domain, domains_of, wf_config.
  destruct config as [ | | | | | o ]; try discriminate.
  destruct (own_get o "domains") as [ v | ] eqn:E.
  - intros Hwf. rewrite own_get_replace_domains by (rewrite E; discriminate).
    destruct v; reflexivity.
  - intros _. rewrite own_replace_absent by exact E. now rewrite E.
Qed.

(** A domain that was added can be removed: [deleteDomain] finds it,
    and afterwards the store has no entry under the name while every other
    name holds what it held before the domain was added. *)
Theorem addDomain_then_deleteDomain (w : world) (domain apiKey : string) :
  wf_store w -> domain_name domain = true ->
  exists t1 w1 t2 w2 config,
    addDomain domain apiKey w = (t1, w1, Ret tt)
    /\ deleteDomain (Some domain) w1 = (t2, w2, Ret tt)
    /\ holds w2 config
    /\ own_get (domains_of config) domain = None
    /\ forall other,
         own_get (domains_of config) other
         = if other =? domain then None
           else own_get (domains_of (loaded w)) other.
Proof.
  intros Hwf Hd.
  assert (Hp : domain <> "__proto__").
  { intros ->. discriminate. }
  rewrite (addDomain_eq w domain apiKey Hwf). cbv zeta.
  set (c1 := with_domain (loaded w) domain (domain_record apiKey)).
  set (w1 := written (yaml_stringify c1) (ensured w)).
  assert (L : loaded w1 = c1).
  { apply loaded_written. now apply with_domain_truthy. }
  assert (Hwf1 : wf_store w1).
  { unfold wf_store. rewrite L. now apply wf_config_with_domain. }
  assert (D1 : domains_of c1
               = obj_set (domains_of (loaded w)) domain (domain_record apiKey)).
  { now apply own_get_domains_with_domain. }
  assert (G : own_get (domains_of (loaded w1)) domain
              = Some (domain_record apiKey)).
  { rewrite L, D1. now apply own_get_obj_set_same. }
  pose proof (deleteDomain_present_eq w1 domain _ Hwf1 Hd G) as Del.
  cbv zeta in Del. rewrite L in Del.
  set (c2 := without_domain c1 domain) in *.
  assert (W1 : wf_config c1 = true) by (rewrite <- L; exact Hwf1).
  assert (T2 : truthy c2 = true) by (now apply without_domain_truthy).
  assert (D2 : domains_of c2 = obj_delete (domains_of c1) domain)
    by (now apply domains_of_without_domain).
  do 4 eexists. exists c2.
  split; [ reflexivity | ]. split; [ exact Del | ].
  split.
  { apply holds_loaded. symmetry. now apply loaded_written. }
  rewrite D2, D1. split.
  - apply own_get_delete_same.
  - intros other. destruct (other =? domain) eqn:E.
    + apply String.eqb_eq in E. subst. apply own_get_delete_same.
    + apply String.eqb_neq in E.
      rewrite own_get_delete_other by exact E.
      now apply own_get_obj_set_other.
Qed.

End StoreMore.

(** A file that holds a string instead of a mapping. *)
Definition scribbled : world :=
  World true (Some (RefYaml.enc (VStr "notes"))) false.

Lemma addDomain_then_load_witness :
  exists t w1 t' w2 config,
    addDomain "new.example.io" "k-123456789" stocked = (t, w1, Ret tt)
    /\ loadConfig w1 = (t', w2, Ret config)
    /\ wf_store w1
    /\ own_get (domains_of config) "new.example.io"
       = Some (domain_record "k-123456789")
    /\ forall other, other <> "new.example.io" ->
         own_get (domains_of config) other
         = own_get (domains_of (loaded stocked)) other.
Proof.
  apply (addDomain_then_load stocked "new.example.io" "k-123456789").
  - reflexivity.
  - discriminate.
Defined.

Lemma addDomain_last_wins_witness :
  exists t1 w1 t2 w2 t3 w3,
    addDomain "example.com" "first-key-0001" stocked = (t1, w1, Ret tt)
    /\ addDomain "example.com" "second-key-0002" w1 = (t2, w2, Ret tt)
    /\ addDomain "example.com" "second-key-0002" stocked = (t3, w3, Ret tt)
    /\ config_file w2 = config_file w3.
Proof.
  apply (addDomain_last_wins stocked "example.com" "first-key-0001"
           "second-key-0002").
  reflexivity.
Defined.

Lemma addDomain_scalar_store_witness :
  addDomain "example.com" "abcdefghijkl" scribbled
  = (load_trace scribbled, ensured scribbled,
     Throw (type_error "set" "example.com"))
  /\ existsb is_write (load_trace scribbled) = false.
Proof.
  apply (addDomain_scalar_store scribbled "example.com" "abcdefghijkl").
  reflexivity.
Defined.

Lemma addDomain_then_deleteDomain_witness :
  exists t1 w1 t2 w2 config,
    addDomain "new.example.io" "k-123456789" stocked = (t1, w1, Ret tt)
    /\ deleteDomain (Some "new.example.io") w1 = (t2, w2, Ret tt)
    /\ holds w2 config
    /\ own_get (domains_of config) "new.example.io" = None
    /\ forall other,
         own_get (domains_of config) other
         = if other =? "new.example.io" then None
           else own_get (domains_of (loaded stocked)) other.
Proof.
  apply (addDomain_then_deleteDomain stocked "new.example.io" "k-123456789");
    reflexivity.
Defined.
(* ================================================================== *)
(** * More of the program: src/utils/api.js *)

(** What [client.get(url)] of axios settles with, before the
    interceptors of [createApiClient]: a response (with its status and
    its [data], [None] when there is no body), or an error that carries
    the response of the server ([error.response]), an error for a request
    that got no response ([error.request]), or an error raised before the
    request was sent, with its message.  The request object of the third
    is printed in debug mode (api.js line 82); [dump] is what
    [JSON.stringify] makes of it: a text, or the error it throws on an
    object it cannot serialise. *)
Inductive outcome : Type :=
| Resolved (status : Z) (data : option value)
| Rejected (status : Z) (statusText : string) (data : option value)
| NoResponse (dump : res string)
| NotSent (message : string).

Class Transport : Type := {
  transport_get : string -> slot -> outcome
}.

(** A network that is down. *)
Definition offline : Transport :=
  {| transport_get := fun _ _ => NoResponse (Ret "{}") |}.

(** A server that answers every request with status [status] and [doc]. *)
Definition serving (status : Z) (doc : value) : Transport :=
  {| transport_get := fun _ _ => Resolved status (Some doc) |}.

Section Api.
Context {H : DateHost}.

(** api.js lines 50-59, for the value of a field: the string that
    [dateString] becomes when one of the three patterns matches it (the
    test and the concatenation both work on the text of the value). *)
Definition completed (v : value) : option string :=
  let s := js_to_string v in
  if matches hour_pattern s then Some (s ++ ":00:00.000Z")
  else if matches minute_pattern s then Some (s ++ ":00.000Z")
  else if matches second_pattern s then Some (s ++ ".000Z")
  else None.

(** api.js line 61: [new Date(dateString).getTime()]. *)
Definition stamp_date (v : value) : option Z :=
  match completed v with
  | Some s => Date_parse s
  | None => date_of (Val v)
  end.

(** api.js lines 43-68, on an entry that is a mapping: a field with a
    truthy value that reads as a date is replaced by the complete form of
    the date. *)
Definition fix_field (entry : object) (field : string) : object :=
  match own_get entry field with
  | Some v =>
      if truthy v
      then match stamp_date v with
           | Some t => own_replace entry field (VStr (toISOString t))
           | None => entry
           end
      else entry
  | None => entry
  end.

(** api.js lines 40-70, for one entry of the log.  [entry[field]] throws
    on [null]; an entry that is no mapping has neither field. *)
Definition fix_entry (entry : value) : res value :=
  match entry with
  | VNull => Throw (type_error "read" "timestamp")
  | VObj o => Ret (VObj (fix_field (fix_field o "timestamp") "time"))
  | _ => Ret entry
  end.

Fixpoint fix_entries (l : list value) : res (list value) :=
  match l with
  | [] => Ret []
  | e :: r =>
      rbind (fix_entry e) (fun e' =>
      rbind (fix_entries r) (fun r' => Ret (e' :: r')))
  end.

(** The response interceptor of [createApiClient] (api.js lines 31-74)
    on the data of a response.  Only a mapping has a [log] property. *)
Definition intercept (data : option value) : res (option value) :=
  match data with
  | Some (VObj o) =>
      match own_get o "log" with
      | Some (VArr l) =>
          rbind (fix_entries l) (fun l' =>
          Ret (Some (VObj (own_replace o "log" (VArr l')))))
      | _ => Ret data
      end
  | _ => Ret data
  end.

(** What the promise of [client.get(url)] settles with once the
    interceptors have run: an error thrown by an interceptor rejects it,
    and that error carries neither response nor request. *)
Inductive reply : Type :=
| Response (status : Z) (data : option value)
| ErrResponse (status : Z) (statusText : string) (data : option value)
| ErrRequest
| ErrOther (message : string).

Definition through_interceptor (debugging : bool) (o : outcome) : reply :=
  match o with
  | Resolved status data =>
      match intercept data with
      | Ret data' => Response status data'
      | Throw message => ErrOther message
      | Exit _ => ErrOther EmptyString
      end
  | Rejected status statusText data => ErrResponse status statusText data
  | NoResponse dump =>
      if debugging
      then match dump with
           | Throw message => ErrOther message
           | _ => ErrRequest
           end
      else ErrRequest
  | NotSent message => ErrOther message
  end.

(** [`API Error: ${error.response.status} -
      ${error.response.data.message || error.response.statusText}`];
    reading [message] throws when the error response has no data. *)
Definition api_error (status : Z) (statusText : string) (data : option value)
  : res string :=
  match data with
  | None => Throw (type_error "read" "message")
  | Some d =>
      rbind (js_get d "message") (fun m =>
      Ret ("API Error: " ++ Z_to_string status ++ " - "
             ++ match m with
                | Val v => if truthy v then js_to_string v else statusText
                | _ => statusText
                end))
  end.

Definition network_error : string :=
  "Network Error: Unable to reach Cloudonix API".

(** The [catch] blocks of the accessors (api.js lines 129-137 and
    alike): the message of the error the accessor throws. *)
Definition accessor_failure (r : reply) : string :=
  match r with
  | Response _ _ => EmptyString
  | ErrResponse status statusText data =>
      match api_error status statusText data with
      | Ret message => message
      | Throw message => message
      | Exit _ => EmptyString
      end
  | ErrRequest => network_error
  | ErrOther message => "Error: " ++ message
  end.

(** What an accessor gives its caller. *)
Definition fetched_of (r : reply) : fetched :=
  match r with
  | Response _ data => Data data
  | _ => Failed (accessor_failure r)
  end.

Section OnTransport.
Context {T : Transport}.

(** The accessors of api.js over a transport, in or out of debug
    mode. *)
Definition api_remote (debugging : bool) : Remote :=
  {| client_get := fun url apiKey =>
       fetched_of (through_interceptor debugging (transport_get url apiKey)) |}.

(** [client.get(url)] of a client made by [createApiClient]: the
    request, then what the interceptors make of its outcome.  As for
    [request], the blocks that the [debug] calls of the interceptors print
    in debug mode belong to the event of the request; the flag they read
    is that of the state. *)
Definition api_get (url : string) (apiKey : slot) : M reply :=
  fun w =>
    ([HttpGet url apiKey], w,
     Ret (through_interceptor (isDebugEnabled w) (transport_get url apiKey))).

(** api.js, [validateDomain] (lines 99-115) *)
Definition validateDomain (domain apiKey : string) : M bool :=
  debug ("Validating domain '" ++ domain ++ "'") ;;;
  r <- api_get ("/customers/self/domains/" ++ domain) (Val (VStr apiKey)) ;;
  match r with
  | Response status _ => ret (status =? 200)%Z
  | ErrResponse status statusText data =>
      message <- lift (api_error status statusText data) ;;
      console_error message ;;;
      ret false
  | ErrRequest => console_error network_error ;;; ret false
  | ErrOther message => console_error ("Error: " ++ message) ;;; ret false
  end.

End OnTransport.
End Api.

(* ================================================================== *)
(** * More of the program: src/commands/configure.js and src/index.js *)

Record configure_options : Type := {
  cfg_domain : option string;      (* --domain <domain> *)
  cfg_apikey : option string       (* --apikey <apiKey> *)
}.

Section Configure.
Context {Y : Yaml} {H : DateHost} {T : Transport}.

Definition validating (domain : string) : string :=
  "Validating domain '" ++ domain ++ "'...".

Definition not_validated (domain : string) : string :=
  "Failed to validate domain '" ++ domain
    ++ "'. Please check the domain name and API key.".

Definition validated (domain : string) : string :=
  "Domain '" ++ domain ++ "' validated successfully.".

Definition configured (domain : string) : string :=
  "Domain '" ++ domain ++ "' configured successfully.".

(** configure.js, [configure] (lines 10-37) *)
Definition configure (options : configure_options) : M unit :=
  if missing (cfg_domain options) || missing (cfg_apikey options)
  then console_error "Both --domain and --apikey options are required" ;;;
       process_exit 1
  else
    let domain := text_of (cfg_domain options) in
    let apikey := text_of (cfg_apikey options) in
    try_catch
      (console_log (validating domain) ;;;
       isValid <- validateDomain domain apikey ;;
       if negb isValid
       then console_error (not_validated domain) ;;; process_exit 1
       else
         console_log (validated domain) ;;;
         addDomain domain apikey ;;;
         console_log (configured domain))
      (fun message =>
         console_error ("Error configuring domain: " ++ message) ;;;
         process_exit 1).

End Configure.

(** utils/debug.js, [isDebug] *)
Definition isDebug : M bool := fun w => ([], w, Ret (isDebugEnabled w)).

(** utils/debug.js, [enableDebug] *)
Definition enableDebug (w : world) : world :=
  {| config_dir := config_dir w;
     config_file := config_file w;
     isDebugEnabled := true |}.

(** index.js, [withDebug] (lines 19-32): the command is run after debug
    mode has been switched on, when the global option asks for it. *)
Definition withDebug {A : Type} (global_debug : bool) (fn : M A) : M A :=
  fun w => fn (if global_debug then enableDebug w else w).
(* ================================================================== *)
(** * What the commands never do *)

(** The events of a run, the state it leaves, and how it ends. *)
Definition trace {A : Type} (x : list event * world * res A) : list event :=
  fst (fst x).

Definition final {A : Type} (x : list event * world * res A) : world :=
  snd (fst x).

Definition result {A : Type} (x : list event * world * res A) : res A :=
  snd x.

(** ** Commands that only read the store *)

(** A computation that never writes the configuration file: no run of
    it has a write among its events, and the file is afterwards what it
    was. *)
Definition readonly {A : Type} (m : M A) : Prop :=
  forall w,
    existsb is_write (trace (m w)) = false
    /\ config_file (final (m w)) = config_file w.

Create HintDb readonly.

Lemma readonly_lift {A : Type} (r : res A) : readonly (lift r).
Proof. intros w. split; reflexivity. Qed.

Lemma readonly_ret {A : Type} (a : A) : readonly (ret a).
Proof. intros w. split; reflexivity. Qed.

Lemma readonly_throw {A : Type} (message : string) :
  readonly (@throw A message).
Proof. intros w. split; reflexivity. Qed.

Lemma readonly_exit {A : Type} (code : Z) : readonly (@process_exit A code).
Proof. intros w. split; reflexivity. Qed.

Lemma readonly_console_log (s : string) : readonly (console_log s).
Proof. intros w. split; reflexivity. Qed.

Lemma readonly_console_error (s : string) : readonly (console_error s).
Proof. intros w. split; reflexivity. Qed.

Lemma readonly_debug (s : string) : readonly (debug s).
Proof. intros w. unfold debug. destruct (isDebugEnabled w); split; reflexivity. Qed.

Lemma readonly_bind {A B : Type} (m : M A) (k : A -> M B) :
  readonly m -> (forall a, readonly (k a)) -> readonly (bind m k).
Proof.
  intros Hm Hk w. unfold bind. specialize (Hm w).
  destruct (m w) as [[t w'] [ a | e | c ]]; cbn [trace final fst snd] in *;
    try exact Hm.
  specialize (Hk a w'). destruct (k a w') as [[t' w''] r].
  cbn [trace final fst snd] in *.
  rewrite existsb_app. destruct Hm as [-> <-]. exact Hk.
Qed.

Lemma readonly_try {A : Type} (m : M A) (handler : string -> M A) :
  readonly m -> (forall e, readonly (handler e)) -> readonly (try_catch m handler).
Proof.
  intros Hm Hh w. unfold try_catch. specialize (Hm w).
  destruct (m w) as [[t w'] [ a | e | c ]]; cbn [trace final fst snd] in *;
    try exact Hm.
  specialize (Hh e w'). destruct (handler e w') as [[t' w''] r].
  cbn [trace final fst snd] in *.
  rewrite existsb_app. destruct Hm as [-> <-]. exact Hh.
Qed.

Lemma readonly_loadConfig {Y : Yaml} : readonly loadConfig.
Proof.
  intros w. rewrite loadConfig_eq. cbn [trace final fst snd].
  split; [ apply load_trace_no_write | reflexivity ].
Qed.

Lemma readonly_request {R : Remote} (url : string) (apiKey : slot) :
  readonly (request url apiKey).
Proof.
  intros w. unfold request, bind, emit.
  destruct (client_get url apiKey); split; reflexivity.
Qed.

Lemma readonly_display_rows (entries : list (string * value)) :
  readonly (display_rows entries).
Proof.
  intros w. destruct (display_rows_no_write entries w) as (t & r & E & N).
  rewrite E. split; [ exact N | reflexivity ].
Qed.

#[local] Hint Resolve readonly_lift readonly_ret readonly_throw readonly_exit
  readonly_console_log readonly_console_error readonly_debug readonly_bind
  readonly_try readonly_loadConfig readonly_request readonly_display_rows
  : readonly.

#[local] Hint Extern 1 (readonly (if ?b then _ else _)) =>
  destruct b : readonly.

#[local] Hint Extern 1 (readonly (match ?x with _ => _ end)) =>
  destruct x : readonly.

Section ReadOnly.
Context {Y : Yaml} {C : Chalk} {H : DateHost} {R : Remote}.

Lemma readonly_lookup_key (domain : string) : readonly (lookup_key domain).
Proof. unfold lookup_key. auto 20 with readonly. Qed.

Lemma readonly_display : readonly display.
Proof. unfold display. auto 30 with readonly. Qed.

Lemma readonly_getDomain (options : get_options) : readonly (getDomain options).
Proof.
  pose proof readonly_lookup_key.
  unfold getDomain, show_resource, getSubscriberInfo, getApplicationInfo,
    getTrunkInfo, getDnidInfo, getResourceInfo, getDomainInfo.
  auto 30 with readonly.
Qed.

Lemma readonly_getCallInfo (options : call_options) :
  readonly (getCallInfo options).
Proof.
  pose proof readonly_lookup_key.
  unfold getCallInfo, getSessionInfo, dataToDisplay.
  auto 30 with readonly.
Qed.

(** [display], [get] and [call] never write the configuration file,
    whatever their options, the state of the store and the answers of the
    platform. *)
Theorem reading_commands_keep_file (w : world) :
  (existsb is_write (trace (display w)) = false
   /\ config_file (final (display w)) = config_file w)
  /\ (forall options,
        existsb is_write (trace (getDomain options w)) = false
        /\ config_file (final (getDomain options w)) = config_file w)
  /\ (forall options,
        existsb is_write (trace (getCallInfo options w)) = false
        /\ config_file (final (getCallInfo options w)) = config_file w).
Proof.
  split; [ apply readonly_display | ].
  split; intros options; [ apply readonly_getDomain | apply readonly_getCallInfo ].
Qed.

End ReadOnly.
(** ** How many requests a command sends *)

(** A computation that sends no request, and one that sends at most
    one. *)
Definition silent {A : Type} (m : M A) : Prop :=
  forall w, filter is_request (trace (m w)) = [].

Definition single {A : Type} (m : M A) : Prop :=
  forall w, List.length (filter is_request (trace (m w))) <= 1.

Create HintDb requests.

Lemma silent_lift {A : Type} (r : res A) : silent (lift r).
Proof. intros w. reflexivity. Qed.

Lemma silent_ret {A : Type} (a : A) : silent (ret a).
Proof. intros w. reflexivity. Qed.

Lemma silent_throw {A : Type} (message : string) : silent (@throw A message).
Proof. intros w. reflexivity. Qed.

Lemma silent_exit {A : Type} (code : Z) : silent (@process_exit A code).
Proof. intros w. reflexivity. Qed.

Lemma silent_console_log (s : string) : silent (console_log s).
Proof. intros w. reflexivity. Qed.

Lemma silent_console_error (s : string) : silent (console_error s).
Proof. intros w. reflexivity. Qed.

Lemma silent_debug (s : string) : silent (debug s).
Proof. intros w. unfold debug. destruct (isDebugEnabled w); reflexivity. Qed.

Lemma silent_bind {A B : Type} (m : M A) (k : A -> M B) :
  silent m -> (forall a, silent (k a)) -> silent (bind m k).
Proof.
  intros Hm Hk w. unfold bind. specialize (Hm w).
  destruct (m w) as [[t w'] [ a | e | c ]]; cbn [trace fst snd] in *;
    try exact Hm.
  specialize (Hk a w'). destruct (k a w') as [[t' w''] r].
  cbn [trace fst snd] in *. now rewrite filter_app, Hm, Hk.
Qed.

Lemma silent_try {A : Type} (m : M A) (handler : string -> M A) :
  silent m -> (forall e, silent (handler e)) -> silent (try_catch m handler).
Proof.
  intros Hm Hh w. unfold try_catch. specialize (Hm w).
  destruct (m w) as [[t w'] [ a | e | c ]]; cbn [trace fst snd] in *;
    try exact Hm.
  specialize (Hh e w'). destruct (handler e w') as [[t' w''] r].
  cbn [trace fst snd] in *. now rewrite filter_app, Hm, Hh.
Qed.

Lemma silent_loadConfig {Y : Yaml} : silent loadConfig.
Proof.
  intros w. rewrite loadConfig_eq. cbn [trace fst snd]. unfold load_trace.
  destruct (config_file w) as [ f | ]; [ destruct (yaml_parse f) | ];
    reflexivity.
Qed.

Lemma silent_saveConfig {Y : Yaml} (config : value) : silent (saveConfig config).
Proof. intros w. reflexivity. Qed.

Lemma silent_display_rows (entries : list (string * value)) :
  silent (display_rows entries).
Proof.
  induction entries as [ | [domain details] rest IH ]; cbn [display_rows].
  - apply silent_ret.
  - apply silent_bind; [ apply silent_lift | intros m ].
    apply silent_bind; [ apply silent_console_log | intros _; exact IH ].
Qed.

Lemma single_silent {A : Type} (m : M A) : silent m -> single m.
Proof. intros Hm w. rewrite (Hm w). cbn. lia. Qed.

Lemma single_bind_l {A B : Type} (m : M A) (k : A -> M B) :
  silent m -> (forall a, single (k a)) -> single (bind m k).
Proof.
  intros Hm Hk w. unfold bind. specialize (Hm w).
  destruct (m w) as [[t w'] [ a | e | c ]]; cbn [trace fst snd] in *;
    try (rewrite Hm; cbn; lia).
  specialize (Hk a w'). destruct (k a w') as [[t' w''] r].
  cbn [trace fst snd] in *. now rewrite filter_app, Hm.
Qed.

Lemma single_bind_r {A B : Type} (m : M A) (k : A -> M B) :
  single m -> (forall a, silent (k a)) -> single (bind m k).
Proof.
  intros Hm Hk w. unfold bind. specialize (Hm w).
  destruct (m w) as [[t w'] [ a | e | c ]]; cbn [trace fst snd] in *;
    try exact Hm.
  specialize (Hk a w'). destruct (k a w') as [[t' w''] r].
  cbn [trace fst snd] in *. now rewrite filter_app, Hk, app_nil_r.
Qed.

Lemma single_try {A : Type} (m : M A) (handler : string -> M A) :
  single m -> (forall e, silent (handler e)) -> single (try_catch m handler).
Proof.
  intros Hm Hh w. unfold try_catch. specialize (Hm w).
  destruct (m w) as [[t w'] [ a | e | c ]]; cbn [trace fst snd] in *;
    try exact Hm.
  specialize (Hh e w'). destruct (handler e w') as [[t' w''] r].
  cbn [trace fst snd] in *. now rewrite filter_app, Hh, app_nil_r.
Qed.

Lemma single_request {R : Remote} (url : string) (apiKey : slot) :
  single (request url apiKey).
Proof.
  intros w. unfold request, bind, emit.
  destruct (client_get url apiKey); cbn; lia.
Qed.

#[local] Hint Resolve silent_lift silent_ret silent_throw silent_exit
  silent_console_log silent_console_error silent_debug silent_bind silent_try
  silent_loadConfig silent_saveConfig silent_display_rows
  single_request single_bind_l single_bind_r single_try | 2 : requests.

#[local] Hint Resolve single_silent | 9 : requests.

#[local] Hint Extern 1 (silent (if ?b then _ else _)) => destruct b : requests.
#[local] Hint Extern 1 (silent (match ?x with _ => _ end)) =>
  destruct x : requests.
#[local] Hint Extern 1 (single (if ?b then _ else _)) => destruct b : requests.
#[local] Hint Extern 1 (single (match ?x with _ => _ end)) =>
  destruct x : requests.

Section Requests.
Context {Y : Yaml} {C : Chalk} {H : DateHost}.

Lemma silent_lookup_key (domain : string) : silent (lookup_key domain).
Proof. unfold lookup_key. auto 20 with requests. Qed.

Lemma silent_addDomain (domain apiKey : string) :
  silent (addDomain domain apiKey).
Proof. unfold addDomain. auto 20 with requests. Qed.

Lemma silent_display : silent display.
Proof. unfold display. auto 30 with requests. Qed.

Lemma silent_deleteDomain (option_domain : option string) :
  silent (deleteDomain option_domain).
Proof. unfold deleteDomain. auto 30 with requests. Qed.

Lemma single_validateDomain {T : Transport} (domain apiKey : string) :
  single (validateDomain domain apiKey).
Proof.
  intros w. unfold validateDomain, bind, debug, emit, api_get. cbv zeta.
  destruct (isDebugEnabled w);
    destruct (through_interceptor _ _) as [ st d | st tx d | | m ];
    cbn; try lia;
    unfold lift; destruct (api_error st tx d); cbn; lia.
Qed.

Lemma single_configure {T : Transport} (options : configure_options) :
  single (configure options).
Proof.
  pose proof single_validateDomain. pose proof silent_addDomain.
  unfold configure. auto 30 with requests.
Qed.

Lemma single_getDomain {R : Remote} (options : get_options) :
  single (getDomain options).
Proof.
  pose proof silent_lookup_key.
  unfold getDomain, show_resource, getSubscriberInfo, getApplicationInfo,
    getTrunkInfo, getDnidInfo, getResourceInfo, getDomainInfo.
  auto 30 with requests.
Qed.

Lemma single_getCallInfo {R : Remote} (options : call_options) :
  single (getCallInfo options).
Proof.
  pose proof silent_lookup_key.
  unfold getCallInfo, getSessionInfo, dataToDisplay.
  auto 30 with requests.
Qed.

(** [display] and [delete] send no request; [configure], [get] and
    [call] send at most one, whatever their options and the state of the
    store. *)
Theorem commands_request_count {T : Transport} {R : Remote} (w : world) :
  filter is_request (trace (display w)) = []
  /\ (forall o, filter is_request (trace (deleteDomain o w)) = [])
  /\ (forall o,
        List.length (filter is_request (trace (configure o w))) <= 1)
  /\ (forall o,
        List.length (filter is_request (trace (getDomain o w))) <= 1)
  /\ (forall o,
        List.length (filter is_request (trace (getCallInfo o w))) <= 1).
Proof.
  split; [ apply silent_display | ].
  split; [ intros o; apply silent_deleteDomain | ].
  split; [ intros o; apply single_configure | ].
  split; intros o; [ apply single_getDomain | apply single_getCallInfo ].
Qed.

End Requests.
(** ** What debug mode changes *)

Definition is_debug (e : event) : bool :=
  match e with DebugLog _ => true | _ => false end.

(** The events of a run without the lines of debug mode. *)
Definition visible (t : list event) : list event :=
  filter (fun e => negb (is_debug e)) t.

(** A computation on which debug mode has no effect but its own lines:
    run with debug mode on, it has the same other events, the same result,
    and leaves the same state (with debug mode on). *)
Definition quiet {A : Type} (m : M A) : Prop :=
  forall w,
    visible (trace (m (enableDebug w))) = visible (trace (m w))
    /\ final (m (enableDebug w)) = enableDebug (final (m w))
    /\ result (m (enableDebug w)) = result (m w).

Create HintDb quiet.

Lemma quiet_lift {A : Type} (r : res A) : quiet (lift r).
Proof. intros w. repeat split. Qed.

Lemma quiet_ret {A : Type} (a : A) : quiet (ret a).
Proof. intros w. repeat split. Qed.

Lemma quiet_throw {A : Type} (message : string) : quiet (@throw A message).
Proof. intros w. repeat split. Qed.

Lemma quiet_exit {A : Type} (code : Z) : quiet (@process_exit A code).
Proof. intros w. repeat split. Qed.

Lemma quiet_emit (e : event) : quiet (emit e).
Proof. intros w. repeat split. Qed.

Lemma quiet_console_log (s : string) : quiet (console_log s).
Proof. apply quiet_emit. Qed.

Lemma quiet_console_error (s : string) : quiet (console_error s).
Proof. apply quiet_emit. Qed.

Lemma quiet_debug (s : string) : quiet (debug s).
Proof.
  intros w. unfold debug. cbn [enableDebug isDebugEnabled].
  destruct (isDebugEnabled w); repeat split.
Qed.

Lemma quiet_bind {A B : Type} (m : M A) (k : A -> M B) :
  quiet m -> (forall a, quiet (k a)) -> quiet (bind m k).
Proof.
  intros Hm Hk w. unfold bind. specialize (Hm w).
  destruct (m w) as [[t w1] r1]. destruct (m (enableDebug w)) as [[t2 w2] r2].
  cbn [trace final result fst snd] in Hm. destruct Hm as (Ht & -> & ->).
  destruct r1 as [ a | e | c ]; cbn [trace final result fst snd];
    try (repeat split; exact Ht).
  specialize (Hk a w1).
  destruct (k a w1) as [[t' w'] r']. destruct (k a (enableDebug w1)) as [[t2' w2'] r2'].
  cbn [trace final result fst snd] in *. destruct Hk as (Ht' & -> & ->).
  unfold visible in *. now rewrite !filter_app, Ht, Ht'.
Qed.

Lemma quiet_try {A : Type} (m : M A) (handler : string -> M A) :
  quiet m -> (forall e, quiet (handler e)) -> quiet (try_catch m handler).
Proof.
  intros Hm Hh w. unfold try_catch. specialize (Hm w).
  destruct (m w) as [[t w1] r1]. destruct (m (enableDebug w)) as [[t2 w2] r2].
  cbn [trace final result fst snd] in Hm. destruct Hm as (Ht & -> & ->).
  destruct r1 as [ a | e | c ]; cbn [trace final result fst snd];
    try (repeat split; exact Ht).
  specialize (Hh e w1).
  destruct (handler e w1) as [[t' w'] r'].
  destruct (handler e (enableDebug w1)) as [[t2' w2'] r2'].
  cbn [trace final result fst snd] in *. destruct Hh as (Ht' & -> & ->).
  unfold visible in *. now rewrite !filter_app, Ht, Ht'.
Qed.

Lemma quiet_loadConfig {Y : Yaml} : quiet loadConfig.
Proof. intros w. rewrite !loadConfig_eq. repeat split. Qed.

Lemma quiet_saveConfig {Y : Yaml} (config : value) : quiet (saveConfig config).
Proof. intros w. repeat split. Qed.

Lemma quiet_request {R : Remote} (url : string) (apiKey : slot) :
  quiet (request url apiKey).
Proof.
  unfold request.
  apply quiet_bind; [ apply quiet_emit | intros _ ].
  destruct (client_get url apiKey); [ apply quiet_ret | apply quiet_throw ].
Qed.

Lemma quiet_display_rows (entries : list (string * value)) :
  quiet (display_rows entries).
Proof.
  induction entries as [ | [domain details] rest IH ]; cbn [display_rows].
  - apply quiet_ret.
  - apply quiet_bind; [ apply quiet_lift | intros m ].
    apply quiet_bind; [ apply quiet_console_log | intros _; exact IH ].
Qed.

#[local] Hint Resolve quiet_lift quiet_ret quiet_throw quiet_exit quiet_emit
  quiet_console_log quiet_console_error quiet_debug quiet_bind quiet_try
  quiet_loadConfig quiet_saveConfig quiet_request quiet_display_rows : quiet.

#[local] Hint Extern 1 (quiet (if ?b then _ else _)) => destruct b : quiet.
#[local] Hint Extern 1 (quiet (match ?x with _ => _ end)) =>
  destruct x : quiet.

(** A command started with or without the global [--debug] option: the
    two runs differ by the lines of debug mode only. *)
Definition debug_only_adds_lines {A : Type} (command : M A) (w : world)
  : Prop :=
  visible (trace (withDebug true command w))
  = visible (trace (withDebug false command w))
  /\ config_file (final (withDebug true command w))
     = config_file (final (withDebug false command w))
  /\ result (withDebug true command w) = result (withDebug false command w).

Lemma quiet_withDebug {A : Type} (command : M A) (w : world) :
  quiet command -> debug_only_adds_lines command w.
Proof.
  intros Hq. unfold debug_only_adds_lines, withDebug.
  destruct (Hq w) as (Ht & Hf & Hr).
  split; [ exact Ht | ]. split; [ | exact Hr ]. now rewrite Hf.
Qed.

Section Quiet.
Context {Y : Yaml} {C : Chalk} {H : DateHost} {R : Remote}.

Lemma quiet_lookup_key (domain : string) : quiet (lookup_key domain).
Proof. unfold lookup_key. auto 20 with quiet. Qed.

Lemma quiet_addDomain (domain apiKey : string) : quiet (addDomain domain apiKey).
Proof. unfold addDomain. auto 20 with quiet. Qed.

Lemma quiet_deleteDomain (option_domain : option string) :
  quiet (deleteDomain option_domain).
Proof. unfold deleteDomain. auto 30 with quiet. Qed.

Lemma quiet_display : quiet display.
Proof. unfold display. auto 30 with quiet. Qed.

Lemma quiet_getDomain (options : get_options) : quiet (getDomain options).
Proof.
  pose proof quiet_lookup_key.
  unfold getDomain, show_resource, getSubscriberInfo, getApplicationInfo,
    getTrunkInfo, getDnidInfo, getResourceInfo, getDomainInfo.
  auto 30 with quiet.
Qed.

Lemma quiet_getCallInfo (options : call_options) : quiet (getCallInfo options).
Proof.
  pose proof quiet_lookup_key.
  unfold getCallInfo, getSessionInfo, dataToDisplay.
  auto 30 with quiet.
Qed.

(** The global [--debug] option changes nothing in what [delete] and
    [display] do but the debug lines they print: the other events, the
    result and the configuration file are the same.  So it is for [get]
    and [call], as long as the accessor of api.js gives them the same
    answer in both runs. *)
Theorem debug_mode_only_adds_lines (w : world) :
  (forall o, debug_only_adds_lines (deleteDomain o) w)
  /\ debug_only_adds_lines display w
  /\ (forall o, debug_only_adds_lines (getDomain o) w)
  /\ (forall o, debug_only_adds_lines (getCallInfo o) w).
Proof.
  split; [ intros o; apply quiet_withDebug, quiet_deleteDomain | ].
  split; [ apply quiet_withDebug, quiet_display | ].
  split; intros o; apply quiet_withDebug;
    [ apply quiet_getDomain | apply quiet_getCallInfo ].
Qed.

End Quiet.
(* ================================================================== *)
(** * Properties of [validateDomain] and [configure] *)

(** The answer that validates a domain: a response with status 200. *)
Definition accepted (r : reply) : bool :=
  match r with
  | Response status _ => (status =? 200)%Z
  | _ => false
  end.

Section ConfigureFacts.
Context {Y : Yaml} {H : DateHost} {T : Transport}.

Definition domain_url (domain : string) : string :=
  "/customers/self/domains/" ++ domain.

Definition checking (domain : string) : string :=
  "Validating domain '" ++ domain ++ "'".

(** The answer [validateDomain] gets in a state. *)
Definition answer (w : world) (domain apiKey : string) : reply :=
  through_interceptor (isDebugEnabled w)
    (transport_get (domain_url domain) (Val (VStr apiKey))).

(** What [validateDomain] prints and returns for an answer. *)
Definition verdict (r : reply) : list event * res bool :=
  match r with
  | Response status _ => ([], Ret (status =? 200)%Z)
  | ErrResponse status statusText data =>
      match api_error status statusText data with
      | Ret message => ([ConsoleError message], Ret false)
      | Throw message => ([], Throw message)
      | Exit code => ([], Exit code)
      end
  | ErrRequest => ([ConsoleError network_error], Ret false)
  | ErrOther message => ([ConsoleError ("Error: " ++ message)], Ret false)
  end.

Lemma api_error_no_exit (status : Z) (statusText : string)
  (data : option value) (code : Z) :
  api_error status statusText data <> Exit code.
Proof.
  unfold api_error. destruct data as [ d | ]; [ | discriminate ].
  destruct d; cbn; discriminate.
Qed.

Lemma validateDomain_eq (domain apiKey : string) (w : world) :
  validateDomain domain apiKey w
  = ((debug_events w [checking domain]
      ++ [HttpGet (domain_url domain) (Val (VStr apiKey))]
      ++ fst (verdict (answer w domain apiKey)))%list,
     w, snd (verdict (answer w domain apiKey))).
Proof.
  unfold validateDomain, answer, verdict, domain_url, checking, bind, debug,
    debug_events, emit, api_get. cbv zeta.
  destruct (isDebugEnabled w) eqn:Dbg; cbv beta iota; rewrite ?Dbg;
    (destruct (through_interceptor _ _) as [ st d | st tx d | | m ];
     cbv beta iota; unfold ret, lift, console_error, emit; cbv beta iota;
     [ | destruct (api_error st tx d); cbv beta iota | | ];
     reflexivity).
Qed.

(** [validateDomain] sends one request, for the domain and with the key
    it was given, touches neither the configuration directory nor the
    file, and never ends the process; it returns [true] exactly when the
    answer is a response with status 200. *)
Theorem validateDomain_verdict (domain apiKey : string) (w : world) :
  exists t r,
    validateDomain domain apiKey w = (t, w, r)
    /\ filter is_request t
       = [HttpGet ("/customers/self/domains/" ++ domain) (Val (VStr apiKey))]
    /\ existsb is_store_access t = false
    /\ (r = Ret true <-> accepted (answer w domain apiKey) = true)
    /\ (forall code, r <> Exit code).
Proof.
  rewrite validateDomain_eq. do 2 eexists. split; [ reflexivity | ].
  unfold verdict, accepted, debug_events.
  destruct (answer w domain apiKey) as [ st d | st tx d | | m ];
    [ | destruct (api_error st tx d) as [ msg | msg | c ] eqn:E | | ];
    destruct (isDebugEnabled w); cbn [fst snd map app filter is_request
      existsb is_store_access orb];
    (split; [ reflexivity | ]); (split; [ reflexivity | ]);
    (split; [ | try (intros code; discriminate) ]);
    try (split; [ intros [= ->]; reflexivity | intros ->; reflexivity ]);
    try (split; discriminate).
  all: now apply api_error_no_exit in E.
Qed.

Definition with_options (domain apikey : string) : configure_options :=
  {| cfg_domain := Some domain; cfg_apikey := Some apikey |}.

(** When the domain is not validated, [configure] exits with status 1
    after an error line, and has touched neither the configuration
    directory nor the file. *)
Theorem configure_not_validated (w : world) (domain apikey : string) :
  (domain =? "") = false -> (apikey =? "") = false ->
  accepted (answer w domain apikey) = false ->
  exists t line,
    configure (with_options domain apikey) w
    = ((t ++ [ConsoleError line])%list, w, Exit 1%Z)
    /\ existsb is_store_access t = false
    /\ existsb is_write t = false.
Proof.
  intros Hd Hk Ha.
  unfold configure, with_options, missing, text_of.
  cbn [cfg_domain cfg_apikey]. rewrite Hd, Hk. cbn [orb].
  unfold try_catch, bind at 1. unfold console_log at 1, emit. cbv beta iota.
  unfold bind at 1. rewrite validateDomain_eq.
  unfold verdict, accepted in *.
  destruct (answer w domain apikey) as [ st d | st tx d | | m ].
  - cbn [fst snd]. rewrite Ha. cbn [negb]. cbv beta iota.
    unfold bind, console_error, process_exit, emit, lift. cbv beta iota.
    exists ([ConsoleLog (validating domain)]
            ++ debug_events w [checking domain]
            ++ [HttpGet (domain_url domain) (Val (VStr apikey))])%list,
           (not_validated domain).
    split; [ now rewrite <- !app_assoc | ].
    unfold debug_events. destruct (isDebugEnabled w); split; reflexivity.
  - destruct (api_error st tx d) as [ msg | msg | c ] eqn:E.
    + cbn [fst snd negb]. cbv beta iota.
      unfold bind, console_error, process_exit, emit, lift. cbv beta iota.
      exists ([ConsoleLog (validating domain)]
              ++ debug_events w [checking domain]
              ++ [HttpGet (domain_url domain) (Val (VStr apikey));
                  ConsoleError msg])%list,
             (not_validated domain).
      split; [ now rewrite <- !app_assoc | ].
      unfold debug_events. destruct (isDebugEnabled w); split; reflexivity.
    + cbn [fst snd]. cbv beta iota.
      unfold bind, console_error, process_exit, emit, lift. cbv beta iota.
      exists ([ConsoleLog (validating domain)]
              ++ debug_events w [checking domain]
              ++ [HttpGet (domain_url domain) (Val (VStr apikey))])%list,
             ("Error configuring domain: " ++ msg).
      split; [ now rewrite <- !app_assoc, ?app_nil_r | ].
      unfold debug_events. destruct (isDebugEnabled w); split; reflexivity.
    + now apply api_error_no_exit in E.
  - cbn [fst snd negb]. cbv beta iota.
    unfold bind, console_error, process_exit, emit, lift. cbv beta iota.
    exists ([ConsoleLog (validating domain)]
            ++ debug_events w [checking domain]
            ++ [HttpGet (domain_url domain) (Val (VStr apikey));
                ConsoleError network_error])%list,
           (not_validated domain).
    split; [ now rewrite <- !app_assoc | ].
    unfold debug_events. destruct (isDebugEnabled w); split; reflexivity.
  - cbn [fst snd negb]. cbv beta iota.
    unfold bind, console_error, process_exit, emit, lift. cbv beta iota.
    exists ([ConsoleLog (validating domain)]
            ++ debug_events w [checking domain]
            ++ [HttpGet (domain_url domain) (Val (VStr apikey));
                ConsoleError ("Error: " ++ m)])%list,
           (not_validated domain).
    split; [ now rewrite <- !app_assoc | ].
    unfold debug_events. destruct (isDebugEnabled w); split; reflexivity.
Qed.

(** When the domain is validated, [configure] stores it: on a store of
    the data model's shape and for a name other than [__proto__], the
    command returns after its three lines, and the configuration loaded
    afterwards has the record under the name and every other entry as it
    was. *)
Theorem configure_validated (w : world) (domain apikey : string) :
  (domain =? "") = false -> (apikey =? "") = false ->
  domain <> "__proto__" ->
  wf_store w ->
  accepted (answer w domain apikey) = true ->
  exists w1 config,
    configure (with_options domain apikey) w
    = (([ConsoleLog (validating domain)]
        ++ debug_events w [checking domain]
        ++ [HttpGet (domain_url domain) (Val (VStr apikey));
            ConsoleLog (validated domain)]
        ++ load_trace w
        ++ [EnsureDir; WriteFile (yaml_stringify config);
            ConsoleLog (configured domain)])%list,
       w1, Ret tt)
    /\ holds w1 config
    /\ own_get (domains_of config) domain = Some (domain_record apikey)
    /\ forall other, other <> domain ->
         own_get (domains_of config) other
         = own_get (domains_of (loaded w)) other.
Proof.
  intros Hd Hk Hp Hwf Ha.
  set (config := with_domain (loaded w) domain (domain_record apikey)).
  exists (written (yaml_stringify config) (ensured w)), config.
  split.
  - unfold configure, with_options, missing, text_of.
    cbn [cfg_domain cfg_apikey]. rewrite Hd, Hk. cbn [orb].
    unfold try_catch, bind at 1. unfold console_log at 1, emit. cbv beta iota.
    unfold bind at 1. rewrite validateDomain_eq.
    unfold verdict, accepted in *.
    destruct (answer w domain apikey) as [ st d | st tx d | | m ];
      try discriminate.
    cbn [fst snd]. rewrite Ha. cbn [negb]. cbv beta iota.
    unfold bind at 1. unfold console_log at 1, emit. cbv beta iota.
    unfold bind at 1. rewrite (addDomain_eq w domain apikey Hwf). cbv zeta.
    fold config. unfold console_log, emit. cbv beta iota.
    rewrite <- ?app_assoc. cbn [app]. rewrite <- ?app_assoc. reflexivity.
  - split; [ | split ].
    + apply holds_loaded. symmetry. apply loaded_written.
      now apply with_domain_truthy.
    + unfold config. rewrite own_get_domains_with_domain by exact Hwf.
      now apply own_get_obj_set_same.
    + intros other Ho. unfold config.
      rewrite own_get_domains_with_domain by exact Hwf.
      now apply own_get_obj_set_other.
Qed.

End ConfigureFacts.

Section UsageErrors.
Context {Y : Yaml} {C : Chalk} {H : DateHost} {R : Remote} {T : Transport}.

(** A command that lacks a required option (or is given an empty one)
    prints its usage error and exits with status 1, and does nothing
    else: the store is not touched and no request is sent. *)
Theorem usage_errors_come_first (w : world) :
  (forall o,
     missing (cfg_domain o) || missing (cfg_apikey o) = true ->
     configure o w
     = ([ConsoleError "Both --domain and --apikey options are required"],
        w, Exit 1%Z))
  /\ (forall o,
        missing o = true ->
        deleteDomain o w
        = ([ConsoleError "The --domain option is required"], w, Exit 1%Z))
  /\ (forall o,
        missing (get_domain o) = true ->
        getDomain o w
        = ([ConsoleError "The --domain option is required"], w, Exit 1%Z))
  /\ (forall o,
        missing (call_domain o) = true ->
        getCallInfo o w
        = ([ConsoleError "The --domain option is required"], w, Exit 1%Z))
  /\ (forall o,
        missing (call_domain o) = false ->
        missing (call_session o) = true ->
        getCallInfo o w
        = ([ConsoleError "The --session option is required"], w, Exit 1%Z)).
Proof.
  split; [ | split; [ | split; [ | split ] ] ].
  - intros o Ho. unfold configure. rewrite Ho. reflexivity.
  - intros [ d | ] Ho; unfold deleteDomain.
    + cbn [missing] in Ho. rewrite Ho. reflexivity.
    + reflexivity.
  - intros o Ho. unfold getDomain. rewrite Ho. reflexivity.
  - intros o Ho. unfold getCallInfo. rewrite Ho. reflexivity.
  - intros o Hd Hs. unfold getCallInfo. rewrite Hd, Hs. reflexivity.
Qed.

End UsageErrors.

Lemma configure_not_validated_witness :
  exists t line,
    @configure ref_yaml strict_host offline
      (with_options "example.com" "abcdefghijkl") stocked
    = ((t ++ [ConsoleError line])%list, stocked, Exit 1%Z)
    /\ existsb is_store_access t = false
    /\ existsb is_write t = false.
Proof.
  apply (@configure_not_validated ref_yaml strict_host offline stocked
           "example.com" "abcdefghijkl"); reflexivity.
Defined.

Lemma configure_validated_witness :
  exists w1 config,
    @configure ref_yaml strict_host (serving 200 (VObj []))
      (with_options "new.example.io" "k-123456789") stocked
    = (([ConsoleLog (validating "new.example.io")]
        ++ debug_events stocked [checking "new.example.io"]
        ++ [HttpGet (domain_url "new.example.io") (Val (VStr "k-123456789"));
            ConsoleLog (validated "new.example.io")]
        ++ load_trace stocked
        ++ [EnsureDir; WriteFile (yaml_stringify config);
            ConsoleLog (configured "new.example.io")])%list,
       w1, Ret tt)
    /\ holds w1 config
    /\ own_get (domains_of config) "new.example.io"
       = Some (domain_record "k-123456789")
    /\ forall other, other <> "new.example.io" ->
         own_get (domains_of config) other
         = own_get (domains_of (loaded stocked)) other.
Proof.
  apply (@configure_validated ref_yaml strict_host (serving 200 (VObj []))
           stocked "new.example.io" "k-123456789");
    try reflexivity; discriminate.
Defined.
(* ================================================================== *)
(** * Properties of the response interceptor *)

Lemma keys_own_replace (o : object) (k : string) (v : value) :
  keys (own_replace o k v) = keys o.
Proof.
  unfold keys. induction o as [ | [k0 v0] r IH ]; cbn; [ reflexivity | ].
  destruct (k0 =? k); cbn; [ reflexivity | now rewrite IH ].
Qed.

Section InterceptFacts.
Context {H : DateHost}.

Lemma keys_fix_field (o : object) (field : string) :
  keys (fix_field o field) = keys o.
Proof.
  unfold fix_field. destruct (own_get o field) as [ v | ]; [ | reflexivity ].
  destruct (truthy v); [ | reflexivity ].
  destruct (stamp_date v); [ apply keys_own_replace | reflexivity ].
Qed.

Lemma own_get_fix_field (o : object) (field k : string) :
  k <> field -> own_get (fix_field o field) k = own_get o k.
Proof.
  intros Hk. unfold fix_field.
  destruct (own_get o field) as [ v | ]; [ | reflexivity ].
  destruct (truthy v); [ | reflexivity ].
  destruct (stamp_date v); [ now apply own_get_replace_other | reflexivity ].
Qed.

(** Two log entries that differ at most in what they hold under
    [timestamp] and [time]. *)
Definition same_but_stamps (e e' : value) : Prop :=
  match e, e' with
  | VObj a, VObj b =>
      keys b = keys a
      /\ forall k, k <> "timestamp" -> k <> "time" -> own_get b k = own_get a k
  | _, _ => e' = e
  end.

Lemma fix_entry_same (e : value) :
  e <> VNull -> exists e', fix_entry e = Ret e' /\ same_but_stamps e e'.
Proof.
  intros Hn. destruct e as [ | b | n | s | l | o ]; try congruence;
    cbn [fix_entry]; eexists; (split; [ reflexivity | ]); try reflexivity.
  cbn. split.
  - now rewrite !keys_fix_field.
  - intros k H1 H2. now rewrite !own_get_fix_field.
Qed.

Lemma fix_entries_same (l : list value) :
  ~ In VNull l ->
  exists l', fix_entries l = Ret l' /\ Forall2 same_but_stamps l l'.
Proof.
  induction l as [ | e r IH ]; intros Hn.
  - exists []. split; [ reflexivity | constructor ].
  - destruct (fix_entry_same e) as (e' & Ee & Se).
    { intros ->. apply Hn. now left. }
    destruct IH as (r' & Er & Sr).
    { intros Hin. apply Hn. now right. }
    exists (e' :: r'). cbn [fix_entries]. rewrite Ee, Er.
    split; [ reflexivity | now constructor ].
Qed.

Lemma fix_entries_null (l : list value) :
  In VNull l -> fix_entries l = Throw (type_error "read" "timestamp").
Proof.
  induction l as [ | e r IH ]; intros Hin; [ destruct Hin | ].
  cbn [fix_entries].
  destruct e as [ | b | n | s | l0 | o ]; try reflexivity;
    (destruct Hin as [ Hin | Hin ]; [ discriminate | ]);
    cbn [fix_entry rbind]; now rewrite (IH Hin).
Qed.

(** The interceptor rewrites nothing but the [timestamp] and [time] of
    the entries of the log: on a document whose log has no [null] entry it
    returns the document with the same keys in the same order, a log of
    the same length, and in each entry the same keys and the same values
    under every other key; a document without a log array is returned as
    it is. *)
Theorem intercept_keeps_shape (o : object) :
  (forall l,
     own_get o "log" = Some (VArr l) -> ~ In VNull l ->
     exists l',
       intercept (Some (VObj o))
       = Ret (Some (VObj (own_replace o "log" (VArr l'))))
       /\ keys (own_replace o "log" (VArr l')) = keys o
       /\ List.length l' = List.length l
       /\ Forall2 same_but_stamps l l')
  /\ ((forall l, own_get o "log" <> Some (VArr l)) ->
      intercept (Some (VObj o)) = Ret (Some (VObj o))).
Proof.
  split.
  - intros l Hl Hn. destruct (fix_entries_same l Hn) as (l' & E & S).
    exists l'. unfold intercept. rewrite Hl, E.
    split; [ reflexivity | ]. split; [ apply keys_own_replace | ].
    split; [ | exact S ]. symmetry. eapply Forall2_length; eauto.
  - intros Hl. unfold intercept.
    destruct (own_get o "log") as [ [ | | | | l | ] | ]; try reflexivity.
    exfalso. now apply (Hl l).
Qed.

(** A [null] among the entries of the log makes the interceptor throw,
    and the accessor fail with the message of that error, whatever the
    status of the response. *)
Theorem null_log_entry_fails {T : Transport} (debugging : bool)
  (url : string) (apiKey : slot) (status : Z) (o : object) (l : list value) :
  transport_get url apiKey = Resolved status (Some (VObj o)) ->
  own_get o "log" = Some (VArr l) ->
  In VNull l ->
  @client_get (api_remote debugging) url apiKey
  = Failed ("Error: " ++ type_error "read" "timestamp").
Proof.
  intros Ht Hl Hin. cbn [client_get api_remote].
  rewrite Ht. cbn [through_interceptor intercept]. rewrite Hl.
  now rewrite (fix_entries_null l Hin).
Qed.

End InterceptFacts.

Definition log_with_null : object :=
  [("id", VStr "s-1"); ("log", VArr [VObj [("time", VStr "2025-04-01T02")]; VNull])].

Lemma null_log_entry_fails_witness :
  @client_get (@api_remote strict_host (serving 200 (VObj log_with_null)) false)
    "/customers/self/domains/example.com/sessions/s-1"
    (Val (VStr "abcdefghijkl"))
  = Failed ("Error: " ++ type_error "read" "timestamp").
Proof.
  apply (@null_log_entry_fails strict_host
           (serving 200 (VObj log_with_null)) false
           "/customers/self/domains/example.com/sessions/s-1"
           (Val (VStr "abcdefghijkl")) 200 log_with_null
           [VObj [("time", VStr "2025-04-01T02")]; VNull]).
  - reflexivity.
  - reflexivity.
  - right. left. reflexivity.
Defined.
(* ================================================================== *)
(** * Properties of the normaliser and of the clone *)

(** A string that [iso_utc] reads denotes fields that are in range. *)
Lemma iso_utc_fields (s : string) (t : Z) :
  iso_utc s = Some t ->
  exists y mo d h mi sec ms,
    JsDate.valid_fields y mo d h mi sec ms = true
    /\ t = JsDate.time_value y mo d h mi sec ms.
Proof.
  unfold iso_utc, obind. intros E.
  repeat match type of E with
         | (if ?b then _ else _) = Some _ =>
             let V := fresh "V" in
             destruct b eqn:V; [ | discriminate ]
         | match ?x with _ => _ end = Some _ =>
             let p := fresh "p" in
             destruct x as [ p | ]; [ | discriminate ];
             try (destruct p as [? ?])
         end.
  injection E as <-. eauto 10.
Qed.

Section NormaliseFacts.
Context {H : DateHost}.

(** Normalising twice is normalising once, for every string that is
    read, if at all, by the date-time format (after the missing parts are
    appended): the result of the first pass is a complete instant. *)
Theorem normalizeTimestamp_idempotent (s : string) :
  Date_parse (dateString s) = iso_utc (dateString s) ->
  normalizeTimestamp (normalizeTimestamp s) = normalizeTimestamp s.
Proof.
  intros Hp. unfold normalizeTimestamp at 2 3. rewrite Hp.
  destruct (iso_utc (dateString s)) as [ t | ] eqn:E.
  - destruct (iso_utc_fields _ _ E) as (y & mo & d & h & mi & sec & ms & V & ->).
    rewrite (toISOString_time_value _ _ _ _ _ _ _ V).
    now apply normalizeTimestamp_iso_string.
  - unfold normalizeTimestamp. now rewrite Hp.
Qed.

End NormaliseFacts.

Lemma normalizeTimestamp_idempotent_witness :
  normalizeTimestamp (normalizeTimestamp "2025-04-01T02:15")
  = normalizeTimestamp "2025-04-01T02:15".
Proof.
  apply (normalizeTimestamp_idempotent "2025-04-01T02:15"). reflexivity.
Defined.

(** ** The clone *)

Definition is_stamp (key : string) : bool :=
  (key =? "timestamp") || (key =? "time").

(** A value that holds a string under a key [timestamp] or [time],
    itself (under [key]) or at any depth.  The elements of an array are
    held under their indices. *)
Fixpoint holds_stamp (key : string) (v : value) : bool :=
  match v with
  | VStr _ => is_stamp key
  | VArr l =>
      (fix any (l : list value) : bool :=
         match l with
         | [] => false
         | x :: r => holds_stamp EmptyString x || any r
         end) l
  | VObj o =>
      (fix any (o : list (string * value)) : bool :=
         match o with
         | [] => false
         | (k, x) :: r => holds_stamp k x || any r
         end) o
  | _ => false
  end.

Lemma all_digits_digits_of_fuel (fuel : nat) (n : N) (acc : string) :
  all_digits acc = true -> all_digits (digits_of_fuel fuel n acc) = true.
Proof.
  revert n acc. induction fuel as [ | f IH ]; intros n acc Ha; cbn [digits_of_fuel].
  - exact Ha.
  - assert (Hd : all_digits (String (digit_char (n mod 10)) acc) = true).
    { cbn [all_digits]. unfold is_digit.
      rewrite digit_of_digit_char by (apply N.mod_lt; lia). exact Ha. }
    cbv zeta. destruct (n <? 10)%N; [ exact Hd | now apply IH ].
Qed.

(** An index is never one of the two keys. *)
Lemma is_stamp_index (i : N) : is_stamp (N_to_string i) = false.
Proof.
  pose proof (all_digits_digits_of_fuel (S (N.to_nat (N.log2 i))) i
                EmptyString eq_refl) as D.
  fold (N_to_string i) in D. unfold is_stamp.
  destruct (String.eqb_spec (N_to_string i) "timestamp") as [ E | _ ].
  - rewrite E in D. discriminate.
  - destruct (String.eqb_spec (N_to_string i) "time") as [ E | _ ].
    + rewrite E in D. discriminate.
    + reflexivity.
Qed.

Section CloneFacts.
Context {H : DateHost}.

Fixpoint clone_items (i : N) (l : list value) : list value :=
  match l with
  | [] => []
  | x :: r => clone (N_to_string i) x :: clone_items (N.succ i) r
  end.

Fixpoint clone_fields (o : list (string * value)) : list (string * value) :=
  match o with
  | [] => []
  | (k, x) :: r => (k, clone k x) :: clone_fields r
  end.

Lemma clone_arr (key : string) (l : list value) :
  clone key (VArr l) = VArr (clone_items 0 l).
Proof.
  cbn [clone]. f_equal.
Qed.

Lemma clone_obj (key : string) (o : list (string * value)) :
  clone key (VObj o) = VObj (clone_fields o).
Proof.
  cbn [clone]. f_equal.
Qed.

Lemma stamped_key (key key' : string) (v : value) :
  is_stamp key' = false -> holds_stamp key v = false -> holds_stamp key' v = false.
Proof. destruct v; cbn [holds_stamp]; auto. Qed.

(** A document that holds no string under a key [timestamp] or [time],
    at any depth, is its own clone. *)
Theorem clone_unstamped (v : value) :
  forall key, holds_stamp key v = false -> clone key v = v.
Proof.
  induction v as [ | b | n | s | l IHl | o IHo ] using RefYaml.value_nested_ind;
    intros key Hs; try reflexivity.
  - cbn [holds_stamp] in Hs. cbn [clone replacer]. unfold is_stamp in Hs.
    now rewrite Hs.
  - rewrite clone_arr. f_equal. cbn [holds_stamp] in Hs.
    generalize 0%N.
    induction IHl as [ | x r Hx Hr IH ]; intros i; [ reflexivity | ].
    apply orb_false_iff in Hs as [H1 H2].
    cbn [clone_items]. rewrite (IH H2). f_equal.
    apply Hx. apply (stamped_key EmptyString); [ apply is_stamp_index | exact H1 ].
  - rewrite clone_obj. f_equal. cbn [holds_stamp] in Hs.
    induction IHo as [ | [k x] r Hx Hr IH ]; [ reflexivity | ].
    apply orb_false_iff in Hs as [H1 H2].
    cbn [clone_fields]. rewrite (IH H2). cbn [snd] in Hx. now rewrite (Hx k H1).
Qed.

End CloneFacts.

Definition plain_session : value :=
  VObj [("id", VStr "s-1");
        ("tags", VArr [VStr "a"; VStr "timestamp"]);
        ("route", VObj [("trunk", VStr "t-9"); ("hops", VNum 3)])].

Lemma clone_unstamped_witness :
  clone EmptyString plain_session = plain_session.
Proof.
  apply (clone_unstamped plain_session EmptyString). reflexivity.
Defined.
(** ** The interceptor and the replacer *)

(** A value the two normalisers treat alike: a string, or a value that
    is not truthy. *)
Definition textual (v : value) : bool :=
  match v with
  | VStr _ => true
  | _ => negb (truthy v)
  end.

(** A log entry of scalars whose [timestamp] and [time], when it has
    them, are such values. *)
Definition flat_entry (o : object) : bool :=
  forallb (fun kx =>
             match snd kx with
             | VArr _ | VObj _ => false
             | v => if is_stamp (fst kx) then textual v else true
             end) o.

Section TwoNormalisers.
Context {H : DateHost}.

Lemma stamp_date_text (s : string) :
  stamp_date (VStr s) = Date_parse (dateString s).
Proof.
  unfold stamp_date, completed, dateString. cbn [js_to_string].
  destruct (matches hour_pattern s); [ reflexivity | ].
  destruct (matches minute_pattern s); [ reflexivity | ].
  destruct (matches second_pattern s); reflexivity.
Qed.

Lemma normalizeTimestamp_empty : normalizeTimestamp EmptyString = EmptyString.
Proof.
  unfold normalizeTimestamp, Date_parse. cbn [dateString].
  change (iso_utc (dateString "")) with (@None Z). cbv iota.
  now rewrite host_date_parse_no_digit.
Qed.

(** What the interceptor leaves under a field. *)
Definition fix_value (v : value) : value :=
  if truthy v
  then match stamp_date v with
       | Some t => VStr (toISOString t)
       | None => v
       end
  else v.

Lemma fix_value_text (key : string) (v : value) :
  is_stamp key = true -> textual v = true -> fix_value v = replacer key v.
Proof.
  intros Hk Hv. unfold is_stamp in Hk.
  destruct v as [ | b | n | s | l | o ]; unfold fix_value; cbn [textual] in Hv.
  - reflexivity.
  - apply negb_true_iff in Hv. now rewrite Hv.
  - apply negb_true_iff in Hv. now rewrite Hv.
  - cbn [replacer]. rewrite Hk. cbn [truthy].
    destruct (s =? "") eqn:E; cbn [negb].
    + apply String.eqb_eq in E. subst s. now rewrite normalizeTimestamp_empty.
    + rewrite stamp_date_text. unfold normalizeTimestamp.
      now destruct (Date_parse (dateString s)).
  - discriminate.
  - discriminate.
Qed.

Lemma map_other_key (f : string) (g : value -> value) (r : object) :
  ~ In f (keys r) ->
  map (fun kx => (fst kx, if fst kx =? f then g (snd kx) else snd kx)) r = r.
Proof.
  unfold keys. induction r as [ | [k v] r IH ]; cbn; intros Hn; [ reflexivity | ].
  destruct (k =? f) eqn:E.
  - apply String.eqb_eq in E. exfalso. apply Hn. now left.
  - rewrite IH; [ reflexivity | ]. intros Hin. apply Hn. now right.
Qed.

Lemma fix_field_map (o : object) (f : string) :
  NoDup (keys o) ->
  fix_field o f
  = map (fun kx => (fst kx, if fst kx =? f then fix_value (snd kx) else snd kx)) o.
Proof.
  unfold keys. induction o as [ | [k v] r IH ]; intros Hnd; [ reflexivity | ].
  cbn [map fst] in Hnd. inversion Hnd as [ | ? ? Hnot Hnd' ]; subst.
  unfold fix_field. cbn [own_get map fst snd].
  destruct (k =? f) eqn:E.
  - apply String.eqb_eq in E. subst f.
    rewrite (map_other_key k fix_value r Hnot).
    unfold fix_value. destruct (truthy v); [ | reflexivity ].
    destruct (stamp_date v); [ | reflexivity ].
    cbn [own_replace]. now rewrite String.eqb_refl.
  - rewrite <- (IH Hnd'). unfold fix_field.
    destruct (own_get r f) as [ x | ]; [ | reflexivity ].
    destruct (truthy x); [ | reflexivity ].
    destruct (stamp_date x); [ | reflexivity ].
    cbn [own_replace]. now rewrite E.
Qed.

Lemma clone_fields_map (o : object) :
  clone_fields o = map (fun kx => (fst kx, clone (fst kx) (snd kx))) o.
Proof.
  induction o as [ | [k x] r IH ]; cbn; [ reflexivity | now rewrite IH ].
Qed.

(** On a log entry of scalars whose [timestamp] and [time] are strings
    (or not truthy), the interceptor of api.js and the replacer of call.js
    do the same. *)
Theorem interceptor_agrees_with_replacer (o : object) (key : string) :
  NoDup (keys o) -> flat_entry o = true ->
  fix_entry (VObj o) = Ret (clone key (VObj o)).
Proof.
  intros Hnd Hf. cbn [fix_entry]. rewrite clone_obj. do 2 f_equal.
  rewrite (fix_field_map (fix_field o "timestamp") "time")
    by (now rewrite keys_fix_field).
  rewrite (fix_field_map o "timestamp" Hnd).
  rewrite map_map, clone_fields_map. cbn [fst snd].
  apply map_ext_in. intros [k x] Hin.
  unfold flat_entry in Hf. rewrite forallb_forall in Hf.
  specialize (Hf _ Hin). cbn [fst snd] in *. f_equal.
  destruct (k =? "timestamp") eqn:E1.
  - apply String.eqb_eq in E1. subst k. cbn [String.eqb Ascii.eqb Bool.eqb].
    destruct x; try discriminate; cbn [is_stamp] in Hf;
      rewrite (fix_value_text "timestamp") by (reflexivity || exact Hf);
      reflexivity.
  - destruct (k =? "time") eqn:E2.
    + apply String.eqb_eq in E2. subst k.
      destruct x; try discriminate;
        rewrite (fix_value_text "time") by (reflexivity || exact Hf);
        reflexivity.
    + destruct x; try discriminate; try reflexivity.
      cbn [clone replacer]. now rewrite E1, E2.
Qed.

End TwoNormalisers.

Definition log_entry : object :=
  [("level", VStr "info"); ("timestamp", VStr "2025-04-01T02:15");
   ("time", VNull); ("line", VNum 12)].

Lemma interceptor_agrees_with_replacer_witness :
  fix_entry (VObj log_entry) = Ret (clone "0" (VObj log_entry)).
Proof.
  apply (interceptor_agrees_with_replacer log_entry "0").
  - repeat constructor; cbn; intuition discriminate.
  - reflexivity.
Defined.
(* ================================================================== *)
(** * More properties of the reorganiser *)

Lemma keys_insert_index (o : object) (n : N) (k : string) (v : value) :
  Permutation (keys (insert_index o n k v)) (k :: keys o).
Proof.
  unfold keys. induction o as [ | [k' v'] r IH ]; cbn; [ reflexivity | ].
  destruct (array_index k') as [ m | ]; [ destruct (m <? n)%N | ]; cbn;
    try reflexivity.
  rewrite IH. apply perm_swap.
Qed.

Lemma keys_obj_set_new (o : object) (k : string) (v : value) :
  own_get o k = None -> k <> "__proto__" ->
  Permutation (keys (obj_set o k v)) (k :: keys o).
Proof.
  intros Hn Hp. unfold obj_set, has_own. rewrite Hn.
  apply String.eqb_neq in Hp. rewrite Hp.
  destruct (array_index k) as [ n | ]; [ apply keys_insert_index | ].
  unfold keys. rewrite map_app. cbn. symmetry. apply Permutation_cons_append.
Qed.

Lemma keys_assign_all (r : object) (entries : list (string * value)) :
  NoDup (keys r ++ map fst entries) ->
  ~ In "__proto__" (map fst entries) ->
  Permutation (keys (assign_all r entries)) (keys r ++ map fst entries).
Proof.
  revert r. induction entries as [ | [k v] es IH ]; intros r Hnd Hp.
  - cbn. now rewrite app_nil_r.
  - cbn [assign_all fold_left fst snd map] in *.
    fold (assign_all (obj_set r k v) es).
    assert (Hk : own_get r k = None).
    { apply own_get_absent. apply NoDup_remove_2 in Hnd.
      intros Hin. apply Hnd. apply in_or_app. now left. }
    assert (Hkp : k <> "__proto__").
    { intros ->. apply Hp. now left. }
    pose proof (keys_obj_set_new r k v Hk Hkp) as P.
    assert (P' : Permutation (keys (obj_set r k v) ++ map fst es)
                             (keys r ++ k :: map fst es)).
    { rewrite P. cbn. apply Permutation_middle. }
    rewrite IH.
    + exact P'.
    + eapply Permutation_NoDup; [ symmetry; exact P' | exact Hnd ].
    + intros Hin. apply Hp. now right.
Qed.

Section SortedInput.
Variable compare : value -> value -> res (option Z).
Variable time : value -> option Z.
Hypothesis compare_times :
  forall a b ta tb,
    time a = Some ta -> time b = Some tb ->
    compare a b = Ret (Some (ta - tb)%Z).

(** Sorting an array that is in ascending order gives it back. *)
Lemma js_sort_sorted_id (l : list value) :
  Forall (timed time) l -> StronglySorted (earlier time) l ->
  js_sort compare l = Ret l.
Proof.
  intros Ht Hs. induction Hs as [ | x r Hr IH Hx ]; [ reflexivity | ].
  inversion Ht as [ | ? ? [tx Hxt] Htr ]; subst.
  cbn [js_sort]. rewrite (IH Htr). cbn [rbind].
  destruct r as [ | y r' ]; [ reflexivity | ].
  inversion Htr as [ | ? ? [ty Hyt] _ ]; subst.
  inversion Hx as [ | ? ? Hxy _ ]; subst.
  cbn [sort_insert]. rewrite (compare_times x y tx ty Hxt Hyt). cbn [rbind].
  unfold earlier, time_of in Hxy. rewrite Hxt, Hyt in Hxy.
  destruct (0 <? tx - ty)%Z eqn:E; [ | reflexivity ].
  apply Z.ltb_lt in E. lia.
Qed.

End SortedInput.

Section ReorganizeMore.
Context {H : DateHost}.

Lemma final_value_simple (k : string) (v : value) :
  is_complex v = false -> final_value k v = Ret v.
Proof. destruct v; try discriminate; reflexivity. Qed.

Lemma final_value_other (k : string) (v : value) :
  k <> "events" -> k <> "log" -> final_value k v = Ret v.
Proof.
  intros H1 H2. apply String.eqb_neq in H1, H2.
  destruct v; try reflexivity. cbn [final_value]. now rewrite H1, H2.
Qed.

Lemma is_complex_final (kv : string * value) :
  is_complex (snd (final_entry kv)) = is_complex (snd kv).
Proof.
  destruct kv as [k v]. unfold final_entry. cbn [fst snd].
  destruct v as [ | | | | l | o ]; try reflexivity.
  cbn [final_value].
  destruct (k =? "events").
  - destruct (js_sort compare_events l); reflexivity.
  - destruct (k =? "log"); [ | reflexivity ].
    destruct (js_sort compare_log l); reflexivity.
Qed.

(** The reorganiser keeps every entry: on a document with distinct keys,
    none of them [__proto__], on which the sorts succeed, it returns a
    document with the same keys (in some order), each holding what it
    held, but for the arrays under [events] and [log], which are sorted. *)
Theorem reorganize_keeps_entries (d : object) :
  NoDup (keys d) -> ~ In "__proto__" (keys d) -> sortable d ->
  exists out,
    reorganize (VObj d) = Ret out
    /\ Permutation (keys d) (keys out)
    /\ (forall k v,
          own_get d k = Some v ->
          own_get out k = Some (snd (final_entry (k, v))))
    /\ (forall k v,
          own_get d k = Some v -> k <> "events" -> k <> "log" ->
          own_get out k = Some v).
Proof.
  intros Hnd Hp Hs.
  set (E := (simple_entries d ++ map final_entry (complex_entries d))%list).
  assert (KE : Permutation (keys d) (map fst E)).
  { unfold E. rewrite map_app, map_fst_final, <- map_app.
    apply Permutation_map.
    apply (filter_split_perm (fun kv => is_complex (snd kv))). }
  assert (NE : NoDup (map fst E)) by (now apply reorganized_keys_nodup).
  assert (G : forall k v, own_get d k = Some v ->
                own_get (assign_all [] E) k = Some (snd (final_entry (k, v)))).
  { intros k v Hg. apply own_get_In_inv in Hg.
    apply own_get_assign_all_in; [ exact NE | | ].
    - unfold E. apply in_or_app.
      destruct (is_complex v) eqn:Cv.
      + right.
        change (k, snd (final_entry (k, v))) with (final_entry (k, v)).
        apply in_map. apply filter_In. now split.
      + left. unfold final_entry. cbn [fst snd].
        rewrite (final_value_simple k v Cv).
        apply filter_In. split; [ exact Hg | ]. cbn [snd]. now rewrite Cv.
    - intros ->. apply Hp. unfold keys.
      change "__proto__" with (fst ("__proto__", v)). now apply in_map. }
  exists (assign_all [] E).
  split; [ apply reorganize_eq; [ exact Hnd | now apply sortable_final ] | ].
  split.
  { rewrite KE. symmetry. apply (keys_assign_all [] E).
    - exact NE.
    - intros Hin. apply Hp. eapply Permutation_in; [ symmetry; exact KE | exact Hin ]. }
  split; [ exact G | ].
  intros k v Hg H1 H2. rewrite (G k v Hg). unfold final_entry. cbn [fst snd].
  now rewrite (final_value_other k v H1 H2).
Qed.

Lemma filter_simple_final (l : list (string * value)) :
  filter (fun kv => negb (is_complex (snd kv)))
    (map final_entry (complex_entries l)) = [].
Proof.
  unfold complex_entries. induction l as [ | kv r IH ]; [ reflexivity | ].
  cbn [filter]. destruct (is_complex (snd kv)) eqn:Ck; [ | exact IH ].
  cbn [map filter]. now rewrite is_complex_final, Ck.
Qed.

Lemma filter_complex_final (l : list (string * value)) :
  filter (fun kv => is_complex (snd kv)) (map final_entry (complex_entries l))
  = map final_entry (complex_entries l).
Proof.
  unfold complex_entries. induction l as [ | kv r IH ]; [ reflexivity | ].
  cbn [filter]. destruct (is_complex (snd kv)) eqn:Ck; [ | exact IH ].
  cbn [map filter]. now rewrite is_complex_final, Ck, IH.
Qed.

Lemma filter_filter {A : Type} (p : A -> bool) (l : list A) :
  filter p (filter p l) = filter p l.
Proof.
  induction l as [ | x r IH ]; [ reflexivity | ].
  cbn [filter]. destruct (p x) eqn:E; [ | exact IH ].
  cbn [filter]. now rewrite E, IH.
Qed.

Lemma filter_none {A : Type} (p : A -> bool) (l : list A) :
  filter p (filter (fun x => negb (p x)) l) = [].
Proof.
  induction l as [ | x r IH ]; [ reflexivity | ].
  cbn [filter]. destruct (p x) eqn:E; cbn [negb]; [ exact IH | ].
  cbn [filter]. now rewrite E.
Qed.

(** The final value of a final value is itself. *)
Lemma final_entry_final (d : object) (kv : string * value) :
  NoDup (keys d) -> sortable d -> In kv d ->
  final_entry (final_entry kv) = final_entry kv
  /\ (forall l', snd (final_entry kv) = VArr l' ->
        (fst kv = "events" -> Forall (timed event_key) l')
        /\ (fst kv = "log" -> Forall (timed log_key) l')).
Proof.
  intros Hnd [He Hl] Hin. destruct kv as [k v].
  pose proof (own_get_In d k v Hnd Hin) as Hg.
  unfold final_entry. cbn [fst snd].
  destruct v as [ | | | | l | o ]; try (split; [ reflexivity | discriminate ]).
  cbn [final_value].
  destruct (k =? "events") eqn:Ee.
  - apply String.eqb_eq in Ee. subst k.
    destruct (js_sort_sorted compare_events event_key compare_events_times l
                (He l Hg)) as (out & E & _ & F & S).
    rewrite E. cbn [rbind final_value String.eqb Ascii.eqb Bool.eqb].
    rewrite (js_sort_sorted_id compare_events event_key compare_events_times
               out F S).
    split; [ reflexivity | ]. intros l' [= <-].
    split; [ intros _; exact F | discriminate ].
  - destruct (k =? "log") eqn:El.
    + apply String.eqb_eq in El. subst k.
      destruct (js_sort_sorted compare_log log_key compare_log_times l
                  (Hl l Hg)) as (out & E & _ & F & S).
      rewrite E. cbn [rbind final_value String.eqb Ascii.eqb Bool.eqb].
      rewrite (js_sort_sorted_id compare_log log_key compare_log_times
                 out F S).
      split; [ reflexivity | ]. intros l' [= <-].
      split; [ discriminate | intros _; exact F ].
    + cbn [final_value]. rewrite Ee, El.
      split; [ reflexivity | ]. intros l' _.
      apply String.eqb_neq in Ee, El. split; intros; congruence.
Qed.

(** Reorganising twice is reorganising once: on a document with distinct
    keys that are neither integer-like nor [__proto__], on which the
    sorts succeed, the reorganiser returns a document that it leaves as it
    is. *)
Theorem reorganize_idempotent (d : object) :
  NoDup (keys d) -> forallb plain_key (keys d) = true -> sortable d ->
  exists out,
    reorganize (VObj d) = Ret out /\ reorganize (VObj out) = Ret out.
Proof.
  intros Hnd Hp Hs.
  destruct (reorganize_plain_keys d Hnd Hp Hs) as [R _].
  set (out := (simple_entries d ++ map final_entry (complex_entries d))%list)
    in *.
  exists out. split; [ exact R | ].
  assert (KE : Permutation (keys d) (keys out)).
  { unfold out, keys. rewrite map_app, map_fst_final, <- map_app.
    apply Permutation_map.
    apply (filter_split_perm (fun kv => is_complex (snd kv))). }
  assert (NE : NoDup (keys out)) by (now apply reorganized_keys_nodup).
  assert (PE : forallb plain_key (keys out) = true).
  { apply forallb_forall. intros k Hin. rewrite forallb_forall in Hp.
    apply Hp. eapply Permutation_in; [ symmetry; exact KE | exact Hin ]. }
  assert (In_out : forall k v, In (k, v) out ->
            exists v0, In (k, v0) d /\ (k, v) = final_entry (k, v0)).
  { intros k v Hin. unfold out in Hin. apply in_app_or in Hin as [ Hin | Hin ].
    - apply filter_In in Hin as [Hin Cv]. exists v. split; [ exact Hin | ].
      unfold final_entry. cbn [fst snd] in *.
      apply negb_true_iff in Cv. now rewrite (final_value_simple k v Cv).
    - apply in_map_iff in Hin as ([k0 v0] & Ef & Hin).
      apply filter_In in Hin as [Hin _].
      assert (k0 = k) by (unfold final_entry in Ef; cbn in Ef; congruence).
      subst k0. exists v0. split; [ exact Hin | now symmetry ]. }
  assert (SE : sortable out).
  { split; intros l' Hg; apply own_get_In_inv in Hg;
      destruct (In_out _ _ Hg) as (v0 & Hin & Ef);
      destruct (final_entry_final d (_, v0) Hnd Hs Hin) as [_ F];
      (assert (Ev : snd (final_entry (_, v0)) = VArr l')
         by (now rewrite <- Ef));
      destruct (F l' Ev) as [F1 F2]; auto. }
  destruct (reorganize_plain_keys out NE PE SE) as [R2 _].
  rewrite R2. f_equal.
  assert (S1 : simple_entries out = simple_entries d).
  { unfold simple_entries at 1. unfold out. rewrite filter_app.
    unfold simple_entries. rewrite filter_filter.
    fold (simple_entries d). rewrite filter_simple_final. apply app_nil_r. }
  assert (C1 : complex_entries out = map final_entry (complex_entries d)).
  { unfold complex_entries at 1. unfold out. rewrite filter_app.
    unfold simple_entries.
    rewrite (filter_none (fun kv => is_complex (snd kv))).
    apply filter_complex_final. }
  rewrite S1, C1. unfold out. f_equal.
  rewrite map_map. apply map_ext_in. intros kv Hin.
  apply filter_In in Hin as [Hin _].
  now destruct (final_entry_final d kv Hnd Hs Hin) as [Ff _].
Qed.

End ReorganizeMore.

Definition session_doc : object :=
  [("events", VArr [stamped "2025-01-02T00:00:00Z";
                    stamped "2025-01-01T00:00:00Z"]);
   ("id", VStr "s-1");
   ("route", VObj [("trunk", VStr "t-9")]);
   ("status", VStr "ended")].

Lemma session_doc_sortable : sortable session_doc.
Proof.
  split; intros l [= <-].
  repeat constructor; eexists; vm_compute; reflexivity.
Qed.

Lemma session_doc_nodup : NoDup (keys session_doc).
Proof. repeat constructor; cbn; intuition discriminate. Qed.

Lemma reorganize_keeps_entries_witness :
  exists out,
    reorganize (VObj session_doc) = Ret out
    /\ Permutation (keys session_doc) (keys out)
    /\ (forall k v,
          own_get session_doc k = Some v ->
          own_get out k = Some (snd (final_entry (k, v))))
    /\ (forall k v,
          own_get session_doc k = Some v -> k <> "events" -> k <> "log" ->
          own_get out k = Some v).
Proof.
  apply (reorganize_keeps_entries session_doc).
  - exact session_doc_nodup.
  - cbn. intuition discriminate.
  - exact session_doc_sortable.
Defined.

Lemma reorganize_idempotent_witness :
  exists out,
    reorganize (VObj session_doc) = Ret out
    /\ reorganize (VObj out) = Ret out.
Proof.
  apply (reorganize_idempotent session_doc).
  - exact session_doc_nodup.
  - reflexivity.
  - exact session_doc_sortable.
Defined.

(* ================================================================== *)
(** * What [display] prints *)

(** An entry of the domains mapping that [display] can list: its
    details are not [null], and its key is not an array or a mapping. *)
Definition listed (kx : string * value) : bool :=
  match snd kx with
  | VNull => false
  | VObj r =>
      match own_get r "apiKey" with
      | Some (VArr _) | Some (VObj _) => false
      | _ => true
      end
  | _ => true
  end.

(** The key as it is shown: masked when it is a string, the fixed mask
    otherwise. *)
Definition shown_key (details : value) : string :=
  match details with
  | VObj r =>
      match own_get r "apiKey" with
      | Some (VStr s) => maskedKey s
      | _ => "********"
      end
  | _ => "********"
  end.

Definition row (kx : string * value) : event :=
  ConsoleLog (padEnd (fst kx) 30 ++ " " ++ shown_key (snd kx)).

Lemma mask_entry_listed (kx : string * value) :
  listed kx = true -> mask_entry (snd kx) = Ret (shown_key (snd kx)).
Proof.
  destruct kx as [k details]. unfold listed, mask_entry, shown_key. cbn [snd].
  destruct details as [ | b | n | s | l | r ]; try discriminate; intros Hl;
    try reflexivity.
  cbn [js_get rbind].
  destruct (own_get r "apiKey") as [ [ | b | n | s | l | o ] | ];
    try discriminate; try reflexivity.
  - destruct b; reflexivity.
  - cbn [truthy]. destruct (negb (n =? 0)%Z); reflexivity.
Qed.

Lemma display_rows_listed (entries : list (string * value)) (w : world) :
  forallb listed entries = true ->
  display_rows entries w = (map row entries, w, Ret tt).
Proof.
  induction entries as [ | [k details] rest IH ]; intros Hl; [ reflexivity | ].
  cbn [forallb] in Hl. apply andb_true_iff in Hl as [H1 H2].
  cbn [display_rows]. unfold bind, lift.
  pose proof (mask_entry_listed (k, details) H1) as M. cbn [snd] in M.
  rewrite M. unfold console_log, emit. rewrite (IH H2). reflexivity.
Qed.

Section DisplayFacts.
Context {Y : Yaml}.

(** The entries of the domains mapping of the store. *)
Definition listing (w : world) : list (string * value) :=
  match js_get (loaded w) "domains" with
  | Ret x => slot_entries x
  | _ => []
  end.

Definition header : list event :=
  [ConsoleLog (LF ++ "Configured Domains:" ++ LF);
   ConsoleLog rule;
   ConsoleLog "Domain                          API Key";
   ConsoleLog rule].

Definition total (n : nat) : string :=
  "Total domains: " ++ N_to_string (N.of_nat n).

Definition loading : string := "Loading configuration for display".
Definition domains_found : string := "Domains found in configuration".
Definition no_domains : string := "No domains are currently configured".

Lemma slot_entries_falsy (x : slot) :
  slot_truthy x = false -> slot_entries x = [].
Proof.
  destruct x as [ | | [ | b | n | s | l | o ] ]; try discriminate;
    try reflexivity.
  cbn. intros E. apply negb_false_iff in E. apply String.eqb_eq in E.
  now subst.
Qed.

Lemma display_eq (w : world) :
  display w =
  match listing w with
  | [] =>
      ((debug_events w [loading] ++ load_trace w
        ++ [ConsoleLog no_domains])%list,
       ensured w, Ret tt)
  | entries =>
      match display_rows entries (ensured w) with
      | (t, w', Ret _) =>
          ((debug_events w [loading] ++ load_trace w
            ++ debug_events w [domains_found] ++ header ++ t
            ++ [ConsoleLog rule; ConsoleLog (total (List.length entries))])%list,
           w', Ret tt)
      | (t, w', Throw message) =>
          ((debug_events w [loading] ++ load_trace w
            ++ debug_events w [domains_found] ++ header ++ t
            ++ [ConsoleError ("Error displaying configuration: " ++ message)])%list,
           w', Exit 1%Z)
      | (t, w', Exit code) =>
          ((debug_events w [loading] ++ load_trace w
            ++ debug_events w [domains_found] ++ header ++ t)%list,
           w', Exit code)
      end
  end.
Proof.
  unfold display, listing, try_catch, bind, debug, debug_events, loading,
    domains_found.
  destruct (js_get_returns (loaded w) "domains" (loaded_truthy w)) as (x & E).
  destruct (isDebugEnabled w) eqn:Dbg; cbv beta iota;
    rewrite loadConfig_eq; cbv beta iota; unfold lift; rewrite E;
    cbv beta iota.
  all: destruct (slot_truthy x) eqn:Tx; cbn [negb orb];
    [ | rewrite (slot_entries_falsy x Tx); unfold console_log, emit;
        cbn [app]; rewrite ?app_nil_r; reflexivity ].
  all: destruct (slot_entries x) as [ | kx rest ] eqn:Ex;
    [ unfold console_log, emit; cbn [app]; rewrite ?app_nil_r; reflexivity | ].
  all: cbn [List.length Nat.eqb]; cbv beta iota;
    cbn [ensured isDebugEnabled]; rewrite ?Dbg; cbv beta iota;
    unfold console_log, console_error, process_exit, emit, lift;
    cbv beta iota.
  all: destruct (display_rows (kx :: rest) (ensured w)) as [[t w'] [ u | m | c ]];
    cbv beta iota; unfold header, total, no_domains;
    cbn [app map List.length]; rewrite <- ?app_assoc; cbn [app];
    rewrite ?app_nil_r; reflexivity.
Qed.

(** With nothing to list -- no file, an empty or unreadable file, no
    [domains], or an empty mapping -- [display] prints one line saying so
    and returns. *)
Theorem display_nothing_configured (w : world) :
  listing w = [] ->
  display w
  = ((debug_events w [loading] ++ load_trace w ++ [ConsoleLog no_domains])%list,
     ensured w, Ret tt).
Proof. intros Hl. rewrite display_eq, Hl. reflexivity. Qed.

(** With entries to list, [display] prints the header, one row per
    entry in the order of the mapping, each with the name padded to 30
    characters and the key as it is shown, then the rule and the number of
    entries, and returns. *)
Theorem display_listing (w : world) :
  listing w <> [] -> forallb listed (listing w) = true ->
  display w
  = ((debug_events w [loading] ++ load_trace w
      ++ debug_events w [domains_found] ++ header
      ++ map row (listing w)
      ++ [ConsoleLog rule; ConsoleLog (total (List.length (listing w)))])%list,
     ensured w, Ret tt).
Proof.
  intros Hn Hl. rewrite display_eq.
  destruct (listing w) as [ | kx rest ]; [ congruence | ].
  cbv beta iota zeta.
  now rewrite (display_rows_listed (kx :: rest) (ensured w) Hl).
Qed.

End DisplayFacts.

Lemma display_nothing_configured_witness :
  display garbled
  = ((debug_events garbled [loading] ++ load_trace garbled
      ++ [ConsoleLog no_domains])%list,
     ensured garbled, Ret tt).
Proof. apply (display_nothing_configured garbled). reflexivity. Defined.

Lemma display_listing_witness :
  display stocked
  = ((debug_events stocked [loading] ++ load_trace stocked
      ++ debug_events stocked [domains_found] ++ header
      ++ map row (listing stocked)
      ++ [ConsoleLog rule; ConsoleLog (total (List.length (listing stocked)))])%list,
     ensured stocked, Ret tt).
Proof.
  apply (display_listing stocked).
  - discriminate.
  - reflexivity.
Defined.
(* ================================================================== *)
(** * What [get] and [call] ask and print *)

Lemma visible_app (t t' : list event) :
  visible (t ++ t') = (visible t ++ visible t')%list.
Proof. apply filter_app. Qed.

Lemma visible_debug_cons (message : string) (t : list event) :
  visible (DebugLog message :: t) = visible t.
Proof. reflexivity. Qed.

Lemma visible_debug_events (w : world) (messages : list string) :
  visible (debug_events w messages) = [].
Proof.
  unfold debug_events. destruct (isDebugEnabled w); [ | reflexivity ].
  induction messages as [ | m r IH ]; [ reflexivity | exact IH ].
Qed.

Lemma visible_load_trace {Y : Yaml} (w : world) :
  visible (load_trace w) = load_trace w.
Proof.
  unfold load_trace.
  destruct (config_file w) as [ f | ]; [ destruct (yaml_parse f) | ];
    reflexivity.
Qed.

(** The path of the resource [get] asks for, after the path of the
    domain: nothing for the domain itself; the collection for a flag given
    bare (or with an empty value); the member for a flag given with an
    identifier. *)
Definition member (collection : string) (f : flag) : string :=
  match f with
  | Given id =>
      if id =? "" then "/" ++ collection else "/" ++ collection ++ "/" ++ id
  | _ => "/" ++ collection
  end.

Definition resource_path (o : get_options) : string :=
  if supplied (subscriber o) then member "subscribers" (subscriber o)
  else if supplied (application o) then member "applications" (application o)
  else if supplied (trunk o) then member "trunks" (trunk o)
  else if supplied (dnid o) then member "dnids" (dnid o)
  else EmptyString.

(** The title [get] prints over the answer. *)
Definition titled (one all : string) (domain : string) (f : flag) : string :=
  match f with
  | Given id =>
      if id =? "" then "All " ++ all ++ " for Domain " ++ domain
      else one ++ " Information for " ++ id
  | _ => "All " ++ all ++ " for Domain " ++ domain
  end.

Definition resource_title (o : get_options) (domain : string) : string :=
  if supplied (subscriber o)
  then titled "Subscriber" "Subscribers" domain (subscriber o)
  else if supplied (application o)
  then titled "Application" "Applications" domain (application o)
  else if supplied (trunk o) then titled "Trunk" "Trunks" domain (trunk o)
  else if supplied (dnid o) then titled "DNID" "DNIDs" domain (dnid o)
  else "Domain Information for " ++ domain.

Section GetFacts.
Context {Y : Yaml} {C : Chalk} {H : DateHost} {R : Remote}.

(** How [get] ends on the answer of the accessor. *)
Definition get_answer (title : string) (f : fetched) : list event * res unit :=
  match f with
  | Data info => ([ConsoleLog (formatYaml info title)], Ret tt)
  | Failed message =>
      ([ConsoleError ("Error getting information: " ++ message)], Exit 1%Z)
  end.

Lemma show_resource_visible (what plural path Title Titles : string)
  (domain : string) (apiKey : slot) (f : flag) (w : world) :
  let url := "/customers/self/domains/" ++ domain ++ member path f in
  let m := try_catch
             (show_resource what plural Title Titles
                (getResourceInfo what plural path) domain apiKey f)
             (fun message =>
                console_error ("Error getting information: " ++ message) ;;;
                process_exit 1) in
  visible (trace (m w))
  = (HttpGet url apiKey
     :: fst (get_answer (titled Title Titles domain f) (client_get url apiKey)))
  /\ final (m w) = w
  /\ result (m w)
     = snd (get_answer (titled Title Titles domain f) (client_get url apiKey)).
Proof.
  cbv zeta.
  unfold show_resource, getResourceInfo, request, try_catch, bind, debug, emit,
    member, titled, flag_id, if_id, get_answer.
  destruct f as [ | | id ]; [ | | destruct (id =? "") eqn:Ei ];
    (destruct (isDebugEnabled w) eqn:Dbg; run Dbg;
     destruct (client_get _ apiKey) as [ info | message ]; run Dbg;
     unfold ret, throw, lift, console_log, console_error, process_exit, emit;
     run Dbg; repeat split).
Qed.

Lemma domain_info_visible (domain : string) (apiKey : slot) (w : world) :
  let url := "/customers/self/domains/" ++ domain in
  let title := "Domain Information for " ++ domain in
  let m := try_catch
             (info <- getDomainInfo domain apiKey ;;
              console_log (formatYaml info title))
             (fun message =>
                console_error ("Error getting information: " ++ message) ;;;
                process_exit 1) in
  visible (trace (m w))
  = (HttpGet url apiKey :: fst (get_answer title (client_get url apiKey)))
  /\ final (m w) = w
  /\ result (m w) = snd (get_answer title (client_get url apiKey)).
Proof.
  cbv zeta.
  unfold getDomainInfo, request, try_catch, bind, debug, emit, get_answer.
  destruct (isDebugEnabled w) eqn:Dbg; run Dbg;
    destruct (client_get _ apiKey) as [ info | message ]; run Dbg;
    unfold ret, throw, lift, console_log, console_error, process_exit, emit;
    run Dbg; repeat split.
Qed.

(** A [try] around a sequence whose first part returns: the events of
    the first part, then the [try] around the rest. *)
Lemma try_catch_bind_ret {A B : Type} (m : M A) (k : A -> M B)
  (h : string -> M B) (w w' : world) (t : list event) (a : A) :
  m w = (t, w', Ret a) ->
  trace (try_catch (bind m k) h w) = (t ++ trace (try_catch (k a) h w'))%list
  /\ final (try_catch (bind m k) h w) = final (try_catch (k a) h w')
  /\ result (try_catch (bind m k) h w) = result (try_catch (k a) h w').
Proof.
  intros E. unfold try_catch, bind. rewrite E.
  destruct (k a w') as [[t' w''] [ b | e | c ]];
    [ | destruct (h e w'') as [[t'' w3] r] | ];
    cbn [trace final result fst snd]; rewrite <- ?app_assoc; repeat split.
Qed.

(** [get] for a configured domain, with at most one resource option:
    after loading the configuration it sends one request, for the resource
    the option names and with the key of the domain, and prints either
    the answer under its title or the error, in which case it exits with
    status 1. *)
Theorem getDomain_one_resource (o : get_options) (w : world) (domain : string) :
  get_domain o = Some domain ->
  (domain =? "") = false ->
  (1 <? resourceOptionsCount o)%nat = false ->
  slot_truthy (entry_of (loaded w) domain) = true ->
  let apiKey := key_of (entry_of (loaded w) domain) in
  let url := "/customers/self/domains/" ++ domain ++ resource_path o in
  let ending := get_answer (resource_title o domain) (client_get url apiKey) in
  visible (trace (getDomain o w))
  = (load_trace w ++ HttpGet url apiKey :: fst ending)%list
  /\ final (getDomain o w) = ensured w
  /\ result (getDomain o w) = snd ending.
Proof.
  intros Hd Hne Hc Hk. cbv zeta.
  unfold getDomain, missing, text_of. rewrite Hd, Hne.
  set (key := key_of (entry_of (loaded w) domain)).
  match goal with
  | |- context [try_catch (bind ?m ?k) ?h] =>
      destruct (try_catch_bind_ret m k h w w
                  (debug_events w [getting domain]) tt) as (T1 & F1 & R1)
  end.
  { unfold debug, debug_events, getting.
    destruct (isDebugEnabled w); reflexivity. }
  rewrite T1, F1, R1. clear T1 F1 R1.
  match goal with
  | |- context [try_catch (bind ?m ?k) ?h] =>
      destruct (try_catch_bind_ret m k h w (ensured w) (load_trace w) key)
        as (T2 & F2 & R2)
  end.
  { rewrite lookup_key_eq, Hk. reflexivity. }
  rewrite T2, F2, R2. clear T2 F2 R2.
  rewrite Hc. rewrite !visible_app, visible_debug_events, visible_load_trace.
  cbn [app].
  unfold resource_path, resource_title.
  destruct (supplied (subscriber o)).
  { destruct (show_resource_visible "subscriber" "subscribers" "subscribers"
                "Subscriber" "Subscribers" domain key (subscriber o)
                (ensured w)) as (T & F & Rs).
    unfold getSubscriberInfo. rewrite T, F, Rs. repeat split. }
  destruct (supplied (application o)).
  { destruct (show_resource_visible "application" "applications" "applications"
                "Application" "Applications" domain key (application o)
                (ensured w)) as (T & F & Rs).
    unfold getApplicationInfo. rewrite T, F, Rs. repeat split. }
  destruct (supplied (trunk o)).
  { destruct (show_resource_visible "trunk" "trunks" "trunks"
                "Trunk" "Trunks" domain key (trunk o)
                (ensured w)) as (T & F & Rs).
    unfold getTrunkInfo. rewrite T, F, Rs. repeat split. }
  destruct (supplied (dnid o)).
  { destruct (show_resource_visible "DNID" "DNIDs" "dnids"
                "DNID" "DNIDs" domain key (dnid o)
                (ensured w)) as (T & F & Rs).
    unfold getDnidInfo. rewrite T, F, Rs. repeat split. }
  destruct (domain_info_visible domain key (ensured w)) as (T & F & Rs).
  rewrite T, F, Rs.
  replace (domain ++ "") with domain
    by (clear; induction domain as [ | c s IH ]; cbn; congruence).
  repeat split.
Qed.


End GetFacts.
(** The events of a finished run, without the lines of debug mode. *)
Ltac settle :=
  cbn [trace final result fst snd];
  rewrite <- ?app_assoc; cbn [app];
  repeat rewrite ?visible_debug_cons, ?visible_app, ?visible_load_trace;
  cbn [visible filter is_debug negb app];
  repeat split.

Section CallMore.
Context {Y : Yaml} {C : Chalk} {H : DateHost} {R : Remote}.

(** A response without a document: no body, or [null]. *)
Definition no_body (d : option value) : bool :=
  match d with
  | None | Some VNull => true
  | _ => false
  end.

Definition call_failed (message : string) : event :=
  ConsoleError ("Error getting session information: " ++ message).

(** [call] when the accessor fails. *)
Lemma getCallInfo_failed (w : world) (domain session : string) (log : bool)
  (message : string) :
  (domain =? "") = false ->
  (session =? "") = false ->
  slot_truthy (entry_of (loaded w) domain) = true ->
  client_get (session_url domain session) (key_of (entry_of (loaded w) domain))
  = Failed message ->
  visible (trace (getCallInfo (call_with domain session log) w))
  = (load_trace w
     ++ [HttpGet (session_url domain session)
           (key_of (entry_of (loaded w) domain));
         call_failed message])%list
  /\ result (getCallInfo (call_with domain session log) w) = Exit 1%Z.
Proof.
  intros Hd Hs Hc E.
  unfold getCallInfo, call_with, missing, text_of.
  cbn [call_domain call_session call_log]. rewrite Hd, Hs.
  unfold getSessionInfo, request.
  unfold try_catch, bind, debug, emit.
  fold (session_url domain session).
  destruct (isDebugEnabled w) eqn:Dbg; run Dbg;
    rewrite lookup_key_eq, Hc; run Dbg; rewrite E; unfold throw, lift;
    run Dbg;
    unfold console_error, process_exit, emit, lift, call_failed; run Dbg;
    settle.
Qed.

(** How [call] ends when the accessor fails, and when the response
    holds no document.  When the accessor fails, the error is reported and
    the command exits with status 1.  When the response holds no
    document, [call] without [--log] prints that no session information is
    available and returns; with [--log] it fails on reading the log of
    nothing, reports that and exits with status 1. *)
Theorem getCallInfo_without_document (w : world) (domain session : string)
  (log : bool) :
  (domain =? "") = false ->
  (session =? "") = false ->
  slot_truthy (entry_of (loaded w) domain) = true ->
  let apiKey := key_of (entry_of (loaded w) domain) in
  let url := session_url domain session in
  let run := getCallInfo (call_with domain session log) w in
  match client_get url apiKey with
  | Failed message =>
      visible (trace run)
      = (load_trace w ++ [HttpGet url apiKey; call_failed message])%list
      /\ result run = Exit 1%Z
  | Data d =>
      no_body d = true ->
      visible (trace run)
      = (load_trace w
         ++ [HttpGet url apiKey;
             if log then call_failed (type_error "read" "log")
             else ConsoleLog "No session information available"])%list
      /\ result run = if log then Exit 1%Z else Ret tt
  end.
Proof.
  intros Hd Hs Hc. cbv zeta.
  destruct (client_get (session_url domain session) _) as [ d | message ] eqn:E;
    [ | exact (getCallInfo_failed w domain session log message Hd Hs Hc E) ].
  intros Hn.
  unfold getCallInfo, call_with, missing, text_of.
  cbn [call_domain call_session call_log]. rewrite Hd, Hs.
  unfold getSessionInfo, request.
  unfold try_catch, bind, debug, emit.
  fold (session_url domain session).
  destruct (isDebugEnabled w) eqn:Dbg; run Dbg;
    rewrite lookup_key_eq, Hc; run Dbg; rewrite E; unfold ret; run Dbg;
    unfold dataToDisplay, bind, lift, throw, console_log, console_error,
      process_exit, emit, debug, ret, call_failed;
    (destruct log; run Dbg;
     destruct d as [ [ | | | | | ] | ]; try discriminate; run Dbg;
     cbn [js_get formatSessionYaml truthy]; unfold lift; run Dbg; settle).
Qed.

End CallMore.

(** A server that answers every request with an empty body. *)
Definition bodiless : Remote := {| client_get := fun _ _ => Data None |}.

Lemma getDomain_one_resource_witness :
  let o := {| get_domain := Some "example.com";
              subscriber := Given "1001";
              application := Absent; trunk := Absent; dnid := Absent |} in
  visible (trace (getDomain o stocked))
  = (load_trace stocked
     ++ [HttpGet "/customers/self/domains/example.com/subscribers/1001"
           (Val (VStr "abcdefghijkl"));
         ConsoleError ("Error getting information: "
                         ++ "Network Error: Unable to reach Cloudonix API")])%list
  /\ final (getDomain o stocked) = ensured stocked
  /\ result (getDomain o stocked) = Exit 1%Z.
Proof.
  exact (getDomain_one_resource
           {| get_domain := Some "example.com";
              subscriber := Given "1001";
              application := Absent; trunk := Absent; dnid := Absent |}
           stocked "example.com" eq_refl eq_refl eq_refl eq_refl).
Defined.


Lemma getCallInfo_without_document_witness :
  visible (trace (@getCallInfo _ _ _ bodiless
                    (call_with "example.com" "s-1" true) stocked))
  = (load_trace stocked
     ++ [HttpGet (session_url "example.com" "s-1") (Val (VStr "abcdefghijkl"));
         call_failed (type_error "read" "log")])%list
  /\ result (@getCallInfo _ _ _ bodiless
               (call_with "example.com" "s-1" true) stocked)
     = Exit 1%Z.
Proof.
  exact (@getCallInfo_without_document _ _ _ bodiless stocked
           "example.com" "s-1" true eq_refl eq_refl eq_refl eq_refl).
Defined.
(* ================================================================== *)
(** * The renderer with colours off *)

Lemma append_nil_r (s : string) : s ++ "" = s.
Proof. induction s as [ | c s IH ]; cbn; [ reflexivity | now rewrite IH ]. Qed.

Lemma substring_append_r (p r : string) (n : nat) :
  substring (String.length p) n (p ++ r) = substring 0 n r.
Proof. induction p as [ | c p IH ]; cbn; [ reflexivity | exact IH ]. Qed.

Lemma substring_all (s : string) : substring 0 (String.length s) s = s.
Proof. induction s as [ | c s IH ]; cbn; [ reflexivity | now rewrite IH ]. Qed.

Lemma cut_at_append (c : ascii) (s a b : string) :
  cut_at c s = Some (a, b) -> s = a ++ String c b.
Proof.
  revert a. induction s as [ | c' r IH ]; cbn; intros a; [ discriminate | ].
  destruct (Ascii.eqb_spec c' c) as [ -> | _ ].
  - intros [= <- <-]. reflexivity.
  - destruct (cut_at c r) as [ [a' b'] | ]; [ | discriminate ].
    intros [= <- <-]. cbn. now rewrite (IH a' eq_refl).
Qed.

Lemma span_append (f : ascii -> bool) (s a b : string) :
  span f s = (a, b) -> s = a ++ b.
Proof.
  revert a. induction s as [ | c r IH ]; cbn; intros a.
  - intros [= <- <-]. reflexivity.
  - destruct (f c).
    + destruct (span f r) as [a' b']. intros [= <- <-]. cbn.
      now rewrite (IH a' eq_refl).
    + intros [= <- <-]. reflexivity.
Qed.

Lemma after_prefix_append (p : list pat) (s rest : string) :
  after_prefix p s = Some rest -> substring 0 (List.length p) s ++ rest = s.
Proof.
  revert s. induction p as [ | [ | c' ] p IH ]; intros s; cbn [after_prefix].
  - intros [= <-]. destruct s; reflexivity.
  - destruct s as [ | c r ]; [ discriminate | ].
    destruct (is_digit c); [ | discriminate ].
    intros E. cbn. now rewrite (IH r E).
  - destruct s as [ | c r ]; [ discriminate | ].
    destruct (c =? c')%char; [ | discriminate ].
    intros E. cbn. now rewrite (IH r E).
Qed.

Lemma leading_trim_start (s : string) : leading s ++ trim_start s = s.
Proof.
  induction s as [ | c r IH ]; [ reflexivity | ].
  cbn. destruct (is_space c); cbn; [ now rewrite IH | reflexivity ].
Qed.

Lemma trim_end_prefix (s : string) : exists r, s = trim_end s ++ r.
Proof.
  induction s as [ | c s IH ]; [ exists EmptyString; reflexivity | ].
  destruct IH as (q & Eq). cbn [trim_end].
  destruct (trim_end s) as [ | c' r' ] eqn:E.
  - destruct (is_space c).
    + exists (String c s). reflexivity.
    + exists s. reflexivity.
  - exists q. cbn. now rewrite Eq at 1.
Qed.

Lemma trim_parts (s : string) : leading s ++ trim s ++ trailing s = s.
Proof.
  unfold trim, trailing.
  destruct (trim_end_prefix (trim_start s)) as (r & Er).
  set (body := trim_start s) in *. set (p := trim_end body) in *.
  assert (L : String.length body - String.length p = String.length r).
  { rewrite Er at 1. rewrite length_append. lia. }
  rewrite L.
  assert (Sub : substring (String.length p) (String.length r) body = r).
  { rewrite Er. now rewrite substring_append_r, substring_all. }
  rewrite Sub, <- Er. apply leading_trim_start.
Qed.

Lemma join_cons_first (sep : string) (c : ascii) (x : string)
  (xs : list string) :
  join sep (String c x :: xs) = String c (join sep (x :: xs)).
Proof. destruct xs; reflexivity. Qed.

(** Joining the lines of a text gives the text back. *)
Lemma join_split_lines (s : string) : join LF (split_lines s) = s.
Proof.
  induction s as [ | c r IH ]; [ reflexivity | ].
  cbn [split_lines].
  destruct (c =? ascii_of_nat 10)%char eqn:E.
  - apply Ascii.eqb_eq in E. subst c.
    destruct (split_lines r) as [ | y ys ] eqn:S.
    + destruct r; cbn in S; [ discriminate | ].
      destruct (a =? ascii_of_nat 10)%char; [ discriminate | ].
      destruct (split_lines r); discriminate.
    + change (join LF (EmptyString :: y :: ys))
        with (EmptyString ++ LF ++ join LF (y :: ys)).
      rewrite IH. reflexivity.
  - destruct (split_lines r) as [ | x xs ] eqn:S.
    + destruct r; cbn in S; [ discriminate | ].
      destruct (a =? ascii_of_nat 10)%char; [ discriminate | ].
      destruct (split_lines r); discriminate.
    + rewrite join_cons_first. now rewrite IH.
Qed.

Section PlainRender.
Context {Y : Yaml} {C : Chalk} {H : DateHost}.
Hypothesis no_cyan : cyan_codes = (EmptyString, EmptyString).
Hypothesis no_yellow : yellow_codes = (EmptyString, EmptyString).
Hypothesis no_green : green_codes = (EmptyString, EmptyString).

Lemma paint_plain (s : string) : paint (EmptyString, EmptyString) s = s.
Proof. unfold paint. cbn. apply append_nil_r. Qed.

Lemma paint_trimmed_plain (value : string) :
  paint_trimmed (EmptyString, EmptyString) value = value.
Proof. unfold paint_trimmed. rewrite paint_plain. apply trim_parts. Qed.

Lemma paint_date_plain (s : string) :
  paint_date (EmptyString, EmptyString) s = s.
Proof.
  induction s as [ | c r IH ].
  - cbn. reflexivity.
  - cbn [paint_date].
    destruct (after_prefix date_head (String c r)) as [ rest | ] eqn:A;
      [ | now rewrite IH ].
    destruct (span date_tail_char rest) as [tail rest'] eqn:S.
    destruct tail as [ | t0 tail ]; [ now rewrite IH | ].
    rewrite paint_plain.
    apply after_prefix_append in A. apply span_append in S.
    cbn [List.length date_head] in A.
    rewrite append_assoc, <- S. exact A.
Qed.

Lemma processValue_plain (value : string) : processValue value = value.
Proof.
  unfold processValue. rewrite no_yellow, no_green.
  destruct ((trim value =? "") || (trim value =? "null")); [ reflexivity | ].
  destruct (is_number (trim value)); [ apply paint_trimmed_plain | ].
  destruct ((trim value =? "true") || (trim value =? "false"));
    [ apply paint_trimmed_plain | ].
  destruct (has_date_head (trim value)); [ apply paint_date_plain | ].
  destruct (quoted_by DQ (trim value) || quoted_by SQ (trim value));
    [ apply paint_trimmed_plain | reflexivity ].
Qed.

Lemma colorLine_plain (line : string) : colorLine line = line.
Proof.
  unfold colorLine, cyan, yellow.
  destruct (cut_at ":" line) as [ [key value] | ] eqn:E.
  - rewrite no_cyan, paint_plain, processValue_plain.
    apply cut_at_append in E. rewrite E. now rewrite append_assoc.
  - destruct (trim line) as [ | c r ]; [ reflexivity | ].
    destruct (Ascii.eqb_spec c "-") as [ -> | N ].
    + destruct (cut_at "-" line) as [ [a b] | ] eqn:D; [ | reflexivity ].
      rewrite no_yellow, paint_plain. apply cut_at_append in D. now rewrite D.
    + destruct c as [[ | ] [ | ] [ | ] [ | ] [ | ] [ | ] [ | ] [ | ]];
        try reflexivity. now contradiction N.
Qed.

(** With colours off, the highlighting changes nothing: the rendering
    is the title followed by the YAML text of the document. *)
Theorem highlight_plain (yamlString : string) (data : value) (title : string) :
  highlight yamlString = yamlString
  /\ (truthy data = true ->
      formatYaml (Some data) title
      = bold_blue (LF ++ "=== " ++ title ++ " ===" ++ LF ++ LF)
          ++ yaml_stringify data).
Proof.
  assert (Hh : forall s, highlight s = s).
  { intros s. unfold highlight.
    rewrite (map_ext colorLine (fun l => l) colorLine_plain), map_id.
    apply join_split_lines. }
  split; [ apply Hh | ].
  intros Ht. unfold formatYaml. now rewrite Ht, Hh.
Qed.

End PlainRender.

Lemma highlight_plain_witness :
  highlight "status: ended" = "status: ended"
  /\ (truthy (VObj no_log) = true ->
      formatYaml (Some (VObj no_log)) "Session"
      = bold_blue (LF ++ "=== " ++ "Session" ++ " ===" ++ LF ++ LF)
          ++ yaml_stringify (VObj no_log)).
Proof.
  apply (@highlight_plain ref_yaml plain_chalk eq_refl eq_refl eq_refl
           "status: ended" (VObj no_log) "Session").
Defined.
(* ================================================================== *)
(** * When the renderer of [call] returns *)

Section NoNull.
Variable compare : value -> value -> res (option Z).
Hypothesis compare_returns :
  forall a b, a <> VNull -> b <> VNull -> exists c, compare a b = Ret c.




End NoNull.

Section RendererReturns.
Context {Y : Yaml} {C : Chalk} {H : DateHost}.












End RendererReturns.

(* ================================================================== *)
(** * [call] over the client of api.js, when no response comes *)

Section NoAnswer.
Context {Y : Yaml} {C : Chalk} {H : DateHost} {T : Transport}.

(** The message of the error the accessor throws when the request got no
    response: the network error, unless debug mode is on and the request
    object cannot be printed, in which case the error of the printing
    takes its place. *)
Definition no_answer_message (debugging : bool) (dump : res string) : string :=
  if debugging
  then match dump with
       | Throw message => "Error: " ++ message
       | _ => network_error
       end
  else network_error.

(** When the request of [call] gets no response, the command reports an
    error and exits with status 1.  The error is the network error, except
    in debug mode when [JSON.stringify] throws on the request object that
    the error interceptor prints: the accessor then reports the message of
    that error instead. *)
Theorem no_response_reported (w : world) (domain session : string)
  (log : bool) (dump : res string) :
  (domain =? "") = false ->
  (session =? "") = false ->
  slot_truthy (entry_of (loaded w) domain) = true ->
  transport_get (session_url domain session)
    (key_of (entry_of (loaded w) domain)) = NoResponse dump ->
  let run := @getCallInfo Y C H (api_remote (isDebugEnabled w))
               (call_with domain session log) w in
  visible (trace run)
  = (load_trace w
     ++ [HttpGet (session_url domain session)
           (key_of (entry_of (loaded w) domain));
         call_failed (no_answer_message (isDebugEnabled w) dump)])%list
  /\ result run = Exit 1%Z.
Proof.
  intros Hd Hs Hc Ht. cbv zeta.
  apply (@getCallInfo_failed Y C H (api_remote (isDebugEnabled w)));
    try assumption.
  cbn [client_get api_remote]. rewrite Ht.
  unfold through_interceptor, no_answer_message.
  destruct (isDebugEnabled w); [ destruct dump | ]; reflexivity.
Qed.

End NoAnswer.

(** A network that is down, with a request object that holds a cycle. *)
Definition circular : Transport :=
  {| transport_get := fun _ _ =>
       NoResponse (Throw "Converting circular structure to JSON") |}.

Lemma no_response_reported_witness :
  let run := @getCallInfo _ _ _ (@api_remote _ circular true)
               (call_with "example.com" "s-1" false) (enableDebug stocked) in
  visible (trace run)
  = (load_trace (enableDebug stocked)
     ++ [HttpGet (session_url "example.com" "s-1") (Val (VStr "abcdefghijkl"));
         call_failed "Error: Converting circular structure to JSON"])%list
  /\ result run = Exit 1%Z.
Proof.
  exact (@no_response_reported _ _ _ circular (enableDebug stocked)
           "example.com" "s-1" false
           (Throw "Converting circular structure to JSON")
           eq_refl eq_refl eq_refl eq_refl).
Defined.
